(** * speech-to-text-dropbox: the drain pipeline, embedded and verified

    A shallow embedding of [speech-to-text-dropbox.py].  The script is
    effectful throughout (filesystem, clock, logger, the Whisper model), so
    every function of the script becomes a computation in a state-and-exception
    monad over an explicit world:

    - the filesystem is a finite map from path strings to nodes;
    - the clock is a counter read by [datetime.now()];
    - the logger and the calls that leave the process (transcription,
      opening a file, moving a path) are recorded in a trace, oldest first;
    - the Whisper model is a parameter: a function from the audio bytes to
      the transcript, or to a failure;
    - paths and file contents are byte strings, and the [str] Python makes
      of a file name is read off its bytes ([Unicode]).

    Names of definitions follow the script. *)

From stdpp Require Import gmap strings list fin_maps sorting.
From Stdlib Require Import Ascii String.

Open Scope string_scope.

(** ** Strings as the script uses them *)

Module Str.

Abbreviation len := Stdlib.Strings.String.length.

(** [s[n:]] *)
Fixpoint drop (n : nat) (s : string) : string :=
  match n, s with
  | O, _ => s
  | S n, String _ r => drop n r
  | S _, EmptyString => EmptyString
  end.

(** [s[:n]] *)
Fixpoint take (n : nat) (s : string) : string :=
  match n, s with
  | O, _ => EmptyString
  | S n, String a r => String a (take n r)
  | S _, EmptyString => EmptyString
  end.

(** [Some r] when [s = pre ++ r], the test behind [str.startswith]. *)
Fixpoint strip_prefix (pre s : string) : option string :=
  match pre, s with
  | EmptyString, _ => Some s
  | String a pre, String b r => if decide (a = b) then strip_prefix pre r else None
  | String _ _, EmptyString => None
  end.

Definition startswith (s pre : string) : bool :=
  bool_decide (is_Some (strip_prefix pre s)).

(** [str.endswith]: the last [len(suf)] characters are [suf]. *)
Definition endswith (s suf : string) : bool :=
  bool_decide (len suf ≤ len s)%nat &&
  bool_decide (drop (len s - len suf) s = suf).

(** [str.rfind] of one character: the index of its last occurrence. *)
Fixpoint rfind (c : ascii) (s : string) : option nat :=
  match s with
  | EmptyString => None
  | String a r =>
      match rfind c r with
      | Some i => Some (S i)
      | None => if decide (a = c) then Some 0 else None
      end
  end.

Fixpoint contains (c : ascii) (s : string) : bool :=
  match s with
  | EmptyString => false
  | String a r => bool_decide (a = c) || contains c r
  end.

(** [str.lower] on the ASCII range. *)
Definition lower_char (a : ascii) : ascii :=
  let n := N_of_ascii a in
  if (65 <=? n)%N && (n <=? 90)%N then ascii_of_N (n + 32) else a.

Fixpoint lower (s : string) : string :=
  match s with
  | EmptyString => EmptyString
  | String a r => String (lower_char a) (lower r)
  end.

(** [s.rstrip("/")] *)
Fixpoint rstrip_slash (s : string) : string :=
  match s with
  | EmptyString => EmptyString
  | String a r =>
      match rstrip_slash r with
      | EmptyString => if decide (a = "/"%char) then EmptyString else String a EmptyString
      | r' => String a r'
      end
  end.

End Str.

(** ** The [str] behind a byte string

    Python sees a file name as the [str] that [os.fsdecode] makes of its
    bytes.  On POSIX the filesystem encoding is UTF-8 and the error handler
    is [surrogateescape]: every well-formed UTF-8 sequence is one code
    point, and every byte that belongs to none becomes the lone surrogate
    [U+DC00 + byte].  [sorted] compares names by their code points, and
    [str.encode('utf-8')], which a text file opened with [encoding='utf-8']
    runs on every [write], refuses a [str] that holds a surrogate. *)

Module Unicode.

Definition byte (a : ascii) : N := N_of_ascii a.

(** A continuation byte, [10xxxxxx]. *)
Definition continuation (b : ascii) : bool :=
  (0x80 <=? byte b)%N && (byte b <=? 0xBF)%N.

(** The code point of the well-formed UTF-8 sequence that starts [s], with
    what follows it; [None] when none starts there: a stray continuation
    byte, an overlong form, an encoded surrogate, a code point beyond
    [U+10FFFF], or a sequence cut short. *)
Definition head (s : string) : option (N * string) :=
  match s with
  | EmptyString => None
  | String a r =>
      let n := byte a in
      if (n <? 0x80)%N then Some (n, r)
      else if (n <? 0xC2)%N then None
      else if (n <? 0xE0)%N then
        match r with
        | String b r1 =>
            if continuation b
            then Some (((n - 0xC0) * 0x40 + (byte b - 0x80))%N, r1)
            else None
        | _ => None
        end
      else if (n <? 0xF0)%N then
        match r with
        | String b (String c r2) =>
            if continuation b && continuation c
               && (negb (n =? 0xE0)%N || (0xA0 <=? byte b)%N)
               && (negb (n =? 0xED)%N || (byte b <? 0xA0)%N)
            then Some ((((n - 0xE0) * 0x40 + (byte b - 0x80)) * 0x40
                        + (byte c - 0x80))%N, r2)
            else None
        | _ => None
        end
      else if (n <? 0xF5)%N then
        match r with
        | String b (String c (String d r3)) =>
            if continuation b && continuation c && continuation d
               && (negb (n =? 0xF0)%N || (0x90 <=? byte b)%N)
               && (negb (n =? 0xF4)%N || (byte b <? 0x90)%N)
            then Some (((((n - 0xF0) * 0x40 + (byte b - 0x80)) * 0x40
                         + (byte c - 0x80)) * 0x40 + (byte d - 0x80))%N, r3)
            else None
        | _ => None
        end
      else None
  end.

(** The first code point of the [str] and the bytes of the rest: a byte
    that starts no well-formed sequence is escaped as [U+DC00 + byte]. *)
Definition step (s : string) : option (N * string) :=
  match s with
  | EmptyString => None
  | String a r =>
      Some (match head s with
            | Some cr => cr
            | None => ((0xDC00 + byte a)%N, r)
            end)
  end.

Fixpoint code_points_go (fuel : nat) (s : string) : list N :=
  match fuel with
  | O => []
  | S fuel =>
      match step s with
      | None => []
      | Some (cp, r) => cp :: code_points_go fuel r
      end
  end.

(** [os.fsdecode]: the code points of the [str]; every step consumes a
    byte, so the length of the string is fuel enough. *)
Definition code_points (s : string) : list N :=
  code_points_go (String.length s) s.

Definition surrogate (cp : N) : bool := (0xD800 <=? cp)%N && (cp <=? 0xDFFF)%N.

(** [str.encode('utf-8')] goes through: the [str] holds no surrogate. *)
Definition encodes (s : string) : bool :=
  forallb (λ cp, negb (surrogate cp)) (code_points s).

(** [<=] on [str]: lexicographic on the code points. *)
Fixpoint lex_le (l1 l2 : list N) : bool :=
  match l1, l2 with
  | [], _ => true
  | _ :: _, [] => false
  | x :: l1, y :: l2 => (x <? y)%N || ((x =? y)%N && lex_le l1 l2)
  end.

Definition le (s1 s2 : string) : Prop := lex_le (code_points s1) (code_points s2) = true.

Global Instance le_dec s1 s2 : Decision (le s1 s2).
Proof. unfold le. apply _. Defined.

End Unicode.

(** ** [os.path] (the POSIX flavour) *)

Module Path.

Definition sep : ascii := "/"%char.

(** [posixpath.join] of two components. *)
Definition join (a b : string) : string :=
  if Str.startswith b "/" then b
  else if bool_decide (a = "") || Str.endswith a "/" then a +:+ b
  else a +:+ "/" +:+ b.

(** [posixpath.basename]: [p[p.rfind('/') + 1:]]. *)
Definition basename (p : string) : string :=
  match Str.rfind sep p with
  | Some i => Str.drop (S i) p
  | None => p
  end.

Fixpoint has_nondot (s : string) : bool :=
  match s with
  | EmptyString => false
  | String a r => negb (bool_decide (a = "."%char)) || has_nondot r
  end.

(** [posixpath.split]: the head loses its trailing slashes unless it
    consists of slashes only. *)
Definition split (p : string) : string * string :=
  let i := match Str.rfind sep p with Some i => S i | None => 0 end in
  let head := Str.take i p in
  let tail := Str.drop i p in
  (match Str.rstrip_slash head with
   | EmptyString => head
   | stripped => stripped
   end, tail).

Definition dirname (p : string) : string := fst (split p).

(** [genericpath._splitext]: the extension starts at the last dot of the
    last component, unless only dots precede it there. *)
Definition splitext (p : string) : string * string :=
  match Str.rfind "."%char p with
  | None => (p, "")
  | Some dot =>
      let start := match Str.rfind sep p with Some i => S i | None => 0 end in
      let lead := Str.take (dot - start) (Str.drop start p) in
      if bool_decide (start ≤ dot)%nat && has_nondot lead
      then (Str.take dot p, Str.drop dot p)
      else (p, "")
  end.

End Path.

(** ** The world *)

(** A path names a regular file with its bytes, or a directory.  The map is
    keyed by the path string exactly as the script builds it; the entries of a
    directory [d] are the keys [join d name]. *)
Inductive node :=
| File (content : string)
| Dir.

Global Instance node_eq_dec : EqDecision node.
Proof. solve_decision. Defined.

(** What can be raised.  [SystemExit] is the one that is not an [Exception]:
    an [except Exception] clause lets it through. *)
Inductive exn :=
| ImportError
| FileNotFoundError (path : string)
| IsADirectoryError (path : string)
| NotADirectoryError (path : string)
| FileExistsError (path : string)
| OSError (path : string)
| ShutilError (path : string)
| TranscriptionError (path : string)
| LoadError (model_name : string)
| UnicodeEncodeError (text : string)
| SystemExit (code : nat).

Global Instance exn_eq_dec : EqDecision exn.
Proof. solve_decision. Defined.

Definition is_Exception (e : exn) : bool :=
  match e with SystemExit _ => false | _ => true end.

Definition is_ImportError (e : exn) : bool :=
  match e with ImportError => true | _ => false end.

Inductive level := INFO | WARNING | ERROR.

Global Instance level_eq_dec : EqDecision level.
Proof. solve_decision. Defined.

(** One constructor per [logger] call of the script, carrying the values
    its f-string interpolates. *)
Inductive message :=
| DirectoryReady (name path : string)
| FileNotFound (file_path : string)
| FileAlreadyProcessed (file_path : string)
| ProcessingFile (file_path : string)
| TranscriptionSaved (output_path : string)
| ErrorProcessing (file_path : string) (e : exn)
| DirectoryNotFound (dir_path : string)
| NoAudioFilesFound (dir_path : string)
| ProcessingAudiobookPart (part total : nat) (audio_file : string)
| AudiobookComplete (audiobook_output : string)
| MovedAudiobookDirectory (processed_path : string)
| ErrorProcessingAudiobook (e : exn)
| ProcessedBeforeError (completed total : nat)
| MovedProcessedFile (dest_path : string)
| DropboxNotFound (dropbox_dir : string)
| LoadingWhisperModel (model_name : string)
| NoItemsFound
| ProcessingDirectoryAsAudiobook (item : string)
| ProcessingIndividualFile (item : string)
| SkippingUnsupported (item : string)
| FailedToImportWhisper
| InstallWith
| Starting (model_name : string)
| ProcessingComplete.

Global Instance message_eq_dec : EqDecision message.
Proof. solve_decision. Defined.

Inductive event :=
| Log (lvl : level) (msg : message)
| Transcribe (audio_path : string)     (* [model.transcribe] is entered *)
| OpenW (path : string)                (* [open(path, 'w')] is entered *)
| Move (src dst : string).             (* [shutil.move] is entered *)

Global Instance event_eq_dec : EqDecision event.
Proof. solve_decision. Defined.

(** [processed_files] is the local list of [process_directory]; it lives in
    the store because the [except] clause reads it after the raise. *)
Record state := State {
  fs : gmap string node;
  clock : nat;
  trace : list event;
  processed_files : list string
}.

Definition set_fs (f : gmap string node → gmap string node) (st : state) : state :=
  State (f (fs st)) (clock st) (trace st) (processed_files st).
Definition set_clock (f : nat → nat) (st : state) : state :=
  State (fs st) (f (clock st)) (trace st) (processed_files st).
Definition emit (e : event) (st : state) : state :=
  State (fs st) (clock st) (trace st ++ [e])%list (processed_files st).
Definition set_processed_files (f : list string → list string) (st : state) : state :=
  State (fs st) (clock st) (trace st) (f (processed_files st)).

(** ** The monad: a state that survives a raise *)

Definition M (A : Type) : Type := state → (exn + A) * state.

Global Instance M_ret : MRet M := λ A x st, (inr x, st).
Global Instance M_bind : MBind M := λ A B k m st,
  match m st with
  | (inr x, st') => k x st'
  | (inl e, st') => (inl e, st')
  end.

Definition raise {A} (e : exn) : M A := λ st, (inl e, st).
Definition get_state : M state := λ st, (inr st, st).
Definition modify (f : state → state) : M unit := λ st, (inr tt, f st).

(** [try: body except <class> as e: handler e] *)
Definition try_except {A} (catches : exn → bool) (body : M A) (handler : exn → M A) : M A :=
  λ st, match body st with
        | (inl e, st') => if catches e then handler e st' else (inl e, st')
        | r => r
        end.

(** [for x in l: body x] *)
Fixpoint for_each {A} (l : list A) (body : A → M unit) : M unit :=
  match l with
  | [] => mret tt
  | x :: l => body x;; for_each l body
  end.

(** [for i, x in enumerate(l, start): body i x] *)
Fixpoint for_enumerate {A} (start : nat) (l : list A) (body : nat → A → M unit) : M unit :=
  match l with
  | [] => mret tt
  | x :: l => body start x;; for_enumerate (S start) l body
  end.

Definition logger (lvl : level) (msg : message) : M unit := modify (emit (Log lvl msg)).

(** ** The filesystem calls *)

Module Fs.

Definition exists_ (m : gmap string node) (p : string) : bool :=
  bool_decide (is_Some (m !! p)).

Definition isdir (m : gmap string node) (p : string) : bool :=
  bool_decide (m !! p = Some Dir).

(** The directory that would hold [p] is there.  A path with no directory
    part is relative to the working directory, which exists. *)
Definition parent_ok (m : gmap string node) (p : string) : bool :=
  let d := Path.dirname p in
  bool_decide (d = "") || isdir m d.

(** The entry name of key [k] directly inside [d], if it is one. *)
Definition child_name (d k : string) : option string :=
  match Str.strip_prefix (Path.join d "") k with
  | Some n => if bool_decide (n ≠ "") && negb (Str.contains Path.sep n) then Some n else None
  | None => None
  end.

Definition children (m : gmap string node) (d : string) : list string :=
  omap (child_name d) (map_to_list m).*1.

(** [k] lies below the directory [d]: it extends [d] and a separator. *)
Definition below (d k : string) : bool := Str.startswith k (Path.join d "").

(** [k] is [src] or lies below it. *)
Definition in_tree (src k : string) : bool :=
  bool_decide (k = src) || Str.startswith k (src +:+ "/").

Definition rekey (src dst k : string) : string := dst +:+ Str.drop (Str.len src) k.

(** The tree rooted at [src] re-rooted at [dst]. *)
Definition move_tree (src dst : string) (m : gmap string node) : gmap string node :=
  list_to_map (prod_map (rekey src dst) id <$>
               map_to_list (filter (λ kv, in_tree src kv.1 = true) m))
  ∪ filter (λ kv, in_tree src kv.1 = false) m.

End Fs.

(** [os.makedirs(name, exist_ok)] and the calls of [shutil.move], on the map.
    [shutil.move] is CPython's: it moves into [dst] when [dst] is a directory,
    tries [os.rename] (POSIX: a file silently replaces an existing file),
    and on [OSError] falls back to copy-then-delete, refusing to move a
    directory into itself ([_destinsrc(src, dst)]).  Symbolic links, devices
    and permissions are not part of the world, so a call fails only for the
    shape of the tree. *)
Module Os.

Definition is_OSError (e : exn) : bool :=
  match e with
  | FileNotFoundError _ | IsADirectoryError _ | NotADirectoryError _
  | FileExistsError _ | OSError _ | ShutilError _ => true
  | _ => false
  end.

Definition mkdir (name : string) (m : gmap string node) : exn + gmap string node :=
  if Fs.exists_ m name then inl (FileExistsError name)
  else if Fs.parent_ok m name then inr (<[name := Dir]> m)
  else inl (FileNotFoundError name).

Fixpoint makedirs_go (fuel : nat) (name : string) (exist_ok : bool)
    (m : gmap string node) : exn + gmap string node :=
  match fuel with
  | O => inl (OSError name)
  | S fuel =>
      let ht := Path.split name in
      let ht := if bool_decide (ht.2 = "") then Path.split ht.1 else ht in
      let recurse := bool_decide (ht.1 ≠ "") && bool_decide (ht.2 ≠ "")
                     && negb (Fs.exists_ m ht.1) in
      let parents :=
        if recurse then
          match makedirs_go fuel ht.1 exist_ok m with
          | inl (FileExistsError _) => inr m
          | r => r
          end
        else inr m in
      match parents with
      | inl e => inl e
      | inr m1 =>
          if recurse && bool_decide (ht.2 = ".") then inr m1
          else match mkdir name m1 with
               | inl e =>
                   if negb exist_ok || negb (Fs.isdir m1 name) then inl e else inr m1
               | inr m2 => inr m2
               end
      end
  end.

(** The recursion of [os.makedirs] is on the head of the path, which is
    shorter than the path: the length of the name is fuel enough.  On a map
    that is a tree (the parent of every entry is a directory of the map) a
    call that fails has made no directory, so the map it leaves is the one
    it found. *)
Definition makedirs (name : string) (exist_ok : bool) (m : gmap string node)
    : exn + gmap string node :=
  makedirs_go (S (Str.len name)) name exist_ok m.

(** [os.rename(src, dst)] *)
Definition rename (src dst : string) (m : gmap string node) : exn + gmap string node :=
  match m !! src with
  | None => inl (FileNotFoundError src)
  | Some n =>
      if negb (Fs.parent_ok m dst) then inl (FileNotFoundError dst)
      else if bool_decide (src = dst) then inr m
      else match n, m !! dst with
           | File _, Some Dir => inl (IsADirectoryError dst)
           | File c, _ => inr (<[dst := File c]> (delete src m))
           | Dir, Some (File _) => inl (NotADirectoryError dst)
           | Dir, Some Dir =>
               if bool_decide (Fs.children m dst = []) then inr (Fs.move_tree src dst m)
               else inl (OSError dst)
           | Dir, None =>
               if Fs.in_tree src dst then inl (OSError dst)
               else inr (Fs.move_tree src dst m)
           end
  end.

(** [shutil.copy2(src, dst)] for a regular file, with [dst] not a directory. *)
Definition copy2 (src dst : string) (m : gmap string node) : exn + gmap string node :=
  match m !! src with
  | None => inl (FileNotFoundError src)
  | Some Dir => inl (IsADirectoryError src)
  | Some (File c) =>
      if bool_decide (src = dst) then inl (ShutilError dst)
      else if Fs.isdir m dst then inl (IsADirectoryError dst)
      else if Fs.parent_ok m dst then inr (<[dst := File c]> m)
      else inl (FileNotFoundError dst)
  end.

(** [shutil.copytree(src, dst)] followed by [shutil.rmtree(src)]: the
    destination directory is made with its missing parents, the tree is
    copied below it and the source tree is removed. *)
Definition copytree_rmtree (src dst : string) (m : gmap string node)
    : exn + gmap string node :=
  match makedirs dst false m with
  | inl e => inl e
  | inr m1 => inr (Fs.move_tree src dst m1)
  end.

(** [shutil.move(src, dst)] *)
Definition move (src dst : string) (m : gmap string node) : exn + gmap string node :=
  let go (real_dst : string) :=
    match rename src real_dst m with
    | inr m' => inr m'
    | inl e =>
        if negb (is_OSError e) then inl e
        else if Fs.isdir m src then
          if Fs.in_tree src dst then inl (ShutilError dst)
          else copytree_rmtree src real_dst m
        else match copy2 src real_dst m with
             | inl e' => inl e'
             | inr m1 => inr (delete src m1)
             end
    end in
  if Fs.isdir m dst then
    if bool_decide (src = dst) then rename src dst m
    else
      let real_dst := Path.join dst (Path.basename (Str.rstrip_slash src)) in
      if Fs.exists_ m real_dst then inl (ShutilError real_dst) else go real_dst
  else go dst.

End Os.

(** Lifting a call on the map into the monad: the map changes only when the
    call returns. *)
Definition fs_call (f : gmap string node → exn + gmap string node) : M unit :=
  λ st, match f (fs st) with
        | inl e => (inl e, st)
        | inr m => (inr tt, set_fs (λ _, m) st)
        end.

Definition os_path_exists (p : string) : M bool := λ st, (inr (Fs.exists_ (fs st) p), st).
Definition os_path_isdir (p : string) : M bool := λ st, (inr (Fs.isdir (fs st) p), st).

Definition shutil_move (src dst : string) : M unit :=
  modify (emit (Move src dst));; fs_call (Os.move src dst).

(** [open(path, 'w')]: the file is created, or truncated, on entry. *)
Definition open_w (path : string) : M unit :=
  modify (emit (OpenW path));;
  fs_call (λ m,
    if Fs.isdir m path then inl (IsADirectoryError path)
    else if Fs.parent_ok m path then inr (<[path := File ""]> m)
    else inl (FileNotFoundError path)).

(** [f.write(text)] on the file opened at [path], for a [text] that
    encodes: its bytes are appended.  The transcript of the model is such a
    text (Whisper decodes its tokens with [errors='replace'], so the [str]
    holds no surrogate) and is carried as the bytes of its encoding.  A
    [str] built from a file name need not encode: see
    [write_chapter_header]. *)
Definition write (path text : string) : M unit :=
  modify (set_fs (λ m,
    match m !! path with
    | Some (File c) => <[path := File (c +:+ text)]> m
    | _ => m
    end)).

(** ** The script *)

Definition audio_extensions : list string := [".mp3"].

Definition is_audio_file (filename : string) : bool :=
  existsb (λ ext, Str.endswith (Str.lower filename) ext) audio_extensions.

Definition get_output_filename (input_path output_dir : string) : string :=
  let filename := Path.basename input_path in
  let base_name := (Path.splitext filename).1 in
  Path.join output_dir (base_name +:+ ".txt").

(** [sorted] on a list of [str]: ascending in the code-point order. *)
Definition sorted (l : list string) : list string := merge_sort Unicode.le l.

(** The line feed of the f-strings. *)
Definition nl : string := String (ascii_of_nat 10) EmptyString.

Record directories := Directories {
  dropbox : string;
  output : string;
  processed : string
}.

(** A loaded Whisper model: the transcript of the audio bytes, when it has
    one. *)
Definition whisper_model : Type := string → option string.

Section Script.

(** The order in which [os.listdir] hands out the entries of a directory:
    arbitrary, but each entry once. *)
Variable listing_order : list string → list string.

(** [strftime("%Y%m%d_%H%M%S")] of the clock. *)
Variable strftime : nat → string.

(** Seconds a transcription of the given audio takes. *)
Variable duration : string → nat.

(** [import whisper]: [None] when the import goes through, else what it
    raises. *)
Variable import_whisper : option exn.

(** [whisper.load_model(model_name)] *)
Variable load_model : string → exn + whisper_model.

Definition os_listdir (p : string) : M (list string) :=
  λ st, if Fs.isdir (fs st) p
        then (inr (listing_order (Fs.children (fs st) p)), st)
        else (inl (if Fs.exists_ (fs st) p then NotADirectoryError p
                   else FileNotFoundError p), st).

Definition now_strftime : M string := λ st, (inr (strftime (clock st)), st).

(** [model.transcribe(audio_path)["text"]] *)
Definition transcribe (model : whisper_model) (audio_path : string) : M string :=
  modify (emit (Transcribe audio_path));;
  st ← get_state;
  match fs st !! audio_path with
  | Some (File audio) =>
      modify (set_clock (λ t, t + duration audio));;
      match model audio with
      | Some text => mret text
      | None => raise (TranscriptionError audio_path)
      end
  | Some Dir => raise (IsADirectoryError audio_path)
  | None => raise (FileNotFoundError audio_path)
  end.

Definition setup_directories (base_dir : string) : M directories :=
  let d := Directories (Path.join base_dir "dropbox")
                       (Path.join base_dir "output")
                       (Path.join base_dir "processed") in
  for_each [("dropbox", dropbox d); ("output", output d); ("processed", processed d)]
    (λ '(name, path),
       fs_call (Os.makedirs path true);;
       logger INFO (DirectoryReady name path));;
  mret d.

Definition process_audio_file (file_path output_dir : string) (model : whisper_model)
    : M bool :=
  found ← os_path_exists file_path;
  if negb found then
    logger ERROR (FileNotFound file_path);; mret false
  else
    let output_path := get_output_filename file_path output_dir in
    already ← os_path_exists output_path;
    if (already : bool) then
      logger INFO (FileAlreadyProcessed file_path);; mret true
    else
      try_except is_Exception
        (logger INFO (ProcessingFile file_path);;
         text ← transcribe model file_path;
         open_w output_path;;
         write output_path text;;
         logger INFO (TranscriptionSaved output_path);;
         mret true)
        (λ e, logger ERROR (ErrorProcessing file_path e);; mret false).

(** [f"\n\n--- Chapter/Part: {file_name} ---\n\n"] *)
Definition chapter_header (file_name : string) : string :=
  nl +:+ nl +:+ "--- Chapter/Part: " +:+ file_name +:+ " ---" +:+ nl +:+ nl.

(** [output_file.write(f"\n\n--- Chapter/Part: {file_name} ---\n\n")]: the
    f-string holds the [str] of the file name, so the write raises
    [UnicodeEncodeError], with nothing written, when the name has a byte
    outside UTF-8. *)
Definition write_chapter_header (path file_name : string) : M unit :=
  if Unicode.encodes file_name then write path (chapter_header file_name)
  else raise (UnicodeEncodeError file_name).

(** The [for i, audio_file in enumerate(audio_files)] loop of
    [process_directory], inside the [with open(...) as output_file] block;
    [total] is [len(audio_files)] and [start] the index of the first part
    of [parts]. *)
Definition transcribe_parts (model : whisper_model) (audiobook_output : string)
    (total start : nat) (parts : list string) : M unit :=
  for_enumerate start parts (λ i audio_file,
    logger INFO (ProcessingAudiobookPart (i + 1) total audio_file);;
    text ← transcribe model audio_file;
    let file_name := Path.basename audio_file in
    write_chapter_header audiobook_output file_name;;
    write audiobook_output text;;
    modify (set_processed_files (λ l, (l ++ [audio_file])%list))).

Definition process_directory (dir_path output_dir processed_dir : string)
    (model : whisper_model) : M unit :=
  is_dir ← os_path_isdir dir_path;
  if negb is_dir then
    logger ERROR (DirectoryNotFound dir_path)
  else
    let dir_name := Path.basename dir_path in
    timestamp ← now_strftime;
    let audiobook_output :=
      Path.join output_dir (dir_name +:+ "_" +:+ timestamp +:+ ".txt") in
    names ← os_listdir dir_path;
    let audio_files : list string :=
      (λ f, Path.join dir_path f) <$> filter (λ f, is_audio_file f = true) (sorted names) in
    if bool_decide (audio_files = []%list) then
      logger WARNING (NoAudioFilesFound dir_path)
    else
      modify (set_processed_files (λ _, []));;
      try_except is_Exception
        (open_w audiobook_output;;
         transcribe_parts model audiobook_output (List.length audio_files) 0 audio_files;;
         logger INFO (AudiobookComplete audiobook_output);;
         let processed_path := Path.join processed_dir (Path.basename dir_path) in
         taken ← os_path_exists processed_path;
         let processed_path :=
           if (taken : bool) then processed_path +:+ "_" +:+ timestamp else processed_path in
         shutil_move dir_path processed_path;;
         logger INFO (MovedAudiobookDirectory processed_path))
        (λ e,
           logger ERROR (ErrorProcessingAudiobook e);;
           st ← get_state;
           logger INFO (ProcessedBeforeError (List.length (processed_files st))
                                             (List.length audio_files))).

Definition move_to_processed (file_path processed_dir : string) : M unit :=
  found ← os_path_exists file_path;
  if negb found then mret tt
  else
    let filename := Path.basename file_path in
    let dest_path := Path.join processed_dir filename in
    taken ← os_path_exists dest_path;
    dest_path ←
      (if (taken : bool) then
         timestamp ← now_strftime;
         let '(base_name, extension) := Path.splitext filename in
         mret (Path.join processed_dir (base_name +:+ "_" +:+ timestamp +:+ extension))
       else mret dest_path);
    shutil_move file_path dest_path;;
    logger INFO (MovedProcessedFile dest_path).

(** The body of the [for item in items] loop of [process_dropbox]. *)
Definition process_item (dropbox_dir output_dir processed_dir : string)
    (model : whisper_model) (item : string) : M unit :=
  let item_path := Path.join dropbox_dir item in
  is_dir ← os_path_isdir item_path;
  if (is_dir : bool) then
    logger INFO (ProcessingDirectoryAsAudiobook item);;
    process_directory item_path output_dir processed_dir model
  else if is_audio_file item then
    logger INFO (ProcessingIndividualFile item);;
    success ← process_audio_file item_path output_dir model;
    if (success : bool) then move_to_processed item_path processed_dir else mret tt
  else
    logger WARNING (SkippingUnsupported item).

Definition process_dropbox (dropbox_dir output_dir processed_dir model_name : string)
    : M unit :=
  found ← os_path_exists dropbox_dir;
  if negb found then
    logger ERROR (DropboxNotFound dropbox_dir)
  else
    try_except is_ImportError
      (match import_whisper return M unit with
       | Some e => raise e
       | None => mret tt
       end;;
       logger INFO (LoadingWhisperModel model_name);;
       model ← (match load_model model_name return M whisper_model with
                | inl e => raise e
                | inr model => mret model
                end);
       items ← os_listdir dropbox_dir;
       if bool_decide (items = []) then
         logger INFO NoItemsFound
       else
         for_each items (process_item dropbox_dir output_dir processed_dir model))
      (λ _,
         logger ERROR FailedToImportWhisper;;
         logger ERROR InstallWith;;
         raise (SystemExit 1)).

(** [main], after [argparse] has produced [--model] and [--base-dir]. *)
Definition main (model_name base_dir : string) : M unit :=
  dirs ← setup_directories base_dir;
  logger INFO (Starting model_name);;
  process_dropbox (dropbox dirs) (output dirs) (processed dirs) model_name;;
  logger INFO ProcessingComplete.

(** The status the interpreter exits with when [main] is the whole
    program: 0 when it returns, the code of a [SystemExit], 1 when any
    other exception reaches the top level. *)
Definition exit_status (r : exn + unit) : nat :=
  match r with
  | inr _ => 0
  | inl (SystemExit code) => code
  | inl _ => 1
  end.

(** *** What a run over the parts of a collection amounts to

    The pure reading of the loop of [process_directory], against which the
    loop is verified below: what one [model.transcribe] call yields on the
    map [m], what one round of the loop yields, the parts completed before
    the first round that raises, and the aggregate text they add up to. *)

Definition transcribe_result (m : gmap string node) (model : whisper_model)
    (audio_path : string) : exn + string :=
  match m !! audio_path with
  | Some (File audio) =>
      match model audio with
      | Some text => inr text
      | None => inl (TranscriptionError audio_path)
      end
  | Some Dir => inl (IsADirectoryError audio_path)
  | None => inl (FileNotFoundError audio_path)
  end.

Definition transcribe_seconds (m : gmap string node) (audio_path : string) : nat :=
  match m !! audio_path with
  | Some (File audio) => duration audio
  | _ => 0
  end.

(** What one round of the loop yields: the transcript, once the part is
    transcribed and its chapter header written. *)
Definition part_result (m : gmap string node) (model : whisper_model)
    (audio_path : string) : exn + string :=
  match transcribe_result m model audio_path with
  | inl e => inl e
  | inr text =>
      if Unicode.encodes (Path.basename audio_path) then inr text
      else inl (UnicodeEncodeError (Path.basename audio_path))
  end.

Fixpoint completed (m : gmap string node) (model : whisper_model)
    (parts : list string) : list string :=
  match parts with
  | [] => []
  | p :: parts =>
      match part_result m model p with
      | inr _ => p :: completed m model parts
      | inl _ => []
      end
  end.

Fixpoint first_failure (m : gmap string node) (model : whisper_model)
    (parts : list string) : option (string * exn) :=
  match parts with
  | [] => None
  | p :: parts =>
      match part_result m model p with
      | inr _ => first_failure m model parts
      | inl e => Some (p, e)
      end
  end.

(** The parts on which [model.transcribe] is entered. *)
Definition attempted (m : gmap string node) (model : whisper_model)
    (parts : list string) : list string :=
  completed m model parts ++
  match first_failure m model parts with
  | Some (p, _) => [p]
  | None => []
  end.

(** The seconds the clock advances over the calls on [parts]. *)
Definition seconds (m : gmap string node) (parts : list string) : nat :=
  foldr (λ p n, transcribe_seconds m p + n) 0 parts.

(** The paths [model.transcribe] was entered on, read off a trace. *)
Definition transcribed (events : list event) : list string :=
  omap (λ e, match e with Transcribe p => Some p | _ => None end) events.

(** The destinations [shutil.move] was entered with, read off a trace. *)
Definition moves (events : list event) : list (string * string) :=
  omap (λ e, match e with Move src dst => Some (src, dst) | _ => None end) events.

Definition part_text (m : gmap string node) (model : whisper_model)
    (audio_path : string) : string :=
  match transcribe_result m model audio_path with
  | inr text => text
  | inl _ => ""
  end.

(** The marker of a part followed by its transcript. *)
Definition part_section (m : gmap string node) (model : whisper_model)
    (audio_path : string) : string :=
  chapter_header (Path.basename audio_path) +:+ part_text m model audio_path.

Definition concat_sections (sections : list string) : string :=
  foldr String.append "" sections.

Definition aggregate (m : gmap string node) (model : whisper_model)
    (parts : list string) : string :=
  concat_sections (part_section m model <$> parts).

(** The trace of the loop over [parts], numbered from [start]. *)
Fixpoint loop_events (total start : nat) (parts : list string) : list event :=
  match parts with
  | [] => []
  | p :: parts =>
      Log INFO (ProcessingAudiobookPart (start + 1) total p) :: Transcribe p
      :: loop_events total (S start) parts
  end.

(** The audio parts of a collection in the order they are transcribed,
    read off the map (no listing involved). *)
Definition audio_names (m : gmap string node) (dir_path : string) : list string :=
  filter (λ f, is_audio_file f = true) (sorted (Fs.children m dir_path)).

Definition audio_parts (m : gmap string node) (dir_path : string) : list string :=
  (λ f, Path.join dir_path f) <$> audio_names m dir_path.

Definition audiobook_output (dir_path output_dir : string) (st : state) : string :=
  Path.join output_dir
    (Path.basename dir_path +:+ "_" +:+ strftime (clock st) +:+ ".txt").

(** [open(path, 'w')] goes through on the map [m]. *)
Definition can_open_w (m : gmap string node) (path : string) : bool :=
  negb (Fs.isdir m path) && Fs.parent_ok m path.

(** Where [move_to_processed] sends the file. *)
Definition file_archive_path (m : gmap string node) (file_path processed_dir timestamp : string)
    : string :=
  let filename := Path.basename file_path in
  let dest_path := Path.join processed_dir filename in
  if Fs.exists_ m dest_path then
    Path.join processed_dir
      ((Path.splitext filename).1 +:+ "_" +:+ timestamp +:+ (Path.splitext filename).2)
  else dest_path.

(** Where [process_directory] sends the directory. *)
Definition archive_path (m : gmap string node) (dir_path processed_dir timestamp : string)
    : string :=
  let processed_path := Path.join processed_dir (Path.basename dir_path) in
  if Fs.exists_ m processed_path then processed_path +:+ "_" +:+ timestamp
  else processed_path.

End Script.

(** ** Properties of computations *)

(** Whatever [m] raises is an [Exception], so an [except Exception] clause
    around it catches it. *)
Definition raises_only_Exceptions {A} (m : M A) : Prop :=
  ∀ st e st', m st = (inl e, st') → is_Exception e = true.

(** [m] returns, from every state. *)
Definition always_returns {A} (m : M A) : Prop :=
  ∀ st, ∃ x st', m st = (inr x, st').

(** [m] leaves the node [v] at [p] as it is, whether it returns or
    raises. *)
Definition preserves {A} (p : string) (v : node) (m : M A) : Prop :=
  ∀ st, fs st !! p = Some v → fs (m st).2 !! p = Some v.

(** ** A sample world

    The layout [setup_directories] makes under [/srv], a clock format and a
    model, used to run the script on concrete inputs. *)

Module Sample.

Definition two_digits (n : nat) : string :=
  String (ascii_of_nat (48 + n / 10)) (String (ascii_of_nat (48 + n mod 10)) "").

(** The clock counts the seconds of 1 January 2026. *)
Definition strftime (t : nat) : string :=
  "20260101_" +:+ two_digits (t / 3600 mod 24) +:+ two_digits (t / 60 mod 60)
              +:+ two_digits (t mod 60).

Definition duration (audio : string) : nat := Str.len audio.

(** A model that fails on audio starting with [noise]. *)
Definition model : whisper_model :=
  λ audio, if Str.startswith audio "noise" then None else Some ("<" +:+ audio +:+ ">").

Definition load_model (model_name : string) : exn + whisper_model := inr model.

(** A listing order that is not the sorted one. *)
Definition listing_order (l : list string) : list string := reverse (sorted l).

Definition world (files : list (string * node)) : state :=
  State (list_to_map ([("/", Dir); ("/srv", Dir); ("/srv/dropbox", Dir);
                       ("/srv/output", Dir); ("/srv/processed", Dir)] ++ files))
        0 [] [].

(** A three-part collection next to a cover image. *)
Definition book (a_audio b_audio : string) : state :=
  world [("/srv/dropbox/book", Dir);
         ("/srv/dropbox/book/c.mp3", File "gamma");
         ("/srv/dropbox/book/a.mp3", File a_audio);
         ("/srv/dropbox/book/b.mp3", File b_audio);
         ("/srv/dropbox/book/cover.jpg", File "jpeg")].

(** A directory with no audio in it. *)
Definition notes_only : state :=
  world [("/srv/dropbox/book", Dir);
         ("/srv/dropbox/book/notes.txt", File "n")].

(** A one-part collection whose name and timestamped name are both taken
    in the archive, the latter by a regular file. *)
Definition book_archive_taken : state :=
  world [("/srv/dropbox/book", Dir);
         ("/srv/dropbox/book/a.mp3", File "alpha");
         ("/srv/processed/book", Dir);
         ("/srv/processed/book_20260101_000000", File "stray")].

(** A single file left behind by an earlier run that wrote its transcript. *)
Definition talk_already_transcribed : state :=
  world [("/srv/dropbox/talk.mp3", File "talk");
         ("/srv/output/talk.txt", File "<talk>")].

Definition talk (audio : string) : state :=
  world [("/srv/dropbox/talk.mp3", File audio)].

(** [talk.mp3] is in the archive already, and so is a file under the name
    the collision rule picks at second 0. *)
Definition talk_twice_archived : state :=
  world [("/srv/dropbox/talk.mp3", File "third take");
         ("/srv/processed/talk.mp3", File "first take");
         ("/srv/processed/talk_20260101_000000.mp3", File "second take")].

(** [talk.mp3] is in the archive already, and the name the collision rule
    picks once [talk.mp3] is transcribed (4 seconds in) is a directory that
    holds a [talk.mp3]; [intro.mp3] is listed after it. *)
Definition talk_blocked : state :=
  world [("/srv/dropbox/talk.mp3", File "talk");
         ("/srv/dropbox/intro.mp3", File "intro");
         ("/srv/processed/talk.mp3", File "first take");
         ("/srv/processed/talk_20260101_000004.mp3", Dir);
         ("/srv/processed/talk_20260101_000004.mp3/talk.mp3", File "second take")].

End Sample.

(** ** More sample worlds *)

Module Scenes.

(** A base directory on which the script has not run yet. *)
Definition fresh_base : state :=
  State (list_to_map [("/", Dir); ("/srv", Dir)]) 0 [] [].

(** A base directory in which a regular file has the name of the drop
    location. *)
Definition dropbox_is_a_file : state :=
  State (list_to_map [("/", Dir); ("/srv", Dir); ("/srv/dropbox", File "stray")]) 0 [] [].

(** A drop location that holds no directory and no audio file. *)
Definition unsupported_only : state :=
  Sample.world [("/srv/dropbox/notes.txt", File "n");
                ("/srv/dropbox/cover.jpg", File "jpeg")].

(** [talk.mp3] is in the archive already; the name the collision rule picks
    at second 0 is free. *)
Definition talk_archived_once : state :=
  Sample.world [("/srv/dropbox/talk.mp3", File "second take");
                ("/srv/processed/talk.mp3", File "first take")].

(** [talk_blocked] next to a file of the base directory that is none of the
    script's business. *)
Definition talk_blocked_and_bystander : state :=
  Sample.world [("/srv/dropbox/talk.mp3", File "talk");
                ("/srv/dropbox/intro.mp3", File "intro");
                ("/srv/processed/talk.mp3", File "first take");
                ("/srv/processed/talk_20260101_000004.mp3", Dir);
                ("/srv/processed/talk_20260101_000004.mp3/talk.mp3", File "second take");
                ("/srv/README.md", File "read me")].

(** A one-part collection whose name is taken in the archive, and so is
    the name with the timestamp of second 0, by a directory. *)
Definition book_archived_twice : state :=
  Sample.world [("/srv/dropbox/book", Dir);
                ("/srv/dropbox/book/a.mp3", File "alpha");
                ("/srv/processed/book", Dir);
                ("/srv/processed/book_20260101_000000", Dir)].

(** [caf\xE9.mp3], the name a Latin-1 file system gives to a part: the byte
    E9 before [.] is no UTF-8 sequence, and [os.listdir] hands the name
    over with the lone surrogate U+DCE9 in its place. *)
Definition cafe_latin1 : string := "caf" +:+ String "233"%char ".mp3".

(** A one-part collection whose part has that name. *)
Definition book_latin1 : state :=
  Sample.world [("/srv/dropbox/book", Dir);
                ("/srv/dropbox/book/" +:+ cafe_latin1, File "alpha")].


(** A one-part collection next to a directory whose name extends its own,
    and an archive next to a directory whose name extends its own. *)
Definition book_and_lookalikes : state :=
  Sample.world [("/srv/dropbox/book", Dir);
                ("/srv/dropbox/book/a.mp3", File "alpha");
                ("/srv/dropbox/book2", Dir);
                ("/srv/dropbox/book2/a.mp3", File "other");
                ("/srv/processed_2025", Dir);
                ("/srv/processed_2025/book", File "earlier")].

(** A single file in the drop location, and next to each of the three
    directories an entry whose name extends its own. *)
Definition talk_and_lookalikes : state :=
  Sample.world [("/srv/dropbox/talk.mp3", File "talk");
                ("/srv/dropbox_old", Dir);
                ("/srv/dropbox_old/talk.mp3", File "old talk");
                ("/srv/output.bak", File "backup");
                ("/srv/processed_2025", Dir);
                ("/srv/processed_2025/talk.mp3", File "earlier")].

End Scenes.

(** * Verification *)

(** ** Running the monad *)

Lemma bind_run {A B} (m : M A) (k : A → M B) st :
  (m ≫= k) st = match m st with
                | (inr x, st') => k x st'
                | (inl e, st') => (inl e, st')
                end.
Proof. reflexivity. Qed.

Lemma logger_run lvl msg st : logger lvl msg st = (inr tt, emit (Log lvl msg) st).
Proof. reflexivity. Qed.

(** ** Facts about the code points of a name *)

Module UnicodeFacts.
Local Arguments String.append !_ _ / : simpl nomatch.

Lemma byte_bounded a : (Unicode.byte a < 256)%N.
Proof. apply N_ascii_bounded. Qed.

Lemma byte_inj a b : Unicode.byte a = Unicode.byte b → a = b.
Proof.
  unfold Unicode.byte. intros H.
  by rewrite <- (ascii_N_embedding a), <- (ascii_N_embedding b), H.
Qed.

Lemma continuation_range b :
  Unicode.continuation b = true → (0x80 ≤ Unicode.byte b ≤ 0xBF)%N.
Proof.
  unfold Unicode.continuation. intros [H1 H2]%andb_true_iff.
  apply N.leb_le in H1, H2. done.
Qed.

Lemma guard_true (n k : N) (test : bool) :
  negb (n =? k)%N || test = true → n = k → test = true.
Proof.
  intros [H|H]%orb_true_iff Heq; [|done].
  apply negb_true_iff, N.eqb_neq in H. done.
Qed.

(** What [head] accepts: the four shapes of a well-formed sequence, with
    the range of code points each covers. *)
Lemma head_spec s cp r :
  Unicode.head s = Some (cp, r) →
  (∃ a, s = String a r ∧ cp = Unicode.byte a ∧ (cp < 0x80)%N)
  ∨ (∃ a b, s = String a (String b r)
       ∧ cp = ((Unicode.byte a - 0xC0) * 0x40 + (Unicode.byte b - 0x80))%N
       ∧ (0xC2 ≤ Unicode.byte a < 0xE0)%N ∧ (0x80 ≤ Unicode.byte b ≤ 0xBF)%N)
  ∨ (∃ a b c, s = String a (String b (String c r))
       ∧ cp = (((Unicode.byte a - 0xE0) * 0x40 + (Unicode.byte b - 0x80)) * 0x40
               + (Unicode.byte c - 0x80))%N
       ∧ (0xE0 ≤ Unicode.byte a < 0xF0)%N
       ∧ (0x80 ≤ Unicode.byte b ≤ 0xBF)%N ∧ (0x80 ≤ Unicode.byte c ≤ 0xBF)%N
       ∧ (Unicode.byte a = 0xE0 → 0xA0 ≤ Unicode.byte b)%N
       ∧ (Unicode.byte a = 0xED → Unicode.byte b < 0xA0)%N)
  ∨ (∃ a b c d, s = String a (String b (String c (String d r)))
       ∧ cp = ((((Unicode.byte a - 0xF0) * 0x40 + (Unicode.byte b - 0x80)) * 0x40
                + (Unicode.byte c - 0x80)) * 0x40 + (Unicode.byte d - 0x80))%N
       ∧ (0xF0 ≤ Unicode.byte a < 0xF5)%N
       ∧ (0x80 ≤ Unicode.byte b ≤ 0xBF)%N ∧ (0x80 ≤ Unicode.byte c ≤ 0xBF)%N
       ∧ (0x80 ≤ Unicode.byte d ≤ 0xBF)%N
       ∧ (Unicode.byte a = 0xF0 → 0x90 ≤ Unicode.byte b)%N
       ∧ (Unicode.byte a = 0xF4 → Unicode.byte b < 0x90)%N).
Proof.
  destruct s as [|a s]; [done|]. unfold Unicode.head.
  set (n := Unicode.byte a).
  destruct (n <? 0x80)%N eqn:H1.
  { intros [= <- <-]. left. exists a. apply N.ltb_lt in H1. done. }
  destruct (n <? 0xC2)%N eqn:H2; [done|].
  apply N.ltb_ge in H1, H2.
  destruct (n <? 0xE0)%N eqn:H3.
  { apply N.ltb_lt in H3. destruct s as [|b s]; [done|].
    destruct (Unicode.continuation b) eqn:Hb; [|done].
    apply continuation_range in Hb. intros [= <- <-].
    right; left. exists a, b. done. }
  apply N.ltb_ge in H3.
  destruct (n <? 0xF0)%N eqn:H4.
  { apply N.ltb_lt in H4. destruct s as [|b [|c s]]; [done..|].
    destruct (_ && _ && _ && _) eqn:Hc; [|done].
    apply andb_true_iff in Hc as [[[Hb Hc]%andb_true_iff HE0]%andb_true_iff HED].
    apply continuation_range in Hb, Hc. intros [= <- <-].
    assert (n = 0xE0 → 0xA0 ≤ Unicode.byte b)%N
      by (intros Heq; by apply N.leb_le, (guard_true _ _ _ HE0)).
    assert (n = 0xED → Unicode.byte b < 0xA0)%N
      by (intros Heq; by apply N.ltb_lt, (guard_true _ _ _ HED)).
    right; right; left. exists a, b, c. done. }
  apply N.ltb_ge in H4.
  destruct (n <? 0xF5)%N eqn:H5; [|done].
  apply N.ltb_lt in H5. destruct s as [|b [|c [|d s]]]; [done..|].
  destruct (_ && _ && _ && _ && _) eqn:Hc; [|done].
  apply andb_true_iff in Hc
    as [[[[Hb Hc]%andb_true_iff Hd]%andb_true_iff HF0]%andb_true_iff HF4].
  apply continuation_range in Hb, Hc, Hd. intros [= <- <-].
  assert (n = 0xF0 → 0x90 ≤ Unicode.byte b)%N
    by (intros Heq; by apply N.leb_le, (guard_true _ _ _ HF0)).
  assert (n = 0xF4 → Unicode.byte b < 0x90)%N
    by (intros Heq; by apply N.ltb_lt, (guard_true _ _ _ HF4)).
  right; right; right. exists a, b, c, d. done.
Qed.

(** A well-formed sequence is never a surrogate. *)
Lemma head_not_surrogate s cp r :
  Unicode.head s = Some (cp, r) → Unicode.surrogate cp = false.
Proof.
  intros H. unfold Unicode.surrogate. apply andb_false_iff.
  rewrite N.leb_gt, N.leb_gt.
  apply head_spec in H
    as [(a & _ & -> & ?)|[(a & b & _ & -> & ? & ?)
       |[(a & b & c & _ & -> & ? & ? & ? & ? & ?)
        |(a & b & c & d & _ & -> & ? & ? & ? & ? & ? & ?)]]]; lia.
Qed.

Lemma head_inj s s' cp r r' :
  Unicode.head s = Some (cp, r) → Unicode.head s' = Some (cp, r') →
  ∃ t, s = t +:+ r ∧ s' = t +:+ r'.
Proof.
  intros H H'.
  apply head_spec in H
    as [(a & -> & Hcp & ?)|[(a & b & -> & Hcp & ? & ?)
       |[(a & b & c & -> & Hcp & ? & ? & ? & ? & ?)
        |(a & b & c & d & -> & Hcp & ? & ? & ? & ? & ? & ?)]]];
  apply head_spec in H'
    as [(a' & -> & Hcp' & ?)|[(a' & b' & -> & Hcp' & ? & ?)
       |[(a' & b' & c' & -> & Hcp' & ? & ? & ? & ? & ?)
        |(a' & b' & c' & d' & -> & Hcp' & ? & ? & ? & ? & ? & ?)]]];
  try (exfalso; lia).
  - exists (String a ""). assert (a = a') as -> by (apply byte_inj; lia). done.
  - exists (String a (String b "")).
    assert (a = a') as -> by (apply byte_inj; lia).
    assert (b = b') as -> by (apply byte_inj; lia). done.
  - exists (String a (String b (String c ""))).
    assert (a = a') as -> by (apply byte_inj; lia).
    assert (b = b') as -> by (apply byte_inj; lia).
    assert (c = c') as -> by (apply byte_inj; lia). done.
  - exists (String a (String b (String c (String d "")))).
    assert (a = a') as -> by (apply byte_inj; lia).
    assert (b = b') as -> by (apply byte_inj; lia).
    assert (c = c') as -> by (apply byte_inj; lia).
    assert (d = d') as -> by (apply byte_inj; lia). done.
Qed.

Lemma head_shorter s cp r :
  Unicode.head s = Some (cp, r) → (String.length r < String.length s)%nat.
Proof.
  intros H. apply head_spec in H
    as [(a & -> & _)|[(a & b & -> & _)|[(a & b & c & -> & _)|(a & b & c & d & -> & _)]]];
    simpl; lia.
Qed.

Lemma step_shorter s cp r :
  Unicode.step s = Some (cp, r) → (String.length r < String.length s)%nat.
Proof.
  destruct s as [|a s]; [done|]. unfold Unicode.step.
  destruct (Unicode.head (String a s)) as [[cp' r']|] eqn:H; intros [= <- <-].
  - by eapply head_shorter.
  - simpl. lia.
Qed.

Lemma step_inj s s' cp r r' :
  Unicode.step s = Some (cp, r) → Unicode.step s' = Some (cp, r') →
  ∃ t, s = t +:+ r ∧ s' = t +:+ r'.
Proof.
  destruct s as [|a s]; [done|]. destruct s' as [|a' s']; [done|].
  unfold Unicode.step.
  destruct (Unicode.head (String a s)) as [[c1 r1]|] eqn:H;
    destruct (Unicode.head (String a' s')) as [[c2 r2]|] eqn:H';
    intros [= <- <-] [= Hcp <-].
  - subst c2. by eapply head_inj.
  - apply head_not_surrogate in H. unfold Unicode.surrogate in H.
    apply andb_false_iff in H. rewrite !N.leb_gt in H.
    pose proof (byte_bounded a'). lia.
  - apply head_not_surrogate in H'. unfold Unicode.surrogate in H'.
    apply andb_false_iff in H'. rewrite !N.leb_gt in H'.
    pose proof (byte_bounded a). lia.
  - exists (String a ""). assert (a = a') as -> by (apply byte_inj; lia). done.
Qed.

Lemma code_points_go_fuel f1 : ∀ f2 s,
  (String.length s ≤ f1)%nat → (String.length s ≤ f2)%nat →
  Unicode.code_points_go f1 s = Unicode.code_points_go f2 s.
Proof.
  induction f1 as [|f1 IH]; intros f2 s H1 H2.
  - destruct s; [|simpl in H1; lia]. by destruct f2.
  - destruct f2 as [|f2]; [destruct s; [done|simpl in H2; lia]|].
    simpl. destruct (Unicode.step s) as [[cp r]|] eqn:Hs; [|done].
    apply step_shorter in Hs. f_equal. apply IH; lia.
Qed.

Lemma code_points_step s :
  Unicode.code_points s =
  match Unicode.step s with
  | None => []
  | Some (cp, r) => cp :: Unicode.code_points r
  end.
Proof.
  unfold Unicode.code_points at 1. destruct s as [|a s]; [done|].
  cbn [String.length Unicode.code_points_go].
  destruct (Unicode.step (String a s)) as [[cp r]|] eqn:Hs; [|done].
  apply step_shorter in Hs. f_equal. apply code_points_go_fuel; simpl in *; lia.
Qed.

(** [os.fsdecode] loses nothing: two names with the same code points are
    the same bytes. *)
Lemma code_points_inj s s' : Unicode.code_points s = Unicode.code_points s' → s = s'.
Proof.
  remember (String.length s) as n eqn:Hn. revert s s' Hn.
  induction n as [n IH] using lt_wf_ind. intros s s' Hn.
  rewrite (code_points_step s), (code_points_step s').
  destruct (Unicode.step s) as [[cp r]|] eqn:Hs;
    destruct (Unicode.step s') as [[cp' r']|] eqn:Hs'; try done.
  - intros [= <- Hr]. destruct (step_inj _ _ _ _ _ Hs Hs') as (t & -> & ->).
    apply step_shorter in Hs. f_equal. eapply IH; [|done..]. lia.
  - destruct s; [|done]. by destruct s'.
Qed.

Lemma lex_le_refl l : Unicode.lex_le l l = true.
Proof. induction l as [|x l IH]; [done|]. simpl. by rewrite N.eqb_refl, IH, orb_true_r. Qed.

Lemma lex_le_total l1 : ∀ l2, Unicode.lex_le l1 l2 = true ∨ Unicode.lex_le l2 l1 = true.
Proof.
  induction l1 as [|x l1 IH]; intros [|y l2]; simpl; auto.
  destruct (N.lt_trichotomy x y) as [H|[->|H]].
  - left. apply orb_true_iff. left. by apply N.ltb_lt.
  - rewrite N.eqb_refl. destruct (IH l2) as [->| ->]; rewrite ?orb_true_r; auto.
  - right. apply orb_true_iff. left. by apply N.ltb_lt.
Qed.

Lemma lex_le_cons x l1 y l2 :
  Unicode.lex_le (x :: l1) (y :: l2) = true ↔
  (x < y)%N ∨ (x = y ∧ Unicode.lex_le l1 l2 = true).
Proof.
  simpl. rewrite orb_true_iff, andb_true_iff, N.ltb_lt, N.eqb_eq. done.
Qed.

Lemma lex_le_trans l1 : ∀ l2 l3,
  Unicode.lex_le l1 l2 = true → Unicode.lex_le l2 l3 = true → Unicode.lex_le l1 l3 = true.
Proof.
  induction l1 as [|x l1 IH]; intros [|y l2] [|z l3]; try done.
  rewrite !lex_le_cons. intros [?|[-> ?]] [?|[-> ?]]; eauto with lia.
Qed.

Lemma lex_le_antisym l1 : ∀ l2,
  Unicode.lex_le l1 l2 = true → Unicode.lex_le l2 l1 = true → l1 = l2.
Proof.
  induction l1 as [|x l1 IH]; intros [|y l2]; try done.
  rewrite !lex_le_cons. intros [?|[-> ?]] [?|[? ?]]; try lia. f_equal. auto.
Qed.

Global Instance le_total : Total Unicode.le.
Proof. intros s1 s2. apply lex_le_total. Qed.

Global Instance le_trans : Transitive Unicode.le.
Proof. intros s1 s2 s3. apply lex_le_trans. Qed.

Global Instance le_antisym : AntiSymm (=) Unicode.le.
Proof. intros s1 s2 H1 H2. apply code_points_inj. by apply lex_le_antisym. Qed.

End UnicodeFacts.

(** ** Facts about strings and paths *)

Module StrFacts.

Local Arguments String.append !_ _ / : simpl nomatch.

Lemma sapp_nil_r (s : string) : s +:+ "" = s.
Proof. induction s as [|a s IH]; simpl; [done|]. by rewrite IH. Qed.

Lemma sapp_assoc (a b c : string) : (a +:+ b) +:+ c = a +:+ (b +:+ c).
Proof. induction a as [|x a IH]; simpl; [done|]. by rewrite IH. Qed.

Lemma strip_prefix_Some pre s r :
  Str.strip_prefix pre s = Some r ↔ s = pre +:+ r.
Proof.
  revert s. induction pre as [|a pre IH]; intros s; simpl.
  - split; [by intros [= ->]|by intros ->].
  - destruct s as [|b s]; [split; discriminate|].
    destruct (decide (a = b)) as [->|Hne].
    + rewrite IH. split; [by intros ->|by intros [= ->]].
    + split; [discriminate|]. intros [= ? ?]. congruence.
Qed.

Lemma startswith_true s pre :
  Str.startswith s pre = true ↔ ∃ r, s = pre +:+ r.
Proof.
  unfold Str.startswith. rewrite bool_decide_eq_true. unfold is_Some.
  by setoid_rewrite strip_prefix_Some.
Qed.

Lemma startswith_refl s : Str.startswith s s = true.
Proof. apply startswith_true. exists "". by rewrite sapp_nil_r. Qed.

Lemma startswith_app s r : Str.startswith (s +:+ r) s = true.
Proof. apply startswith_true. by exists r. Qed.

(** A path that does not start with [a] does not start with any extension
    of [a]. *)
Lemma startswith_false_app k a r :
  Str.startswith k a = false → Str.startswith k (a +:+ r) = false.
Proof.
  intros H. apply not_true_is_false. intros [q ->]%startswith_true.
  rewrite sapp_assoc, startswith_app in H. discriminate.
Qed.

Lemma startswith_false_ne k a : Str.startswith k a = false → k ≠ a.
Proof. intros H ->. by rewrite startswith_refl in H. Qed.

Lemma contains_startswith c s r :
  Str.contains c s = false → Str.startswith s (String c r) = false.
Proof.
  intros H. apply not_true_is_false. intros [q ->]%startswith_true.
  simpl in H. rewrite bool_decide_eq_true_2 in H; done.
Qed.

Lemma take_drop n s : Str.take n s +:+ Str.drop n s = s.
Proof.
  revert s. induction n as [|n IH]; intros [|a s]; simpl; try done.
  by rewrite IH.
Qed.

Lemma endswith_true s suf : Str.endswith s suf = true → ∃ pre, s = pre +:+ suf.
Proof.
  unfold Str.endswith. intros [_ H%bool_decide_eq_true]%andb_true_iff.
  exists (Str.take (Str.len s - Str.len suf) s).
  rewrite <- H at 2. by rewrite take_drop.
Qed.

Lemma drop_app_len a s : Str.drop (Str.len a) (a +:+ s) = s.
Proof. induction a as [|x a IH]; simpl; done. Qed.

Lemma rfind_None c s : Str.contains c s = false → Str.rfind c s = None.
Proof.
  induction s as [|a s IH]; simpl; [done|].
  intros [Ha Hs]%orb_false_iff. rewrite IH by done.
  apply bool_decide_eq_false in Ha. by rewrite decide_False.
Qed.

Lemma rfind_app c a s :
  Str.contains c s = false → Str.rfind c (a +:+ String c s) = Some (Str.len a).
Proof.
  intros Hs. induction a as [|x a IH]; simpl.
  - rewrite rfind_None by done. by rewrite decide_True.
  - by rewrite IH.
Qed.

Lemma rfind_Some_drop c s i :
  Str.rfind c s = Some i → Str.contains c (Str.drop (S i) s) = false.
Proof.
  revert i. induction s as [|a s IH]; intros i; simpl; [done|].
  destruct (Str.rfind c s) as [j|] eqn:Hj.
  - intros [= <-]. by apply IH.
  - destruct (decide (a = c)); [|done]. intros [= <-]. simpl.
    clear IH. induction s as [|b s IH]; simpl in *; [done|].
    destruct (Str.rfind c s); [done|].
    destruct (decide (b = c)); [done|].
    rewrite bool_decide_eq_false_2 by done. by apply IH.
Qed.

Lemma startswith_app_both r a b :
  Str.startswith (r +:+ a) (r +:+ b) = Str.startswith a b.
Proof.
  unfold Str.startswith. induction r as [|x r IH]; simpl; [done|].
  by rewrite decide_True.
Qed.

(** A name without separator, extended by a suffix, is still relative. *)
Lemma name_suffix_relative b x :
  Str.contains Path.sep b = false → Str.startswith (b +:+ "_" +:+ x) "/" = false.
Proof.
  destruct b as [|c b]; [done|]. simpl. intros [Hc _]%orb_false_iff.
  apply bool_decide_eq_false in Hc. unfold Str.startswith. simpl.
  rewrite decide_False; [done|]. intros <-. done.
Qed.

Lemma len_take_le n s :
  (Str.len (Str.take n s) ≤ n ∧ Str.len (Str.take n s) ≤ Str.len s)%nat.
Proof.
  revert s. induction n as [|n IH]; intros [|a s]; simpl; try lia.
  destruct (IH s). lia.
Qed.

Lemma len_drop n s : Str.len (Str.drop n s) = Str.len s - n.
Proof. revert s. induction n as [|n IH]; intros [|a s]; simpl; try lia. apply IH. Qed.

Lemma len_rstrip_slash_le s : (Str.len (Str.rstrip_slash s) ≤ Str.len s)%nat.
Proof.
  induction s as [|a s IH]; simpl; [lia|].
  destruct (Str.rstrip_slash s); simpl in *; [destruct (decide _); simpl; lia|lia].
Qed.

Lemma len_app a b : Str.len (a +:+ b) = (Str.len a + Str.len b)%nat.
Proof. induction a as [|x a IH]; simpl; [done|]. by rewrite IH. Qed.

Lemma len_lower s : Str.len (Str.lower s) = Str.len s.
Proof. induction s as [|a s IH]; simpl; [done|]. by rewrite IH. Qed.

Lemma lower_app a b : Str.lower (a +:+ b) = Str.lower a +:+ Str.lower b.
Proof. induction a as [|x a IH]; simpl; [done|]. by rewrite IH. Qed.

Lemma lower_drop n s : Str.lower (Str.drop n s) = Str.drop n (Str.lower s).
Proof. revert s. induction n as [|n IH]; intros [|a s]; simpl; try done. Qed.

Lemma endswith_app a suf : Str.endswith (a +:+ suf) suf = true.
Proof.
  unfold Str.endswith. rewrite len_app. apply andb_true_iff. split.
  - apply bool_decide_eq_true_2. lia.
  - apply bool_decide_eq_true_2.
    replace (Str.len a + Str.len suf - Str.len suf)%nat with (Str.len a) by lia.
    apply drop_app_len.
Qed.

Lemma take_app_len a s : Str.take (Str.len a) (a +:+ s) = a.
Proof. induction a as [|x a IH]; simpl; [by destruct s|]. by rewrite IH. Qed.

Lemma contains_app c a b :
  Str.contains c (a +:+ b) = Str.contains c a || Str.contains c b.
Proof. induction a as [|x a IH]; simpl; [done|]. by rewrite IH, orb_assoc. Qed.

Lemma contains_take c n s : Str.contains c s = false → Str.contains c (Str.take n s) = false.
Proof.
  revert s. induction n as [|n IH]; intros [|a s]; simpl; try done.
  intros [-> ?]%orb_false_iff. simpl. by apply IH.
Qed.

(** Two prefixes of one string: one is a prefix of the other. *)
Lemma prefixes_comparable a r b q :
  a +:+ r = b +:+ q → Str.startswith a b = true ∨ Str.startswith b a = true.
Proof.
  revert b. induction a as [|x a IH]; intros b; [by right|].
  destruct b as [|y b]; [by left|]. simpl. intros [= -> H].
  destruct (IH _ H) as [H1|H1]; [left|right];
    apply startswith_true in H1 as [t ->]; apply startswith_true; by exists t.
Qed.

End StrFacts.

Module PathFacts.
Import StrFacts.
Local Arguments String.append !_ _ / : simpl nomatch.

Lemma basename_no_sep p : Str.contains Path.sep (Path.basename p) = false.
Proof.
  unfold Path.basename. destruct (Str.rfind Path.sep p) as [i|] eqn:Hi.
  - by eapply rfind_Some_drop.
  - induction p as [|a p IH]; simpl in *; [done|].
    destruct (Str.rfind Path.sep p); [done|].
    destruct (decide (a = Path.sep)); [done|].
    rewrite bool_decide_eq_false_2 by done. by apply IH.
Qed.

(** Joining a relative component extends the directory string. *)
Lemma join_extends a b :
  Str.startswith b "/" = false → ∃ r, Path.join a b = a +:+ r.
Proof.
  intros Hb. unfold Path.join. rewrite Hb.
  destruct (_ || _); eauto.
Qed.

Lemma join_name_extends a n :
  Str.contains Path.sep n = false → ∃ r, Path.join a n = a +:+ r.
Proof. intros H. apply join_extends. apply (contains_startswith Path.sep), H. Qed.

Lemma basename_join d n :
  Str.contains Path.sep n = false → Path.basename (Path.join d n) = n.
Proof.
  intros Hn. unfold Path.join.
  assert (Hsw : Str.startswith n "/" = false)
    by apply (contains_startswith Path.sep), Hn.
  rewrite Hsw.
  assert (Hbase : ∀ a, Path.basename (a +:+ "/" +:+ n) = n).
  { intros a. unfold Path.basename. change ("/" +:+ n) with (String Path.sep n).
    rewrite rfind_app by done.
    change (S (Str.len a)) with (Str.len (String Path.sep "") + Str.len a)%nat.
    change (String Path.sep n) with ("/" +:+ n). rewrite <- sapp_assoc.
    replace (Str.len (String Path.sep "") + Str.len a)%nat with (Str.len (a +:+ "/")).
    - apply drop_app_len.
    - clear. induction a; simpl; [done|]. by f_equal. }
  destruct (bool_decide (d = "")) eqn:Hd; simpl.
  - apply bool_decide_eq_true in Hd as ->. simpl.
    unfold Path.basename. by rewrite rfind_None.
  - destruct (Str.endswith d "/") eqn:He; [|apply Hbase].
    apply endswith_true in He as [pre ->]. rewrite sapp_assoc. apply Hbase.
Qed.

(** Joining a relative component puts it after the directory prefix. *)
Lemma join_relative a b :
  Str.startswith b "/" = false → Path.join a b = Path.join a "" +:+ b.
Proof.
  intros Hb. unfold Path.join. rewrite Hb.
  change (Str.startswith "" "/") with false. cbv iota.
  destruct (_ || _); [by rewrite sapp_nil_r|]. by rewrite !sapp_assoc.
Qed.

Lemma split_head_le p : (Str.len (Path.split p).1 ≤ Str.len p)%nat.
Proof.
  unfold Path.split. cbn [fst].
  set (i := match Str.rfind Path.sep p with Some i => S i | None => 0 end).
  pose proof (len_take_le i p) as [_ ?].
  pose proof (len_rstrip_slash_le (Str.take i p)).
  destruct (Str.rstrip_slash (Str.take i p)); simpl in *; lia.
Qed.

(** The head of a path with a last component is shorter than the path. *)
Lemma split_head_shorter p :
  (Path.split p).2 ≠ "" → Str.len (Path.split p).1 < Str.len p.
Proof.
  unfold Path.split. cbn [fst snd].
  set (i := match Str.rfind Path.sep p with Some i => S i | None => 0 end).
  intros Htail.
  assert (i < Str.len p).
  { pose proof (len_drop i p). destruct (Str.drop i p); [done|]. simpl in *. lia. }
  pose proof (len_take_le i p) as [? _].
  pose proof (len_rstrip_slash_le (Str.take i p)).
  destruct (Str.rstrip_slash (Str.take i p)); simpl in *; lia.
Qed.

Lemma split_snd_basename p : (Path.split p).2 = Path.basename p.
Proof. unfold Path.split, Path.basename. by destruct (Str.rfind Path.sep p). Qed.

Lemma split_fst_dirname p : (Path.split p).1 = Path.dirname p.
Proof. reflexivity. Qed.

(** A name [stem.ext] splits at its last dot. *)
Lemma splitext_stem_ext stem ext :
  Str.contains Path.sep stem = false → Path.has_nondot stem = true →
  Str.contains "."%char ext = false → Str.contains Path.sep ext = false →
  Path.splitext (stem +:+ "." +:+ ext) = (stem, "." +:+ ext).
Proof.
  intros Hstem Hnondot Hext Hsep. unfold Path.splitext.
  change ("." +:+ ext) with (String "."%char ext).
  rewrite rfind_app by done.
  rewrite (rfind_None Path.sep).
  2:{ rewrite contains_app, Hstem. simpl. by rewrite Hsep. }
  rewrite Nat.sub_0_r. change (Str.drop 0 ?s) with s.
  rewrite take_app_len, Hnondot.
  rewrite bool_decide_eq_true_2 by lia. simpl.
  by rewrite drop_app_len.
Qed.

Lemma splitext_fst_no_sep p :
  Str.contains Path.sep p = false → Str.contains Path.sep (Path.splitext p).1 = false.
Proof.
  intros Hp. unfold Path.splitext. destruct (Str.rfind "."%char p); [|done].
  destruct (_ && _); [|done]. simpl. by apply contains_take.
Qed.

(** [join base ""] is empty or ends with the separator. *)
Lemma join_empty_cases a : Path.join a "" = "" ∨ ∃ b, Path.join a "" = b +:+ "/".
Proof.
  unfold Path.join. change (Str.startswith "" "/") with false. cbv iota.
  destruct (bool_decide (a = "")) eqn:Ha; simpl.
  - apply bool_decide_eq_true in Ha as ->. by left.
  - destruct (Str.endswith a "/") eqn:He.
    + apply endswith_true in He as [pre ->]. right. exists pre. by rewrite sapp_nil_r.
    + right. by exists a.
Qed.

(** The directory part of [join a n] is the same for every entry name [n]. *)
Lemma dirname_join_name a n :
  Str.contains Path.sep n = false →
  Path.dirname (Path.join a n) =
  match Str.rstrip_slash (Path.join a "") with
  | EmptyString => Path.join a ""
  | stripped => stripped
  end.
Proof.
  intros Hn. rewrite join_relative by by apply (contains_startswith Path.sep).
  destruct (join_empty_cases a) as [->|[b ->]].
  - simpl. unfold Path.dirname, Path.split. by rewrite rfind_None.
  - unfold Path.dirname, Path.split. rewrite sapp_assoc.
    change ("/" +:+ n) with (String Path.sep n). rewrite rfind_app by done.
    cbn [fst].
    replace (S (Str.len b)) with (Str.len (b +:+ "/")) by (rewrite len_app; simpl; lia).
    change (String Path.sep n) with ("/" +:+ n). rewrite <- sapp_assoc.
    by rewrite take_app_len.
Qed.

Lemma dirname_join_indep a n n' :
  Str.contains Path.sep n = false → Str.contains Path.sep n' = false →
  Path.dirname (Path.join a n) = Path.dirname (Path.join a n').
Proof. intros Hn Hn'. by rewrite !dirname_join_name. Qed.

End PathFacts.

(** ** Facts about the filesystem calls *)

Module FsFacts.
Import UnicodeFacts StrFacts PathFacts.

Lemma sorted_Sorted l : Sorted Unicode.le (sorted l).
Proof. apply (Sorted_merge_sort Unicode.le). Qed.

Lemma sorted_Permutation l : sorted l ≡ₚ l.
Proof. apply (merge_sort_Permutation Unicode.le). Qed.

(** Sorting forgets the order of its input. *)
Lemma sorted_perm_eq l1 l2 : l1 ≡ₚ l2 → sorted l1 = sorted l2.
Proof.
  intros H. apply (Sorted_unique Unicode.le); try apply sorted_Sorted.
  by rewrite !sorted_Permutation.
Qed.

Lemma elem_of_children m d n :
  n ∈ Fs.children m d →
  Str.contains Path.sep n = false ∧ n ≠ "" ∧ is_Some (m !! (Path.join d "" +:+ n)).
Proof.
  unfold Fs.children. intros (k & Hk & Hn)%list_elem_of_omap.
  unfold Fs.child_name in Hn.
  destruct (Str.strip_prefix (Path.join d "") k) as [r|] eqn:Hr; [|done].
  destruct (bool_decide (r ≠ "")) eqn:H1; [|done].
  destruct (Str.contains Path.sep r) eqn:H2; [done|]. simplify_eq/=.
  apply bool_decide_eq_true in H1. apply strip_prefix_Some in Hr as ->.
  split_and!; [done..|].
  apply list_elem_of_fmap in Hk as ([k v] & -> & Hkv). simpl.
  apply elem_of_map_to_list in Hkv. eauto.
Qed.

Lemma in_tree_startswith src k : Fs.in_tree src k = true → Str.startswith k src = true.
Proof.
  unfold Fs.in_tree. intros [->%bool_decide_eq_true|H]%orb_true_iff.
  - apply startswith_refl.
  - apply startswith_true in H as [r ->]. rewrite sapp_assoc. apply startswith_app.
Qed.

Lemma in_tree_refl src : Fs.in_tree src src = true.
Proof. unfold Fs.in_tree. by rewrite bool_decide_eq_true_2. Qed.

Lemma in_tree_app src r :
  Fs.in_tree src (src +:+ r) = true ↔ r = "" ∨ Str.startswith r "/" = true.
Proof.
  unfold Fs.in_tree. rewrite orb_true_iff, bool_decide_eq_true, startswith_app_both.
  split; (intros [H|H]; [left|by right]).
  - revert H. clear. induction src as [|x s IH]; simpl; [done|]. intros [= H]. auto.
  - subst. apply sapp_nil_r.
Qed.

Lemma in_tree_inv src k :
  Fs.in_tree src k = true → ∃ r, k = src +:+ r.
Proof. intros H%in_tree_startswith. by apply startswith_true. Qed.

Lemma rekey_app src dst r : Fs.rekey src dst (src +:+ r) = dst +:+ r.
Proof. unfold Fs.rekey. by rewrite drop_app_len. Qed.

Lemma sapp_inj a r q : a +:+ r = a +:+ q → r = q.
Proof. induction a as [|x a IH]; simpl; [done|]. intros [= H]. auto. Qed.

Lemma in_tree_false_ne src k : Fs.in_tree src k = false → k ≠ src.
Proof. intros H ->. by rewrite in_tree_refl in H. Qed.

Lemma startswith_false_in_tree src k :
  Str.startswith k src = false → Fs.in_tree src k = false.
Proof.
  intros H. apply not_true_is_false. intros Ht%in_tree_startswith. congruence.
Qed.

Lemma move_tree_moved_None src dst m k :
  Str.startswith k dst = false →
  (list_to_map (prod_map (Fs.rekey src dst) id <$>
     map_to_list (filter (λ kv, Fs.in_tree src kv.1 = true) m)) : gmap string node) !! k = None.
Proof.
  intros Hk. apply not_elem_of_list_to_map_1.
  intros (kv & -> & Hin)%list_elem_of_fmap.
  apply list_elem_of_fmap in Hin as ([k' v] & -> & _). simpl in Hk.
  unfold Fs.rekey in Hk. by rewrite startswith_app in Hk.
Qed.

(** A key outside the source tree and not under the destination keeps its
    node. *)
Lemma move_tree_lookup_other src dst m k :
  Str.startswith k src = false → Str.startswith k dst = false →
  Fs.move_tree src dst m !! k = m !! k.
Proof.
  intros Hsrc Hdst. unfold Fs.move_tree.
  rewrite lookup_union_r by by apply move_tree_moved_None.
  rewrite map_lookup_filter. destruct (m !! k) as [v|]; [|done]. simpl.
  rewrite option_guard_True; [done|]. simpl.
  destruct (Fs.in_tree src k) eqn:E; [|done].
  apply in_tree_startswith in E. congruence.
Qed.

(** The entries of the moved tree are at [dst] or below it. *)
Lemma move_tree_moved_in_tree src dst m k :
  Fs.in_tree dst k = false →
  (list_to_map (prod_map (Fs.rekey src dst) id <$>
     map_to_list (filter (λ kv, Fs.in_tree src kv.1 = true) m)) : gmap string node) !! k = None.
Proof.
  intros Hk. apply not_elem_of_list_to_map_1.
  intros (kv & -> & Hin)%list_elem_of_fmap.
  apply list_elem_of_fmap in Hin as ([k' v] & -> & Hkv). simpl in Hk.
  apply elem_of_map_to_list, map_lookup_filter_Some in Hkv as [_ Ht]. simpl in Ht.
  destruct (in_tree_inv _ _ Ht) as [r ->]. rewrite rekey_app in Hk.
  apply in_tree_app in Ht. apply (in_tree_app dst) in Ht. congruence.
Qed.

(** A key that is neither in the tree at [src] nor in the tree at [dst]
    keeps its node, whatever its name shares with theirs. *)
Lemma move_tree_lookup_apart src dst m k :
  Fs.in_tree src k = false → Fs.in_tree dst k = false →
  Fs.move_tree src dst m !! k = m !! k.
Proof.
  intros Hsrc Hdst. unfold Fs.move_tree.
  rewrite lookup_union_r by by apply move_tree_moved_in_tree.
  rewrite map_lookup_filter. destruct (m !! k) as [v|]; [|done]. simpl.
  by rewrite option_guard_True.
Qed.

(** The root of the moved tree is gone from where it was. *)
Lemma move_tree_src_gone src dst m :
  Str.startswith src dst = false → Fs.move_tree src dst m !! src = None.
Proof.
  intros Hdst. unfold Fs.move_tree. apply lookup_union_None. split.
  - by apply move_tree_moved_None.
  - apply map_lookup_filter_None. right. intros v _. simpl.
    by rewrite in_tree_refl.
Qed.

Lemma mkdir_mono name m m' k v :
  Os.mkdir name m = inr m' → m !! k = Some v → m' !! k = Some v.
Proof.
  unfold Os.mkdir. destruct (Fs.exists_ m name) eqn:E; [done|].
  destruct (Fs.parent_ok m name); [|done]. intros [= <-] Hk.
  rewrite lookup_insert_ne; [done|]. intros <-.
  unfold Fs.exists_ in E. apply bool_decide_eq_false in E. apply E. eauto.
Qed.

(** [os.makedirs] only adds directories. *)
Lemma makedirs_go_mono fuel : ∀ name exist_ok m m' k v,
  Os.makedirs_go fuel name exist_ok m = inr m' → m !! k = Some v → m' !! k = Some v.
Proof.
  induction fuel as [|fuel IH]; intros name exist_ok m m' k v; [done|].
  cbn [Os.makedirs_go].
  set (ht := if bool_decide _ then _ else _).
  set (recurse := _ && _ && _).
  intros H Hk.
  assert (Hparents : ∀ m1,
    (if recurse then
       match Os.makedirs_go fuel ht.1 exist_ok m with
       | inl (FileExistsError _) => inr m
       | r => r
       end
     else inr m) = inr m1 → m1 !! k = Some v).
  { intros m1. destruct recurse; [|by intros [= <-]].
    destruct (Os.makedirs_go fuel ht.1 exist_ok m) as [e|m2] eqn:E.
    - destruct e; try done. by intros [= <-].
    - intros [= <-]. eapply IH; eauto. }
  destruct (if recurse then _ else _) as [e|m1]; [done|].
  specialize (Hparents m1 eq_refl).
  destruct (recurse && _); [by simplify_eq|].
  destruct (Os.mkdir name m1) as [e|m2] eqn:E.
  - destruct (_ || _); by simplify_eq.
  - simplify_eq. eapply mkdir_mono; eauto.
Qed.

Lemma join_basename_startswith k dst src :
  Str.startswith k dst = false →
  Str.startswith k (Path.join dst (Path.basename src)) = false.
Proof.
  intros H. destruct (join_name_extends dst (Path.basename src)) as [r ->].
  - apply basename_no_sep.
  - by apply startswith_false_app.
Qed.

(** What [os.rename] leaves alone: a path that is neither the source nor
    the destination, nor below either. *)
Lemma rename_frame_tree src dst m m' k :
  Os.rename src dst m = inr m' →
  Fs.in_tree src k = false → Fs.in_tree dst k = false →
  m' !! k = m !! k.
Proof.
  unfold Os.rename. intros H Hsrc Hdst.
  pose proof (in_tree_false_ne _ _ Hsrc). pose proof (in_tree_false_ne _ _ Hdst).
  destruct (m !! src) as [n|]; [|done].
  destruct (negb _); [done|]. destruct (bool_decide (src = dst)); [by simplify_eq|].
  destruct n as [c|].
  - destruct (m !! dst) as [[|]|]; simplify_eq;
      by rewrite lookup_insert_ne, lookup_delete_ne.
  - destruct (m !! dst) as [[|]|]; simplify_eq.
    + destruct (bool_decide _); simplify_eq. by apply move_tree_lookup_apart.
    + destruct (Fs.in_tree src dst); simplify_eq. by apply move_tree_lookup_apart.
Qed.

Lemma rename_frame src dst m m' k :
  Os.rename src dst m = inr m' →
  Str.startswith k src = false → Str.startswith k dst = false →
  m' !! k = m !! k.
Proof. eauto using rename_frame_tree, startswith_false_in_tree. Qed.

Lemma rename_src_gone src dst m m' :
  Os.rename src dst m = inr m' → Str.startswith src dst = false → m' !! src = None.
Proof.
  unfold Os.rename. intros H Hdst.
  pose proof (startswith_false_ne _ _ Hdst) as Hne.
  destruct (m !! src) as [n|]; [|done].
  destruct (negb _); [done|]. rewrite bool_decide_eq_false_2 in H by done.
  destruct n as [c|].
  - destruct (m !! dst) as [[|]|]; simplify_eq;
      by rewrite lookup_insert_ne, lookup_delete_eq.
  - destruct (m !! dst) as [[|]|]; simplify_eq.
    + destruct (bool_decide _); simplify_eq. by apply move_tree_src_gone.
    + destruct (Fs.in_tree src dst); simplify_eq. by apply move_tree_src_gone.
Qed.

(** What [shutil.move] leaves alone: a path that exists, is neither the
    source nor below it, and does not extend the destination. *)
Lemma move_frame_tree src dst m m' k v :
  Os.move src dst m = inr m' →
  Fs.in_tree src k = false → Str.startswith k dst = false →
  m !! k = Some v → m' !! k = Some v.
Proof.
  intros H Hsrc Hdst Hk. unfold Os.move in H. cbv zeta in H.
  assert (Hgo : ∀ real_dst, Str.startswith k real_dst = false →
    match Os.rename src real_dst m with
    | inr m' => inr m'
    | inl e =>
        if negb (Os.is_OSError e) then inl e
        else if Fs.isdir m src then
          if Fs.in_tree src dst then inl (ShutilError dst)
          else Os.copytree_rmtree src real_dst m
        else match Os.copy2 src real_dst m with
             | inl e' => inl e'
             | inr m1 => inr (delete src m1)
             end
    end = inr m' → m' !! k = Some v).
  { intros real_dst Hreal Hres.
    pose proof (in_tree_false_ne _ _ Hsrc). pose proof (startswith_false_ne _ _ Hreal).
    pose proof (startswith_false_in_tree _ _ Hreal).
    destruct (Os.rename src real_dst m) as [e|m1] eqn:E.
    - destruct (negb (Os.is_OSError e)); [done|].
      destruct (Fs.isdir m src).
      + destruct (Fs.in_tree src dst); [done|].
        unfold Os.copytree_rmtree, Os.makedirs in Hres.
        destruct (Os.makedirs_go _ _ _ _) as [|m2] eqn:E2; simplify_eq.
        rewrite move_tree_lookup_apart by done. eapply makedirs_go_mono; eauto.
      + unfold Os.copy2 in Hres. destruct (m !! src) as [[c|]|]; try done.
        destruct (bool_decide (src = real_dst)); [done|].
        destruct (Fs.isdir m real_dst); [done|].
        destruct (Fs.parent_ok m real_dst); simplify_eq.
        by rewrite lookup_delete_ne, lookup_insert_ne.
    - simplify_eq. erewrite rename_frame_tree; eauto. }
  destruct (Fs.isdir m dst).
  - destruct (bool_decide (src = dst)).
    + erewrite rename_frame_tree; eauto using startswith_false_in_tree.
    + destruct (Fs.exists_ _ _); [done|].
      eapply Hgo; [|done]. by apply join_basename_startswith.
  - eapply Hgo; eauto.
Qed.

Lemma move_frame src dst m m' k v :
  Os.move src dst m = inr m' →
  Str.startswith k src = false → Str.startswith k dst = false →
  m !! k = Some v → m' !! k = Some v.
Proof. eauto using move_frame_tree, startswith_false_in_tree. Qed.

(** A path that is not below [d] extends no [join d b], and is in the
    tree of none. *)
Lemma below_false_join d b k :
  Fs.below d k = false → Str.startswith b "/" = false →
  Str.startswith k (Path.join d b) = false.
Proof.
  intros Hk Hb. rewrite join_relative by done. by apply startswith_false_app.
Qed.

Lemma below_false_in_tree d b k :
  Fs.below d k = false → Str.startswith b "/" = false →
  Fs.in_tree (Path.join d b) k = false.
Proof. intros Hk Hb. by apply startswith_false_in_tree, below_false_join. Qed.

(** After a [shutil.move] that returns, the source path is free, as long
    as the source does not lie under the destination. *)
Lemma move_src_gone src dst m m' :
  Os.move src dst m = inr m' → Str.startswith src dst = false → m' !! src = None.
Proof.
  intros H Hdst. unfold Os.move in H. cbv zeta in H.
  assert (Hgo : ∀ real_dst, Str.startswith src real_dst = false →
    match Os.rename src real_dst m with
    | inr m' => inr m'
    | inl e =>
        if negb (Os.is_OSError e) then inl e
        else if Fs.isdir m src then
          if Fs.in_tree src dst then inl (ShutilError dst)
          else Os.copytree_rmtree src real_dst m
        else match Os.copy2 src real_dst m with
             | inl e' => inl e'
             | inr m1 => inr (delete src m1)
             end
    end = inr m' → m' !! src = None).
  { intros real_dst Hreal Hres.
    destruct (Os.rename src real_dst m) as [e|m1] eqn:E.
    - destruct (negb (Os.is_OSError e)); [done|].
      destruct (Fs.isdir m src).
      + destruct (Fs.in_tree src dst); [done|].
        unfold Os.copytree_rmtree in Hres.
        destruct (Os.makedirs _ _ _) as [|m2]; simplify_eq.
        by apply move_tree_src_gone.
      + destruct (Os.copy2 src real_dst m); simplify_eq. apply lookup_delete_eq.
    - simplify_eq. eapply rename_src_gone; eauto. }
  destruct (Fs.isdir m dst).
  - destruct (bool_decide (src = dst)).
    + eapply rename_src_gone; eauto.
    + destruct (Fs.exists_ _ _); [done|].
      eapply Hgo; [|done]. by apply join_basename_startswith.
  - eapply Hgo; eauto.
Qed.

(** [os.makedirs] does not run out of fuel: with more fuel than the name is
    long, the error of an exhausted recursion is never the result. *)
Lemma makedirs_go_fuel fuel : ∀ name exist_ok m path,
  Str.len name < fuel → Os.makedirs_go fuel name exist_ok m ≠ inl (OSError path).
Proof.
  induction fuel as [|fuel IH]; intros name exist_ok m path Hlen; [lia|].
  cbn [Os.makedirs_go].
  set (ht := if bool_decide _ then _ else _).
  set (recurse := _ && _ && _).
  assert (Hht : recurse = true → Str.len ht.1 < fuel).
  { subst recurse ht. intros [[_ Htail%bool_decide_eq_true]%andb_true_iff _]%andb_true_iff.
    destruct (bool_decide ((Path.split name).2 = "")).
    - pose proof (split_head_shorter _ Htail). pose proof (split_head_le name). lia.
    - pose proof (split_head_shorter _ Htail). lia. }
  assert (Hmkdir : ∀ m1,
    (if false && bool_decide (ht.2 = ".") then inr m1
     else match Os.mkdir name m1 with
          | inl e => if negb exist_ok || negb (Fs.isdir m1 name) then inl e else inr m1
          | inr m2 => inr m2
          end) ≠ inl (OSError path)).
  { intros m1. cbn [andb]. unfold Os.mkdir. repeat case_match; simplify_eq; done. }
  destruct recurse; [|apply Hmkdir].
  specialize (Hht eq_refl).
  destruct (Os.makedirs_go fuel ht.1 exist_ok m) as [e|m1] eqn:E.
  - destruct e; try (intros H; discriminate H).
    + cbn [andb]. destruct (bool_decide (ht.2 = ".")); [done|apply Hmkdir].
    + intros [= ->]. by eapply IH.
  - cbn [andb]. destruct (bool_decide (ht.2 = ".")); [done|apply Hmkdir].
Qed.

Lemma makedirs_fuel name exist_ok m path :
  Os.makedirs name exist_ok m ≠ inl (OSError path).
Proof. apply makedirs_go_fuel. lia. Qed.

Lemma isdir_insert_file m p c d :
  Fs.isdir m p = false → Fs.isdir (<[p := File c]> m) d = Fs.isdir m d.
Proof.
  intros Hp. unfold Fs.isdir in *. destruct (decide (d = p)) as [->|Hne].
  - rewrite Hp. apply bool_decide_eq_false_2. by rewrite lookup_insert_eq.
  - by rewrite lookup_insert_ne.
Qed.

(** Writing a regular file where no directory is leaves every parent as it
    was. *)
Lemma parent_ok_insert_file m p c q :
  Fs.isdir m p = false → Fs.parent_ok (<[p := File c]> m) q = Fs.parent_ok m q.
Proof. intros Hp. unfold Fs.parent_ok. by rewrite isdir_insert_file. Qed.

Lemma exists_isdir_false m p : Fs.exists_ m p = false → Fs.isdir m p = false.
Proof.
  unfold Fs.exists_, Fs.isdir. intros H%bool_decide_eq_false.
  apply bool_decide_eq_false_2. intros Hp. apply H. eauto.
Qed.

Lemma exists_false_None m p : Fs.exists_ m p = false ↔ m !! p = None.
Proof.
  unfold Fs.exists_. rewrite bool_decide_eq_false. symmetry. apply eq_None_not_Some.
Qed.

Lemma exists_true_Some m p v : m !! p = Some v → Fs.exists_ m p = true.
Proof. intros H. unfold Fs.exists_. apply bool_decide_eq_true_2. eauto. Qed.

(** [shutil.move] of a regular file to a free name in a directory that is
    there is the rename. *)
Lemma move_file_to_free src dst m c :
  m !! src = Some (File c) → m !! dst = None → Fs.parent_ok m dst = true →
  Os.move src dst m = inr (<[dst := File c]> (delete src m)).
Proof.
  intros Hsrc Hdst Hparent. unfold Os.move.
  assert (Fs.isdir m dst = false) as ->.
  { unfold Fs.isdir. apply bool_decide_eq_false_2. by rewrite Hdst. }
  unfold Os.rename. rewrite Hsrc, Hparent. cbn [negb].
  rewrite bool_decide_eq_false_2 by congruence. by rewrite Hdst.
Qed.

(** [shutil.move] of a directory to a free name in a directory that is
    there is the rename of the tree. *)
Lemma move_dir_to_free src dst m :
  m !! src = Some Dir → m !! dst = None → Fs.parent_ok m dst = true →
  Fs.in_tree src dst = false →
  Os.move src dst m = inr (Fs.move_tree src dst m).
Proof.
  intros Hsrc Hdst Hparent Htree. unfold Os.move.
  assert (Fs.isdir m dst = false) as ->.
  { unfold Fs.isdir. apply bool_decide_eq_false_2. by rewrite Hdst. }
  unfold Os.rename. rewrite Hsrc, Hparent. cbn [negb].
  rewrite bool_decide_eq_false_2 by congruence. by rewrite Hdst, Htree.
Qed.

(** Every entry of the tree at [src] is found below [dst], under the name
    it had below [src]. *)
Lemma move_tree_lookup_moved src dst m r v :
  Fs.in_tree src (src +:+ r) = true → m !! (src +:+ r) = Some v →
  Fs.move_tree src dst m !! (dst +:+ r) = Some v.
Proof.
  intros Htree Hk. unfold Fs.move_tree. apply lookup_union_Some_l.
  apply elem_of_list_to_map_1.
  - rewrite <- list_fmap_compose.
    apply (NoDup_fmap_2_strong _).
    + intros [k1 v1] [k2 v2] H1 H2. simpl.
      apply elem_of_map_to_list, map_lookup_filter_Some in H1 as [H1 T1].
      apply elem_of_map_to_list, map_lookup_filter_Some in H2 as [H2 T2].
      simpl in T1, T2.
      apply in_tree_inv in T1 as [r1 ->]. apply in_tree_inv in T2 as [r2 ->].
      rewrite !rekey_app. intros ->%sapp_inj. congruence.
    + apply NoDup_map_to_list.
  - apply list_elem_of_fmap. exists (src +:+ r, v). split.
    + simpl. by rewrite rekey_app.
    + apply elem_of_map_to_list, map_lookup_filter_Some. done.
Qed.

(** No entry of the tree at [src] is left where it was. *)
Lemma move_tree_tree_gone src dst m k :
  Fs.in_tree src k = true → Str.startswith k dst = false →
  Fs.move_tree src dst m !! k = None.
Proof.
  intros Htree Hdst. unfold Fs.move_tree. apply lookup_union_None. split.
  - by apply move_tree_moved_None.
  - apply map_lookup_filter_None. right. intros v _. simpl. by rewrite Htree.
Qed.

Lemma exists_insert_ne m p v q :
  p ≠ q → Fs.exists_ (<[p := v]> m) q = Fs.exists_ m q.
Proof. intros H. unfold Fs.exists_. by rewrite lookup_insert_ne. Qed.

(** A key outside the tree at [src] and not under the destination keeps
    its node. *)
Lemma move_tree_lookup_outside src dst m k :
  Fs.in_tree src k = false → Str.startswith k dst = false →
  Fs.move_tree src dst m !! k = m !! k.
Proof.
  intros Hsrc Hdst. unfold Fs.move_tree.
  rewrite lookup_union_r by by apply move_tree_moved_None.
  rewrite map_lookup_filter. destruct (m !! k) as [v|]; [|done]. simpl.
  by rewrite option_guard_True.
Qed.

(** Two locations neither of which lies under the other: no path extends
    both. *)
Lemma apart_no_common_extension a b r q :
  Str.startswith a b = false → Str.startswith b a = false → a +:+ r ≠ b +:+ q.
Proof. intros Hab Hba H. destruct (prefixes_comparable _ _ _ _ H); congruence. Qed.

Lemma apart_startswith a b r q :
  Str.startswith a b = false → Str.startswith b a = false →
  Str.startswith (a +:+ r) (b +:+ q) = false.
Proof.
  intros Hab Hba. apply not_true_is_false. intros [t Ht]%startswith_true.
  rewrite sapp_assoc in Ht. by eapply apart_no_common_extension.
Qed.

Lemma isdir_insert_dir m k d :
  Fs.isdir m d = true → Fs.isdir (<[k := Dir]> m) d = true.
Proof.
  unfold Fs.isdir. intros H%bool_decide_eq_true. apply bool_decide_eq_true_2.
  destruct (decide (d = k)) as [->|Hne]; [apply lookup_insert_eq|].
  by rewrite lookup_insert_ne.
Qed.

Lemma parent_ok_insert_dir m k q :
  Fs.parent_ok m q = true → Fs.parent_ok (<[k := Dir]> m) q = true.
Proof.
  unfold Fs.parent_ok. intros [H|H]%orb_true_iff; apply orb_true_iff; [by left|right].
  by apply isdir_insert_dir.
Qed.

(** [os.makedirs(name, exist_ok=True)] where the parent of [name] is there:
    no recursion, and the outcome is decided by what is at [name]. *)
Lemma makedirs_under_parent name m :
  Fs.parent_ok m name = true → Path.basename name ≠ "" →
  Os.makedirs name true m =
  match m !! name with
  | None => inr (<[name := Dir]> m)
  | Some Dir => inr m
  | Some (File _) => inl (FileExistsError name)
  end.
Proof.
  intros Hparent Hbase. unfold Os.makedirs. cbn [Os.makedirs_go].
  rewrite split_snd_basename.
  rewrite (bool_decide_eq_false_2 (Path.basename name = "")) by done.
  rewrite split_snd_basename, split_fst_dirname.
  assert (bool_decide (Path.dirname name ≠ "") && bool_decide (Path.basename name ≠ "")
          && negb (Fs.exists_ m (Path.dirname name)) = false) as ->.
  { unfold Fs.parent_ok in Hparent. apply orb_true_iff in Hparent as [H|H].
    - apply bool_decide_eq_true in H. rewrite H. done.
    - unfold Fs.isdir in H. apply bool_decide_eq_true in H.
      rewrite (exists_true_Some _ _ _ H). by rewrite andb_false_r. }
  cbn [andb]. unfold Os.mkdir, Fs.exists_, Fs.isdir. rewrite Hparent.
  destruct (m !! name) as [[c|]|] eqn:Hname.
  - rewrite bool_decide_eq_true_2 by eauto. by rewrite bool_decide_eq_false_2.
  - rewrite bool_decide_eq_true_2 by eauto. by rewrite bool_decide_eq_true_2.
  - rewrite bool_decide_eq_false_2; [done|]. by intros [? ?].
Qed.

Lemma makedirs_ready name m :
  Fs.parent_ok m name = true → Path.basename name ≠ "" →
  m !! name = None ∨ m !! name = Some Dir →
  Os.makedirs name true m = inr (<[name := Dir]> m).
Proof.
  intros Hparent Hbase Hname. rewrite makedirs_under_parent by done.
  destruct Hname as [->| H]; [done|]. rewrite H. by rewrite insert_id.
Qed.

(** When [os.makedirs(name, exist_ok=True)] returns, [name] is a
    directory. *)
Lemma makedirs_isdir name m m' :
  Path.basename name ≠ "" → Path.basename name ≠ "." →
  Os.makedirs name true m = inr m' → Fs.isdir m' name = true.
Proof.
  intros Hbase Hdot. unfold Os.makedirs. cbn [Os.makedirs_go].
  rewrite split_snd_basename.
  rewrite (bool_decide_eq_false_2 (Path.basename name = "")) by done.
  rewrite split_snd_basename.
  rewrite (bool_decide_eq_false_2 (Path.basename name = ".")) by done.
  rewrite andb_false_r.
  destruct (if _ && _ && _ then _ else _) as [e|m1]; [done|].
  unfold Os.mkdir. destruct (Fs.exists_ m1 name) eqn:Hex.
  - cbn [negb orb]. destruct (Fs.isdir m1 name) eqn:E; cbn [negb]; [|done].
    by intros [= <-].
  - rewrite (exists_isdir_false _ _ Hex).
    destruct (Fs.parent_ok m1 name); [|done]. intros [= <-].
    unfold Fs.isdir. apply bool_decide_eq_true_2, lookup_insert_eq.
Qed.

Lemma makedirs_mono name exist_ok m m' k v :
  Os.makedirs name exist_ok m = inr m' → m !! k = Some v → m' !! k = Some v.
Proof. apply makedirs_go_mono. Qed.

(** [shutil.move] of a directory onto a directory that is there moves it
    inside, under its own name, when that name is free there. *)
Lemma move_dir_into_dir src dst m :
  let real_dst := Path.join dst (Path.basename (Str.rstrip_slash src)) in
  m !! src = Some Dir → Fs.isdir m dst = true → src ≠ dst →
  m !! real_dst = None → Fs.parent_ok m real_dst = true →
  Fs.in_tree src real_dst = false →
  Os.move src dst m = inr (Fs.move_tree src real_dst m).
Proof.
  intros real_dst Hsrc Hdst Hne Hfree Hparent Htree. unfold Os.move.
  rewrite Hdst, bool_decide_eq_false_2 by done. fold real_dst.
  rewrite (proj2 (exists_false_None _ _) Hfree).
  unfold Os.rename. rewrite Hsrc, Hparent. cbn [negb].
  rewrite bool_decide_eq_false_2 by congruence. by rewrite Hfree, Htree.
Qed.

End FsFacts.

(** ** The script, verified *)

Import UnicodeFacts StrFacts PathFacts FsFacts.

Section Verification.
Variable listing_order : list string → list string.
Hypothesis listing_order_perm : ∀ l, listing_order l ≡ₚ l.
Variable strftime : nat → string.
Variable duration : string → nat.

Lemma transcribe_run model p st :
  transcribe duration model p st =
  (transcribe_result (fs st) model p,
   set_clock (λ t, t + transcribe_seconds duration (fs st) p) (emit (Transcribe p) st)).
Proof.
  unfold transcribe, transcribe_result, transcribe_seconds.
  rewrite bind_run. cbn [modify]. rewrite bind_run. cbn [get_state emit fs].
  destruct (fs st !! p) as [[audio|]|]; cbn.
  - destruct (model audio); reflexivity.
  - destruct st; unfold set_clock; cbn. by rewrite Nat.add_0_r.
  - destruct st; unfold set_clock; cbn. by rewrite Nat.add_0_r.
Qed.

Lemma write_run path text st c :
  fs st !! path = Some (File c) →
  write path text st = (inr tt, set_fs (λ m, <[path := File (c +:+ text)]> m) st).
Proof. intros H. unfold write, modify, set_fs. by rewrite H. Qed.

Lemma write_chapter_header_ok path file_name st c :
  Unicode.encodes file_name = true →
  fs st !! path = Some (File c) →
  write_chapter_header path file_name st
  = (inr tt, set_fs (λ m, <[path := File (c +:+ chapter_header file_name)]> m) st).
Proof. intros Henc H. unfold write_chapter_header. rewrite Henc. by apply write_run. Qed.

Lemma write_chapter_header_fail path file_name st :
  Unicode.encodes file_name = false →
  write_chapter_header path file_name st = (inl (UnicodeEncodeError file_name), st).
Proof. intros Henc. unfold write_chapter_header. by rewrite Henc. Qed.

Lemma transcribe_result_insert m model out v p :
  p ≠ out → transcribe_result (<[out := v]> m) model p = transcribe_result m model p.
Proof. intros H. unfold transcribe_result. by rewrite lookup_insert_ne. Qed.

Lemma transcribe_seconds_insert m out v p :
  p ≠ out →
  transcribe_seconds duration (<[out := v]> m) p = transcribe_seconds duration m p.
Proof. intros H. unfold transcribe_seconds. by rewrite lookup_insert_ne. Qed.

Lemma part_result_insert m model out v p :
  p ≠ out → part_result (<[out := v]> m) model p = part_result m model p.
Proof. intros H. unfold part_result. by rewrite transcribe_result_insert. Qed.

(** A round of the loop goes through when the part is transcribed and its
    file name encodes. *)
Lemma part_result_inr m model p text :
  part_result m model p = inr text
  ↔ transcribe_result m model p = inr text
    ∧ Unicode.encodes (Path.basename p) = true.
Proof.
  unfold part_result. destruct (transcribe_result m model p) as [e|t]; [naive_solver|].
  destruct (Unicode.encodes (Path.basename p)); naive_solver.
Qed.

Lemma completed_insert m model out v parts :
  out ∉ parts → completed (<[out := v]> m) model parts = completed m model parts.
Proof.
  induction parts as [|p parts IH]; [done|]. intros [? ?]%not_elem_of_cons. simpl.
  rewrite part_result_insert by done. rewrite IH by done. done.
Qed.

Lemma first_failure_insert m model out v parts :
  out ∉ parts → first_failure (<[out := v]> m) model parts = first_failure m model parts.
Proof.
  induction parts as [|p parts IH]; [done|]. intros [? ?]%not_elem_of_cons. simpl.
  rewrite part_result_insert by done. rewrite IH by done. done.
Qed.

Lemma attempted_insert m model out v parts :
  out ∉ parts → attempted (<[out := v]> m) model parts = attempted m model parts.
Proof.
  intros H. unfold attempted. by rewrite completed_insert, first_failure_insert.
Qed.

Lemma attempted_cons_ok m model p parts text :
  part_result m model p = inr text →
  attempted m model (p :: parts) = p :: attempted m model parts.
Proof. intros H. unfold attempted. cbn. by rewrite H. Qed.

Lemma attempted_cons_fail m model p parts e :
  part_result m model p = inl e →
  attempted m model (p :: parts) = [p].
Proof. intros H. unfold attempted. cbn. by rewrite H. Qed.

Lemma aggregate_cons m model p parts :
  aggregate m model (p :: parts) = part_section m model p +:+ aggregate m model parts.
Proof. reflexivity. Qed.

Lemma aggregate_insert m model out v parts :
  out ∉ parts → aggregate (<[out := v]> m) model parts = aggregate m model parts.
Proof.
  induction parts as [|p parts IH]; [done|].
  intros [? ?]%not_elem_of_cons. rewrite !aggregate_cons, IH by done.
  unfold part_section, part_text. by rewrite transcribe_result_insert.
Qed.

Lemma seconds_insert m out v parts :
  out ∉ parts → seconds duration (<[out := v]> m) parts = seconds duration m parts.
Proof.
  induction parts as [|p parts IH]; [done|]. intros [? ?]%not_elem_of_cons. simpl.
  rewrite transcribe_seconds_insert by done. by rewrite IH.
Qed.

Lemma completed_subseteq m model parts : completed m model parts ⊆ parts.
Proof.
  induction parts as [|p parts IH]; simpl; [done|].
  destruct (part_result m model p); [apply list_subseteq_nil|].
  intros x [->|?]%elem_of_cons; [left|right; auto].
Qed.

Lemma attempted_subseteq m model parts : attempted m model parts ⊆ parts.
Proof.
  unfold attempted. induction parts as [|p parts IH]; simpl; [done|].
  destruct (part_result m model p).
  - intros x ?. simpl in *. set_solver.
  - intros x [->|?]%elem_of_cons; [left|right; auto].
Qed.

Lemma transcribe_parts_run model out total parts : ∀ start c st,
  fs st !! out = Some (File c) →
  out ∉ parts →
  transcribe_parts duration model out total start parts st =
  (match first_failure (fs st) model parts with
   | None => inr tt
   | Some (_, e) => inl e
   end,
   State (<[out := File (c +:+ aggregate (fs st) model (completed (fs st) model parts))]> (fs st))
         (clock st + seconds duration (fs st) (attempted (fs st) model parts))
         (trace st ++ loop_events total start (attempted (fs st) model parts))
         (processed_files st ++ completed (fs st) model parts)).
Proof.
  induction parts as [|p parts IH]; intros start c st Hout Hnotin.
  - cbn. destruct st as [m t tr pf]; cbn in *. f_equal. f_equal.
    + rewrite sapp_nil_r. symmetry. by apply insert_id.
    + lia.
    + by rewrite List.app_nil_r.
    + by rewrite List.app_nil_r.
  - apply not_elem_of_cons in Hnotin as [Hne Hnotin].
    unfold transcribe_parts. cbn [for_enumerate]. rewrite bind_run.
    rewrite bind_run, logger_run. cbn beta iota.
    rewrite bind_run, transcribe_run. cbn [fs emit set_clock].
    assert (Hfails : ∀ e, part_result (fs st) model p = inl e →
      (inl e : exn + unit,
       State (fs st) (clock st + transcribe_seconds duration (fs st) p)
             ((trace st ++ [Log INFO (ProcessingAudiobookPart (start + 1) total p)])
              ++ [Transcribe p])
             (processed_files st))
      = (match first_failure (fs st) model (p :: parts) with
         | None => inr tt
         | Some (_, e) => inl e
         end,
         State (<[out := File (c +:+ aggregate (fs st) model
                                 (completed (fs st) model (p :: parts)))]> (fs st))
               (clock st + seconds duration (fs st) (attempted (fs st) model (p :: parts)))
               (trace st ++ loop_events total start (attempted (fs st) model (p :: parts)))
               (processed_files st ++ completed (fs st) model (p :: parts)))).
    { intros e Hpart. rewrite (attempted_cons_fail _ _ _ _ _ Hpart).
      cbn [completed first_failure]. rewrite Hpart. cbn.
      destruct st as [m t tr pf]; cbn in *. f_equal. f_equal.
      - rewrite ?sapp_nil_r. symmetry. by apply insert_id.
      - lia.
      - by rewrite <- ?List.app_assoc.
      - by rewrite List.app_nil_r. }
    destruct (transcribe_result (fs st) model p) as [e|text] eqn:Hres.
    { rewrite <- (Hfails e); [|unfold part_result; by rewrite Hres].
      by destruct st. }
    cbn beta iota. rewrite bind_run.
    destruct (Unicode.encodes (Path.basename p)) eqn:Henc.
    2:{ rewrite write_chapter_header_fail by done.
        rewrite <- (Hfails (UnicodeEncodeError (Path.basename p)));
          [|unfold part_result; by rewrite Hres, Henc].
        by destruct st. }
    assert (Hpart : part_result (fs st) model p = inr text)
      by (unfold part_result; by rewrite Hres, Henc).
    clear Hfails.
    rewrite (attempted_cons_ok _ _ _ _ _ Hpart). cbn [completed first_failure].
    rewrite Hpart.
    erewrite write_chapter_header_ok by (done || (cbn; exact Hout)). cbn beta iota.
    rewrite bind_run. erewrite write_run by (cbn; apply lookup_insert_eq).
    cbn beta iota. cbn [modify].
    fold (transcribe_parts duration model out total (S start) parts).
    set (st1 := set_processed_files _ _).
    assert (Hfs1 : fs st1 = <[out := File ((c +:+ chapter_header (Path.basename p)) +:+ text)]> (fs st)).
    { subst st1. destruct st; cbn. by rewrite insert_insert_eq. }
    rewrite (IH (S start) ((c +:+ chapter_header (Path.basename p)) +:+ text) st1);
      [|rewrite Hfs1; apply lookup_insert_eq|done].
    rewrite Hfs1.
    rewrite first_failure_insert, completed_insert, attempted_insert by done.
    rewrite aggregate_insert by (intros ?%completed_subseteq; done).
    rewrite seconds_insert.
    2:{ intros ?%attempted_subseteq; done. }
    f_equal. subst st1. destruct st as [m t tr pf].
    unfold set_processed_files, set_fs, set_clock, emit.
    cbn [fs clock trace processed_files] in *.
    f_equal.
    + rewrite insert_insert_eq. do 2 f_equal.
      rewrite aggregate_cons. unfold part_section at 1, part_text. rewrite Hres.
      by rewrite !sapp_assoc.
    + unfold seconds. cbn [foldr]. lia.
    + cbn [loop_events]. by rewrite <- !List.app_assoc.
    + by rewrite <- List.app_assoc.
Qed.


(** *** What can be raised is an [Exception] *)

Lemma transcribe_result_Exception m model p e :
  transcribe_result m model p = inl e → is_Exception e = true.
Proof.
  unfold transcribe_result. repeat case_match; by intros [= <-].
Qed.

Lemma part_result_Exception m model p e :
  part_result m model p = inl e → is_Exception e = true.
Proof.
  unfold part_result. destruct (transcribe_result m model p) eqn:E.
  - intros [= <-]. by eapply transcribe_result_Exception.
  - destruct (Unicode.encodes _); [done|]. by intros [= <-].
Qed.

Lemma first_failure_Exception m model parts p e :
  first_failure m model parts = Some (p, e) → is_Exception e = true.
Proof.
  induction parts as [|q parts IH]; [done|]. cbn.
  destruct (part_result m model q) eqn:E; [|done].
  intros [= <- <-]. by eapply part_result_Exception.
Qed.

Lemma makedirs_go_Exception fuel : ∀ name exist_ok m e,
  Os.makedirs_go fuel name exist_ok m = inl e → is_Exception e = true.
Proof.
  induction fuel as [|fuel IH]; intros name exist_ok m e; [by intros [= <-]|].
  cbn [Os.makedirs_go]. unfold Os.mkdir.
  repeat case_match; intros; simplify_eq; try done; by eapply IH.
Qed.

Lemma move_Exception src dst m e :
  Os.move src dst m = inl e → is_Exception e = true.
Proof.
  unfold Os.move, Os.rename, Os.copytree_rmtree, Os.copy2, Os.makedirs.
  repeat case_match; intros; simplify_eq; try done; by eapply makedirs_go_Exception.
Qed.

(** *** The calls of [process_directory], one by one *)

Lemma open_w_ok path st :
  can_open_w (fs st) path = true →
  open_w path st = (inr tt, set_fs (λ m, <[path := File ""]> m) (emit (OpenW path) st)).
Proof.
  unfold can_open_w, open_w. intros [Hd Hp]%andb_true_iff.
  apply negb_true_iff in Hd.
  rewrite bind_run. cbn [modify]. unfold fs_call. cbn [fs emit].
  rewrite Hd, Hp. destruct st; reflexivity.
Qed.

Lemma open_w_fail path st :
  can_open_w (fs st) path = false →
  ∃ e, is_Exception e = true ∧ open_w path st = (inl e, emit (OpenW path) st).
Proof.
  unfold can_open_w, open_w. intros H.
  rewrite bind_run. cbn [modify]. unfold fs_call. cbn [fs emit].
  destruct (Fs.isdir (fs st) path); [eexists; split; [|reflexivity]; reflexivity|].
  destruct (Fs.parent_ok (fs st) path); [done|].
  eexists; split; [|reflexivity]; reflexivity.
Qed.

Lemma shutil_move_run src dst st :
  shutil_move src dst st =
  match Os.move src dst (fs st) with
  | inl e => (inl e, emit (Move src dst) st)
  | inr m => (inr tt, set_fs (λ _, m) (emit (Move src dst) st))
  end.
Proof.
  unfold shutil_move. rewrite bind_run. cbn [modify]. unfold fs_call. cbn [fs emit].
  by destruct (Os.move src dst (fs st)).
Qed.

Lemma os_listdir_run dir st :
  Fs.isdir (fs st) dir = true →
  os_listdir listing_order dir st = (inr (listing_order (Fs.children (fs st) dir)), st).
Proof. intros H. unfold os_listdir. by rewrite H. Qed.

(** The parts are the same whatever order the directory is listed in. *)
Lemma listed_audio_files m dir :
  (λ f, Path.join dir f) <$>
    filter (λ f, is_audio_file f = true) (sorted (listing_order (Fs.children m dir)))
  = audio_parts m dir.
Proof.
  unfold audio_parts, audio_names.
  by rewrite (sorted_perm_eq _ _ (listing_order_perm (Fs.children m dir))).
Qed.

Lemma completed_all m model parts :
  first_failure m model parts = None → completed m model parts = parts.
Proof.
  induction parts as [|p parts IH]; [done|]. cbn.
  destruct (part_result m model p); [done|]. intros ?. by rewrite IH.
Qed.

Lemma attempted_all m model parts :
  first_failure m model parts = None → attempted m model parts = parts.
Proof.
  intros H. unfold attempted. rewrite H, completed_all by done. apply List.app_nil_r.
Qed.

Lemma first_failure_None m model parts :
  first_failure m model parts = None ↔
  Forall (λ p, ∃ text, part_result m model p = inr text) parts.
Proof.
  induction parts as [|p parts IH]; cbn; [by split|].
  rewrite Forall_cons, <- IH.
  destruct (part_result m model p); naive_solver.
Qed.

Lemma Forall_part_result m model parts :
  Forall (λ p, ∃ text, part_result m model p = inr text) parts
  ↔ Forall (λ p, ∃ text, transcribe_result m model p = inr text) parts
    ∧ Forall (λ p, Unicode.encodes (Path.basename p) = true) parts.
Proof.
  rewrite <- Forall_and. apply Forall_proper; [|done]. intros p.
  setoid_rewrite part_result_inr. naive_solver.
Qed.

(** No round of the loop raises exactly when every part is transcribed and
    every file name encodes. *)
Lemma first_failure_None_iff m model parts :
  first_failure m model parts = None
  ↔ Forall (λ p, ∃ text, transcribe_result m model p = inr text) parts
    ∧ Forall (λ p, Unicode.encodes (Path.basename p) = true) parts.
Proof. by rewrite first_failure_None, Forall_part_result. Qed.


(** The parts lie inside the collection directory, so a path that does not
    start with the directory is none of them. *)
Lemma audio_parts_inside m dir p :
  p ∈ audio_parts m dir → Str.startswith p dir = true.
Proof.
  unfold audio_parts, audio_names.
  intros (f & -> & [_ Hf]%list_elem_of_filter)%list_elem_of_fmap.
  rewrite sorted_Permutation in Hf. apply elem_of_children in Hf as (Hsep & _).
  destruct (join_name_extends dir f Hsep) as [r ->]. apply startswith_app.
Qed.

Lemma not_in_audio_parts m dir out :
  Str.startswith out dir = false → out ∉ audio_parts m dir.
Proof. intros H Hin%audio_parts_inside. congruence. Qed.

Lemma audio_parts_basename m dir f :
  f ∈ audio_names m dir → Path.basename (Path.join dir f) = f.
Proof.
  unfold audio_names. intros [_ Hf]%list_elem_of_filter.
  rewrite sorted_Permutation in Hf. apply elem_of_children in Hf as (Hsep & _).
  by apply basename_join.
Qed.

(** *** [process_directory], case by case *)

Lemma except_clause_run e total st :
  (logger ERROR (ErrorProcessingAudiobook e);;
   st0 ← get_state;
   logger INFO (ProcessedBeforeError (List.length (processed_files st0)) total)) st
  = (inr tt,
     State (fs st) (clock st)
           (trace st ++ [Log ERROR (ErrorProcessingAudiobook e);
                         Log INFO (ProcessedBeforeError (List.length (processed_files st)) total)])
           (processed_files st)).
Proof.
  destruct st. unfold logger, modify, emit, get_state, mbind, M_bind. cbn.
  by rewrite <- List.app_assoc.
Qed.

Ltac enter_process_directory Hdir :=
  unfold process_directory;
  rewrite bind_run; unfold os_path_isdir at 1; rewrite Hdir; cbn beta iota;
  cbn [negb]; cbn beta iota;
  rewrite bind_run; unfold now_strftime at 1; cbn beta iota;
  rewrite bind_run, (os_listdir_run _ _ Hdir); cbn beta iota zeta;
  rewrite listed_audio_files.

Lemma process_directory_empty dir_path output_dir processed_dir model st :
  Fs.isdir (fs st) dir_path = true →
  audio_parts (fs st) dir_path = [] →
  process_directory listing_order strftime duration dir_path output_dir processed_dir model st
  = (inr tt, emit (Log WARNING (NoAudioFilesFound dir_path)) st).
Proof.
  intros Hdir Hparts. enter_process_directory Hdir.
  rewrite Hparts. reflexivity.
Qed.

Lemma process_directory_open_fails dir_path output_dir processed_dir model st :
  let parts := audio_parts (fs st) dir_path in
  let out := audiobook_output strftime dir_path output_dir st in
  Fs.isdir (fs st) dir_path = true →
  parts ≠ [] →
  can_open_w (fs st) out = false →
  ∃ e,
    process_directory listing_order strftime duration dir_path output_dir processed_dir model st
    = (inr tt,
       State (fs st) (clock st)
             (trace st ++ [OpenW out; Log ERROR (ErrorProcessingAudiobook e);
                           Log INFO (ProcessedBeforeError 0 (List.length parts))])
             []).
Proof.
  intros parts out Hdir Hparts Hopen. enter_process_directory Hdir.
  fold parts. rewrite bool_decide_eq_false_2 by done.
  rewrite bind_run. cbn [modify]. unfold try_except.
  fold (audiobook_output strftime dir_path output_dir st). fold out.
  destruct (open_w_fail out (set_processed_files (λ _, []) st) Hopen) as (e & He & Hrun).
  exists e. rewrite bind_run, Hrun. cbn beta iota. rewrite He.
  rewrite except_clause_run. destruct st; cbn. by rewrite <- !List.app_assoc.
Qed.

Lemma process_directory_part_fails dir_path output_dir processed_dir model st p e :
  let parts := audio_parts (fs st) dir_path in
  let out := audiobook_output strftime dir_path output_dir st in
  let finished := completed (fs st) model parts in
  Fs.isdir (fs st) dir_path = true →
  can_open_w (fs st) out = true →
  Str.startswith out dir_path = false →
  first_failure (fs st) model parts = Some (p, e) →
  process_directory listing_order strftime duration dir_path output_dir processed_dir model st
  = (inr tt,
     State (<[out := File (aggregate (fs st) model finished)]> (fs st))
           (clock st + seconds duration (fs st) (attempted (fs st) model parts))
           (trace st ++ OpenW out
              :: loop_events (List.length parts) 0 (attempted (fs st) model parts)
              ++ [Log ERROR (ErrorProcessingAudiobook e);
                  Log INFO (ProcessedBeforeError (List.length finished) (List.length parts))])
           finished).
Proof.
  intros parts out finished Hdir Hopen Hout Hfail.
  assert (Hnotin : out ∉ parts) by by apply not_in_audio_parts.
  assert (Hparts : parts ≠ []) by (intros E; by rewrite E in Hfail).
  enter_process_directory Hdir.
  fold parts. rewrite bool_decide_eq_false_2 by done.
  rewrite bind_run. cbn [modify]. unfold try_except.
  fold (audiobook_output strftime dir_path output_dir st). fold out.
  rewrite bind_run, open_w_ok by done. cbn beta iota.
  rewrite bind_run.
  erewrite transcribe_parts_run; [|cbn; apply lookup_insert_eq|done].
  cbn [fs set_fs emit set_processed_files clock trace processed_files].
  rewrite first_failure_insert, completed_insert, attempted_insert by done.
  rewrite aggregate_insert by (intros ?%completed_subseteq; done).
  rewrite seconds_insert by (intros ?%attempted_subseteq; done).
  fold parts. rewrite Hfail. cbn beta iota.
  rewrite (first_failure_Exception _ _ _ _ _ Hfail).
  rewrite except_clause_run.
  cbn [fs set_fs emit set_processed_files clock trace processed_files].
  rewrite insert_insert_eq. cbn. fold finished.
  by rewrite <- !List.app_assoc.
Qed.

Lemma process_directory_all_ok dir_path output_dir processed_dir model st :
  let parts := audio_parts (fs st) dir_path in
  let out := audiobook_output strftime dir_path output_dir st in
  let m1 := <[out := File (aggregate (fs st) model parts)]> (fs st) in
  let dest := archive_path m1 dir_path processed_dir (strftime (clock st)) in
  let t1 := (clock st + seconds duration (fs st) parts)%nat in
  let events := (OpenW out :: loop_events (List.length parts) 0 parts
                 ++ [Log INFO (AudiobookComplete out); Move dir_path dest])%list in
  Fs.isdir (fs st) dir_path = true →
  parts ≠ [] →
  can_open_w (fs st) out = true →
  Str.startswith out dir_path = false →
  first_failure (fs st) model parts = None →
  process_directory listing_order strftime duration dir_path output_dir processed_dir model st
  = (inr tt,
     match Os.move dir_path dest m1 with
     | inr m2 =>
         State m2 t1
               (trace st ++ events ++ [Log INFO (MovedAudiobookDirectory dest)]) parts
     | inl e =>
         State m1 t1
               (trace st ++ events
                  ++ [Log ERROR (ErrorProcessingAudiobook e);
                      Log INFO (ProcessedBeforeError (List.length parts) (List.length parts))])
               parts
     end).
Proof.
  intros parts out m1 dest t1 events Hdir Hparts Hopen Hout Hok.
  assert (Hnotin : out ∉ parts) by by apply not_in_audio_parts.
  enter_process_directory Hdir.
  fold parts. rewrite bool_decide_eq_false_2 by done.
  rewrite bind_run. cbn [modify]. unfold try_except.
  fold (audiobook_output strftime dir_path output_dir st). fold out.
  rewrite bind_run, open_w_ok by done. cbn beta iota.
  rewrite bind_run.
  erewrite transcribe_parts_run; [|cbn; apply lookup_insert_eq|done].
  cbn [fs set_fs emit set_processed_files clock trace processed_files].
  rewrite first_failure_insert, completed_insert, attempted_insert by done.
  rewrite aggregate_insert by (intros ?%completed_subseteq; done).
  rewrite seconds_insert by (intros ?%attempted_subseteq; done).
  fold parts. rewrite Hok, completed_all, attempted_all by done. cbn beta iota.
  rewrite insert_insert_eq. change ("" +:+ ?x) with x. fold m1. fold t1.
  rewrite bind_run, logger_run. cbn beta iota.
  rewrite bind_run. unfold os_path_exists at 1. cbn beta iota. cbn [fs emit].
  fold (archive_path m1 dir_path processed_dir (strftime (clock st))). fold dest.
  rewrite bind_run, shutil_move_run. cbn [fs emit].
  destruct (Os.move dir_path dest m1) as [e|m2] eqn:Hmove; cbn beta iota.
  - rewrite (move_Exception _ _ _ _ Hmove). rewrite except_clause_run. cbn.
    subst events. rewrite <- !List.app_assoc. reflexivity.
  - rewrite logger_run. unfold emit, set_fs. cbn. subst events.
    rewrite <- !List.app_assoc. reflexivity.
Qed.

(** *** Reading a trace *)

Lemma transcribed_app l1 l2 : transcribed (l1 ++ l2) = (transcribed l1 ++ transcribed l2)%list.
Proof. apply omap_app. Qed.

Lemma moves_app l1 l2 : moves (l1 ++ l2) = (moves l1 ++ moves l2)%list.
Proof. apply omap_app. Qed.



Lemma sorted_filter_Sorted (P : string → Prop) `{∀ x, Decision (P x)} l :
  Sorted Unicode.le l → Sorted Unicode.le (filter P l).
Proof.
  intros Hl%Sorted_StronglySorted; [|apply _]. apply StronglySorted_Sorted.
  induction Hl as [|x l Hl IH Hx]; [constructor|].
  rewrite filter_cons. destruct (decide (P x)); [|done].
  constructor; [done|]. apply Forall_forall. intros y [_ Hy]%list_elem_of_filter.
  by eapply Forall_forall in Hx.
Qed.

Lemma move_to_processed_run file_path processed_dir st :
  Fs.exists_ (fs st) file_path = true →
  move_to_processed strftime file_path processed_dir st =
  let dest := file_archive_path (fs st) file_path processed_dir (strftime (clock st)) in
  match Os.move file_path dest (fs st) with
  | inl e => (inl e, emit (Move file_path dest) st)
  | inr m =>
      (inr tt, emit (Log INFO (MovedProcessedFile dest))
                 (set_fs (λ _, m) (emit (Move file_path dest) st)))
  end.
Proof.
  intros Hfile. unfold move_to_processed, file_archive_path.
  rewrite bind_run. unfold os_path_exists at 1. rewrite Hfile.
  cbn beta iota. cbn [negb]. cbn beta iota.
  rewrite bind_run. unfold os_path_exists at 1. cbn beta iota zeta.
  destruct (Fs.exists_ (fs st) (Path.join processed_dir (Path.basename file_path))).
  - rewrite bind_run. rewrite bind_run. unfold now_strftime at 1. cbn beta iota.
    destruct (Path.splitext (Path.basename file_path)) as [base_name extension].
    cbn beta iota. cbn [mret M_ret fst snd]. cbn beta iota.
    rewrite bind_run, shutil_move_run. by destruct (Os.move _ _ _).
  - rewrite bind_run. cbn [mret M_ret]. cbn beta iota.
    rewrite bind_run, shutil_move_run. by destruct (Os.move _ _ _).
Qed.

(** *** Where failures stop *)

Lemma returns_bind {A B} (m : M A) (k : A → M B) :
  always_returns m → (∀ x, always_returns (k x)) → always_returns (m ≫= k).
Proof.
  intros Hm Hk st. destruct (Hm st) as (x & st1 & Hx).
  destruct (Hk x st1) as (y & st2 & Hy). exists y, st2.
  by rewrite bind_run, Hx.
Qed.

Lemma returns_ret {A} (x : A) : always_returns (mret x).
Proof. intros st. by eexists _, _. Qed.

Lemma returns_logger lvl msg : always_returns (logger lvl msg).
Proof. intros st. by eexists _, _. Qed.

Lemma only_Exceptions_bind {A B} (m : M A) (k : A → M B) :
  raises_only_Exceptions m → (∀ x, raises_only_Exceptions (k x)) →
  raises_only_Exceptions (m ≫= k).
Proof.
  intros Hm Hk st e st'. rewrite bind_run.
  destruct (m st) as [[e1|x] st1] eqn:E.
  - intros [= <- <-]. by eapply Hm.
  - apply Hk.
Qed.

Lemma only_Exceptions_returns {A} (m : M A) :
  always_returns m → raises_only_Exceptions m.
Proof. intros Hm st e st' H. destruct (Hm st) as (x & st1 & Hx). congruence. Qed.

Lemma only_Exceptions_transcribe model p :
  raises_only_Exceptions (transcribe duration model p).
Proof.
  intros st e st'. rewrite transcribe_run. intros [= H _].
  by eapply transcribe_result_Exception.
Qed.

Lemma only_Exceptions_open_w path : raises_only_Exceptions (open_w path).
Proof.
  intros st e st'. destruct (can_open_w (fs st) path) eqn:E.
  - by rewrite open_w_ok.
  - destruct (open_w_fail path st E) as (e' & He & ->). by intros [= <- _].
Qed.

Lemma only_Exceptions_shutil_move src dst : raises_only_Exceptions (shutil_move src dst).
Proof.
  intros st e st'. rewrite shutil_move_run.
  destruct (Os.move src dst (fs st)) eqn:E; [|done].
  intros [= <- _]. by eapply move_Exception.
Qed.

Lemma returns_write path text : always_returns (write path text).
Proof. intros st. by eexists _, _. Qed.

Lemma returns_modify f : always_returns (modify f).
Proof. intros st. by eexists _, _. Qed.

Lemma returns_get_state : always_returns get_state.
Proof. intros st. by eexists _, _. Qed.

Lemma returns_os_path_exists p : always_returns (os_path_exists p).
Proof. intros st. by eexists _, _. Qed.

Lemma only_Exceptions_write_chapter_header path file_name :
  raises_only_Exceptions (write_chapter_header path file_name).
Proof.
  intros st e st'. unfold write_chapter_header.
  destruct (Unicode.encodes file_name); [done|]. by intros [= <- _].
Qed.

Lemma only_Exceptions_transcribe_parts model out total parts : ∀ start,
  raises_only_Exceptions (transcribe_parts duration model out total start parts).
Proof.
  induction parts as [|p parts IH]; intros start.
  - apply only_Exceptions_returns, returns_ret.
  - unfold transcribe_parts. cbn [for_enumerate].
    apply only_Exceptions_bind; [|intros _; apply IH].
    apply only_Exceptions_bind; [apply only_Exceptions_returns, returns_logger|intros _].
    apply only_Exceptions_bind; [apply only_Exceptions_transcribe|intros text].
    apply only_Exceptions_bind; [apply only_Exceptions_write_chapter_header|intros _].
    apply only_Exceptions_returns.
    repeat (apply returns_bind; [|intros _]);
      auto using returns_write, returns_modify.
Qed.

(** [try: body except Exception as e: handler e] returns whenever the
    handler does and the body raises nothing but [Exception]s. *)
Lemma try_except_returns {A} (body : M A) (handler : exn → M A) :
  raises_only_Exceptions body → (∀ e, always_returns (handler e)) →
  always_returns (try_except is_Exception body handler).
Proof.
  intros Hbody Hhandler st. unfold try_except.
  destruct (body st) as [[e|x] st1] eqn:E; [|by eexists _, _].
  rewrite (Hbody _ _ _ E). apply Hhandler.
Qed.

(** Whatever happens to a collection, [process_directory] returns: the
    failures of its parts and of its archival move stay inside it. *)
Lemma process_directory_returns dir_path output_dir processed_dir model :
  always_returns
    (process_directory listing_order strftime duration
       dir_path output_dir processed_dir model).
Proof.
  intros st. unfold process_directory.
  rewrite bind_run. unfold os_path_isdir at 1. cbn beta iota.
  destruct (Fs.isdir (fs st) dir_path) eqn:Hdir; cbn [negb]; cbn beta iota;
    [|by eexists _, _].
  rewrite bind_run. unfold now_strftime at 1. cbn beta iota.
  rewrite bind_run. unfold os_listdir at 1. rewrite Hdir. cbn beta iota zeta.
  destruct (bool_decide _); [by eexists _, _|].
  apply returns_bind; [apply returns_modify|intros _].
  apply try_except_returns.
  - apply only_Exceptions_bind; [apply only_Exceptions_open_w|intros _].
    apply only_Exceptions_bind; [apply only_Exceptions_transcribe_parts|intros _].
    apply only_Exceptions_bind; [apply only_Exceptions_returns, returns_logger|intros _].
    apply only_Exceptions_bind;
      [apply only_Exceptions_returns, returns_os_path_exists|intros taken].
    apply only_Exceptions_bind; [apply only_Exceptions_shutil_move|intros _].
    apply only_Exceptions_returns, returns_logger.
  - intros e.
    apply returns_bind; [apply returns_logger|intros _].
    apply returns_bind; [apply returns_get_state|intros st0]. apply returns_logger.
Qed.

(** So does [process_audio_file], whatever the transcription or the write
    of the transcript do. *)
Lemma process_audio_file_returns file_path output_dir model :
  always_returns (process_audio_file duration file_path output_dir model).
Proof.
  intros st. unfold process_audio_file.
  rewrite bind_run. unfold os_path_exists at 1. cbn beta iota.
  destruct (Fs.exists_ (fs st) file_path); cbn [negb]; cbn beta iota; [|by eexists _, _].
  rewrite bind_run. unfold os_path_exists at 1. cbn beta iota.
  destruct (Fs.exists_ (fs st) _); [by eexists _, _|].
  apply try_except_returns.
  - apply only_Exceptions_bind; [apply only_Exceptions_returns, returns_logger|intros _].
    apply only_Exceptions_bind; [apply only_Exceptions_transcribe|intros text].
    apply only_Exceptions_bind; [apply only_Exceptions_open_w|intros _].
    apply only_Exceptions_returns.
    repeat (apply returns_bind; [|intros _]);
      auto using returns_write, returns_logger, returns_ret.
  - intros e. apply returns_bind; [apply returns_logger|intros _]. apply returns_ret.
Qed.

(** The one way an item makes the loop of [process_dropbox] stop: its
    transcript is there and [move_to_processed] raised. *)
Lemma process_item_raises_only_in_move
    dropbox_dir output_dir processed_dir model item st e st' :
  process_item listing_order strftime duration
    dropbox_dir output_dir processed_dir model item st = (inl e, st') →
  ∃ st1,
    process_audio_file duration (Path.join dropbox_dir item) output_dir model
      (emit (Log INFO (ProcessingIndividualFile item)) st) = (inr true, st1)
    ∧ move_to_processed strftime (Path.join dropbox_dir item) processed_dir st1
      = (inl e, st').
Proof.
  unfold process_item. rewrite bind_run. unfold os_path_isdir at 1. cbn beta iota.
  destruct (Fs.isdir (fs st) _).
  - rewrite bind_run, logger_run. cbn beta iota.
    destruct (process_directory_returns (Path.join dropbox_dir item)
                output_dir processed_dir model
                (emit (Log INFO (ProcessingDirectoryAsAudiobook item)) st))
      as ([] & st1 & ->). done.
  - destruct (is_audio_file item); [|done].
    rewrite bind_run, logger_run. cbn beta iota. rewrite bind_run.
    destruct (process_audio_file_returns (Path.join dropbox_dir item) output_dir model
                (emit (Log INFO (ProcessingIndividualFile item)) st))
      as (ok & st1 & Hrun).
    rewrite Hrun. destruct ok; [|done]. eauto.
Qed.

(** *** The layout of [setup_directories]

    The three locations made under one base never overlap: an entry of the
    drop location is outside the archive, and the aggregate output of a
    collection is outside both the collection and the archive.  These are
    the path conditions the claims below ask for. *)
Lemma script_layout_separates base_dir item st :
  let dropbox_dir := Path.join base_dir "dropbox" in
  let output_dir := Path.join base_dir "output" in
  let processed_dir := Path.join base_dir "processed" in
  let dir_path := Path.join dropbox_dir item in
  let out := audiobook_output strftime dir_path output_dir st in
  Str.contains Path.sep item = false →
  Str.startswith out dir_path = false
  ∧ Str.startswith out processed_dir = false
  ∧ Str.startswith dir_path processed_dir = false.
Proof.
  intros dropbox_dir output_dir processed_dir dir_path out Hitem.
  set (r := Path.join base_dir "").
  assert (Hdrop : dropbox_dir = r +:+ "dropbox") by by apply join_relative.
  assert (Hou : output_dir = r +:+ "output") by by apply join_relative.
  assert (Hpr : processed_dir = r +:+ "processed") by by apply join_relative.
  destruct (join_name_extends dropbox_dir item Hitem) as [ri Hi].
  destruct (join_extends output_dir
              (Path.basename dir_path +:+ "_" +:+ strftime (clock st) +:+ ".txt"))
    as [rout Hout].
  { apply name_suffix_relative, basename_no_sep. }
  subst out. unfold audiobook_output. rewrite Hout. fold dir_path in Hi. rewrite Hi.
  rewrite Hdrop, Hou, Hpr, !sapp_assoc, !startswith_app_both.
  done.
Qed.

(** Every entry [os.listdir] hands out for the drop location is such an
    item. *)
Lemma listed_item_separates base_dir item st :
  let dropbox_dir := Path.join base_dir "dropbox" in
  let output_dir := Path.join base_dir "output" in
  let processed_dir := Path.join base_dir "processed" in
  let dir_path := Path.join dropbox_dir item in
  let out := audiobook_output strftime dir_path output_dir st in
  item ∈ listing_order (Fs.children (fs st) dropbox_dir) →
  Str.startswith out dir_path = false
  ∧ Str.startswith out processed_dir = false
  ∧ Str.startswith dir_path processed_dir = false.
Proof.
  intros dropbox_dir output_dir processed_dir dir_path out Hitem.
  apply script_layout_separates.
  rewrite listing_order_perm in Hitem. by apply elem_of_children in Hitem as (? & _).
Qed.

(** ** The claims *)

(** C9. A directory none of whose entries passes the audio-file test is
    a no-op: [process_directory] returns with the world as it was, and the
    only thing it adds to the trace is the warning.  No aggregate output is
    opened and [shutil.move] is not entered. *)
Theorem empty_collection_is_noop dir_path output_dir processed_dir model st :
  Fs.isdir (fs st) dir_path = true →
  (∀ f, f ∈ Fs.children (fs st) dir_path → is_audio_file f = false) →
  process_directory listing_order strftime duration dir_path output_dir processed_dir model st
  = (inr tt, State (fs st) (clock st)
                   (trace st ++ [Log WARNING (NoAudioFilesFound dir_path)])
                   (processed_files st)).
Proof.
  intros Hdir Hnone. rewrite process_directory_empty; [done..|].
  unfold audio_parts, audio_names.
  destruct (filter _ _) as [|f names] eqn:E; [done|].
  assert (Hf : f ∈ filter (λ f, is_audio_file f = true) (sorted (Fs.children (fs st) dir_path)))
    by (rewrite E; left).
  apply list_elem_of_filter in Hf as [Haudio Hf]. rewrite sorted_Permutation in Hf.
  rewrite (Hnone f Hf) in Haudio. done.
Qed.

(** C4. A single audio file whose output artifact is already there:
    [process_audio_file] reports success having touched nothing and without
    entering [model.transcribe], and the orchestrator goes on to
    [move_to_processed], which enters [shutil.move] on the source. *)
Theorem existing_output_skips_transcription_and_archives
    dropbox_dir output_dir processed_dir model item st :
  let item_path := Path.join dropbox_dir item in
  let st' := (process_item listing_order strftime duration
                dropbox_dir output_dir processed_dir model item st).2 in
  Fs.exists_ (fs st) item_path = true →
  Fs.isdir (fs st) item_path = false →
  is_audio_file item = true →
  Fs.exists_ (fs st) (get_output_filename item_path output_dir) = true →
  process_audio_file duration item_path output_dir model st
    = (inr true, State (fs st) (clock st)
                       (trace st ++ [Log INFO (FileAlreadyProcessed item_path)])
                       (processed_files st))
  ∧ process_item listing_order strftime duration
      dropbox_dir output_dir processed_dir model item st
    = move_to_processed strftime item_path processed_dir
        (State (fs st) (clock st)
               (trace st ++ [Log INFO (ProcessingIndividualFile item);
                             Log INFO (FileAlreadyProcessed item_path)])
               (processed_files st))
  ∧ ∃ dest events,
      trace st' = (trace st ++ [Log INFO (ProcessingIndividualFile item);
                                Log INFO (FileAlreadyProcessed item_path)]
                   ++ events)%list
      ∧ moves events = [(item_path, dest)]
      ∧ transcribed events = [].
Proof.
  intros item_path st' Hfile Hnotdir Haudio Hout.
  assert (Hskip : ∀ s, fs s = fs st →
    process_audio_file duration item_path output_dir model s
    = (inr true, emit (Log INFO (FileAlreadyProcessed item_path)) s)).
  { intros s Hs. unfold process_audio_file.
    rewrite bind_run. unfold os_path_exists at 1. rewrite Hs, Hfile. cbn beta iota.
    cbn [negb]. cbn beta iota.
    rewrite bind_run. unfold os_path_exists at 1. rewrite Hs, Hout. reflexivity. }
  assert (Hitem : process_item listing_order strftime duration
      dropbox_dir output_dir processed_dir model item st
    = move_to_processed strftime item_path processed_dir
        (State (fs st) (clock st)
               (trace st ++ [Log INFO (ProcessingIndividualFile item);
                             Log INFO (FileAlreadyProcessed item_path)])
               (processed_files st))).
  { unfold process_item. fold item_path.
    rewrite bind_run. unfold os_path_isdir at 1. rewrite Hnotdir, Haudio. cbn beta iota.
    rewrite bind_run, logger_run. cbn beta iota.
    rewrite bind_run, Hskip by done. cbn beta iota.
    f_equal. destruct st; unfold emit; cbn. by rewrite <- List.app_assoc. }
  split_and!.
  - rewrite Hskip by done. by destruct st.
  - exact Hitem.
  - subst st'. rewrite Hitem. rewrite move_to_processed_run by done.
    cbn [fs clock]. cbv zeta.
    set (dest := file_archive_path (fs st) item_path processed_dir (strftime (clock st))).
    destruct (Os.move _ _ _) as [e|m']; cbn [snd trace emit set_fs].
    + exists dest, [Move item_path dest].
      split; [by rewrite <- List.app_assoc|done].
    + exists dest, [Move item_path dest; Log INFO (MovedProcessedFile dest)].
      split; [by rewrite <- !List.app_assoc|done].
Qed.

(** C7. A single audio file whose transcription fails: [process_audio_file]
    reports failure, the filesystem is as it was (so nothing sits at the
    derived output path and the source is still in the drop location), and
    the orchestrator does not enter [shutil.move]. *)
Theorem failed_transcription_leaves_no_artifact
    dropbox_dir output_dir processed_dir model item audio st :
  let item_path := Path.join dropbox_dir item in
  let output_path := get_output_filename item_path output_dir in
  let events := [Log INFO (ProcessingFile item_path); Transcribe item_path;
                 Log ERROR (ErrorProcessing item_path (TranscriptionError item_path))] in
  let st' := (process_item listing_order strftime duration
                dropbox_dir output_dir processed_dir model item st).2 in
  fs st !! item_path = Some (File audio) →
  is_audio_file item = true →
  Fs.exists_ (fs st) output_path = false →
  model audio = None →
  process_audio_file duration item_path output_dir model st
    = (inr false, State (fs st) (clock st + duration audio) (trace st ++ events)
                        (processed_files st))
  ∧ process_item listing_order strftime duration
      dropbox_dir output_dir processed_dir model item st
    = (inr tt, State (fs st) (clock st + duration audio)
                     (trace st ++ Log INFO (ProcessingIndividualFile item) :: events)
                     (processed_files st))
  ∧ fs st' !! output_path = None
  ∧ fs st' !! item_path = Some (File audio)
  ∧ moves (Log INFO (ProcessingIndividualFile item) :: events) = [].
Proof.
  intros item_path output_path events st' Hfile Haudio Hout Hfail.
  assert (Hrun : ∀ s, fs s !! item_path = Some (File audio) →
    Fs.exists_ (fs s) output_path = false →
    process_audio_file duration item_path output_dir model s
    = (inr false, State (fs s) (clock s + duration audio) (trace s ++ events)
                        (processed_files s))).
  { intros s Hs Hso. unfold process_audio_file.
    rewrite bind_run. unfold os_path_exists at 1.
    assert (Fs.exists_ (fs s) item_path = true) as ->.
    { unfold Fs.exists_. apply bool_decide_eq_true_2. eauto. }
    cbn beta iota. cbn [negb]. cbn beta iota.
    rewrite bind_run. unfold os_path_exists at 1. fold output_path. rewrite Hso.
    cbn beta iota. unfold try_except.
    rewrite bind_run, logger_run. cbn beta iota.
    rewrite bind_run, transcribe_run. cbn [fs emit].
    unfold transcribe_result, transcribe_seconds. rewrite Hs, Hfail.
    cbn beta iota. cbn [is_Exception].
    rewrite bind_run, logger_run. cbn beta iota. unfold mret, M_ret.
    destruct s; unfold emit, set_clock; cbn. subst events.
    by rewrite <- !List.app_assoc. }
  assert (Hitem : process_item listing_order strftime duration
      dropbox_dir output_dir processed_dir model item st
    = (inr tt, State (fs st) (clock st + duration audio)
                     (trace st ++ Log INFO (ProcessingIndividualFile item) :: events)
                     (processed_files st))).
  { unfold process_item. fold item_path.
    rewrite bind_run. unfold os_path_isdir at 1.
    assert (Fs.isdir (fs st) item_path = false) as ->.
    { unfold Fs.isdir. apply bool_decide_eq_false_2. by rewrite Hfile. }
    rewrite Haudio. cbn beta iota.
    rewrite bind_run, logger_run. cbn beta iota.
    rewrite bind_run, Hrun by done. cbn beta iota. unfold mret, M_ret.
    destruct st; unfold emit; cbn. by rewrite <- !List.app_assoc. }
  split_and!; [by apply Hrun|exact Hitem|..].
  - subst st'. rewrite Hitem. cbn.
    unfold Fs.exists_ in Hout. apply bool_decide_eq_false in Hout.
    by apply eq_None_not_Some.
  - subst st'. by rewrite Hitem.
  - done.
Qed.

Lemma attempted_head m model p parts :
  ∃ rest, attempted m model (p :: parts) = p :: rest.
Proof.
  destruct (part_result m model p) as [e|text] eqn:E.
  - rewrite (attempted_cons_fail _ _ _ _ _ E). eauto.
  - rewrite (attempted_cons_ok _ _ _ _ _ E). eauto.
Qed.

(** C10. In a collection with at least one part, the aggregate output is
    opened, and so created empty, before [model.transcribe] is entered for
    the first part; when that first part fails the run ends with the
    aggregate output on disk and nothing in it. *)
Theorem aggregate_output_is_created_before_first_part
    dir_path output_dir processed_dir model first rest st :
  let out := audiobook_output strftime dir_path output_dir st in
  let st' := (process_directory listing_order strftime duration
                dir_path output_dir processed_dir model st).2 in
  Fs.isdir (fs st) dir_path = true →
  audio_parts (fs st) dir_path = first :: rest →
  can_open_w (fs st) out = true →
  Str.startswith out dir_path = false →
  (∀ s, fs s = fs st →
     open_w out s = (inr tt, set_fs (λ m, <[out := File ""]> m) (emit (OpenW out) s)))
  ∧ (∃ events,
       trace st' = (trace st ++ OpenW out
                      :: Log INFO (ProcessingAudiobookPart 1 (S (List.length rest)) first)
                      :: Transcribe first :: events)%list)
  ∧ (∀ e, transcribe_result (fs st) model first = inl e →
          fs st' = <[out := File ""]> (fs st)).
Proof.
  intros out st' Hdir Hparts Hopen Hout.
  split_and!.
  - intros s Hs. apply open_w_ok. by rewrite Hs.
  - subst st'.
    destruct (first_failure (fs st) model (audio_parts (fs st) dir_path))
      as [[p e]|] eqn:Hfail.
    + rewrite (process_directory_part_fails _ _ _ _ _ p e) by done.
      cbn [snd trace]. rewrite Hparts.
      destruct (attempted_head (fs st) model first rest) as [more ->].
      cbn [loop_events]. eexists. reflexivity.
    + rewrite process_directory_all_ok by (done || by rewrite Hparts).
      rewrite Hparts. cbn [loop_events].
      destruct (Os.move _ _ _); cbn [snd trace]; eexists;
        rewrite <- ?List.app_assoc; reflexivity.
  - intros e He. subst st'.
    assert (Hpart : part_result (fs st) model first = inl e)
      by (unfold part_result; by rewrite He).
    rewrite (process_directory_part_fails _ _ _ _ _ first e); try done.
    + cbn [snd fs]. rewrite Hparts. cbn [completed]. by rewrite Hpart.
    + rewrite Hparts. cbn [first_failure]. by rewrite Hpart.
Qed.


(** The sections of the aggregate, with the marker spelled out: two line
    feeds, [--- Chapter/Part: ], the file name, [ ---], two line feeds. *)
Lemma aggregate_sections m model dir_path :
  aggregate m model (audio_parts m dir_path)
  = concat_sections
      ((λ f, ("

--- Chapter/Part: " +:+ f +:+ " ---

") +:+ part_text m model (Path.join dir_path f))
       <$> audio_names m dir_path).
Proof.
  unfold aggregate, audio_parts. rewrite <- list_fmap_compose. f_equal.
  apply list_fmap_ext. intros i f Hf%list_elem_of_lookup_2. cbn.
  unfold part_section, part_text.
  by rewrite (audio_parts_basename m dir_path f Hf).
Qed.

(** C5, as the script has it.  When every part of a collection transcribes
    and every part file name is free of bytes outside UTF-8, the aggregate
    output holds, for the audio file names of the directory taken in
    ascending order, the marker [\n\n--- Chapter/Part: <name> ---\n\n]
    followed by the transcript of that part, and nothing else.  The names
    are the sorted arrangement of the entries that pass the audio-file test,
    whatever order the directory was listed in; when there is none, nothing
    is written at all. *)
Theorem aggregate_is_the_sorted_concatenation
    dir_path output_dir processed_dir model st :
  let out := audiobook_output strftime dir_path output_dir st in
  let parts := audio_parts (fs st) dir_path in
  let st' := (process_directory listing_order strftime duration
                dir_path output_dir processed_dir model st).2 in
  Fs.isdir (fs st) dir_path = true →
  can_open_w (fs st) out = true →
  Forall (λ p, ∃ text, transcribe_result (fs st) model p = inr text) parts →
  Forall (λ p, Unicode.encodes (Path.basename p) = true) parts →
  Str.startswith out dir_path = false →
  Str.startswith out processed_dir = false →
  ∃ names,
    Sorted Unicode.le names
    ∧ names ≡ₚ filter (λ f, is_audio_file f = true) (Fs.children (fs st) dir_path)
    ∧ (names ≠ [] →
       fs st' !! out =
       Some (File (concat_sections
                     ((λ f, ("

--- Chapter/Part: " +:+ f +:+ " ---

") +:+ part_text (fs st) model (Path.join dir_path f))
                      <$> names))))
    ∧ (names = [] → fs st' = fs st).
Proof.
  intros out parts st' Hdir Hopen Hall Hnames Hout Hproc.
  exists (audio_names (fs st) dir_path). split_and!.
  - apply sorted_filter_Sorted, sorted_Sorted.
  - unfold audio_names. by rewrite sorted_Permutation.
  - intros Hsome.
    assert (Hparts : parts ≠ []).
    { subst parts. unfold audio_parts. by destruct (audio_names (fs st) dir_path). }
    subst st'. rewrite process_directory_all_ok; try done.
    2:{ by apply first_failure_None_iff. }
    transitivity (Some (File (aggregate (fs st) model (audio_parts (fs st) dir_path)))).
    2:{ by rewrite (aggregate_sections (fs st) model dir_path). }
    cbn [snd]. cbv zeta. fold out.
    set (m1 := <[out := File (aggregate (fs st) model (audio_parts (fs st) dir_path))]> (fs st)).
    set (dest := archive_path m1 dir_path processed_dir (strftime (clock st))).
    assert (Hm1 : m1 !! out = Some (File (aggregate (fs st) model (audio_parts (fs st) dir_path))))
      by apply lookup_insert_eq.
    destruct (Os.move dir_path dest m1) as [e|m2] eqn:Hmove; cbn [fs]; [done|].
    eapply move_frame; [exact Hmove|done| |done].
    subst dest. unfold archive_path.
    destruct (Fs.exists_ _ _); [apply startswith_false_app|];
      by apply join_basename_startswith.
  - intros Hnone. subst st'. rewrite process_directory_empty; [done..|].
    subst parts. unfold audio_parts. by rewrite Hnone.
Qed.

(** C1, as the script has it.  A collection directory leaves the drop
    location exactly when it has at least one audio part, the aggregate
    output could be opened, every part transcribed, every chapter header
    could be written (no part file name has a byte outside UTF-8), and the
    closing [shutil.move] returned; in every other case, so after any part
    failure, it is still in the drop location. *)
Theorem collection_is_archived_iff_all_parts_and_move_succeed
    dir_path output_dir processed_dir model st :
  let parts := audio_parts (fs st) dir_path in
  let out := audiobook_output strftime dir_path output_dir st in
  let m1 := <[out := File (aggregate (fs st) model parts)]> (fs st) in
  let dest := archive_path m1 dir_path processed_dir (strftime (clock st)) in
  let st' := (process_directory listing_order strftime duration
                dir_path output_dir processed_dir model st).2 in
  let archived :=
    parts ≠ []
    ∧ can_open_w (fs st) out = true
    ∧ Forall (λ p, ∃ text, transcribe_result (fs st) model p = inr text) parts
    ∧ Forall (λ p, Unicode.encodes (Path.basename p) = true) parts
    ∧ ∃ m2, Os.move dir_path dest m1 = inr m2 in
  Fs.isdir (fs st) dir_path = true →
  Str.startswith out dir_path = false →
  Str.startswith dir_path processed_dir = false →
  (fs st' !! dir_path = None ↔ archived)
  ∧ (¬ archived → fs st' !! dir_path = Some Dir)
  ∧ (∀ p e, p ∈ parts → transcribe_result (fs st) model p = inl e →
            fs st' !! dir_path = Some Dir).
Proof.
  intros parts out m1 dest st' archived Hdir Hout Hproc.
  assert (Hhere : fs st !! dir_path = Some Dir).
  { unfold Fs.isdir in Hdir. by apply bool_decide_eq_true in Hdir. }
  assert (Hne : out ≠ dir_path) by by apply startswith_false_ne.
  assert (Hdest : Str.startswith dir_path dest = false).
  { subst dest. unfold archive_path.
    destruct (Fs.exists_ _ _); [apply startswith_false_app|];
      by apply join_basename_startswith. }
  assert (Hcases : (archived ∧ fs st' !! dir_path = None)
                   ∨ (¬ archived ∧ fs st' !! dir_path = Some Dir)).
  { subst st' archived.
    destruct (decide (parts = [])) as [Hnil|Hparts].
    { right. split; [naive_solver|]. by rewrite process_directory_empty. }
    destruct (can_open_w (fs st) out) eqn:Hopen.
    2:{ right. split; [naive_solver|].
        destruct (process_directory_open_fails dir_path output_dir processed_dir model st)
          as [e ->]; done. }
    destruct (first_failure (fs st) model parts) as [[p e]|] eqn:Hfail.
    { right. split.
      - intros (_ & _ & Hall & Hnames & _).
        assert (first_failure (fs st) model parts = None)
          by by apply first_failure_None_iff.
        congruence.
      - rewrite (process_directory_part_fails _ _ _ _ _ p e) by done.
        cbn [snd fs]. by rewrite lookup_insert_ne. }
    rewrite process_directory_all_ok by done. fold parts out m1 dest.
    apply first_failure_None_iff in Hfail as [Hall Hnames].
    destruct (Os.move dir_path dest m1) as [e|m2] eqn:Hmove; cbn [snd fs].
    - right. split; [naive_solver|]. subst m1. by rewrite lookup_insert_ne.
    - left. split.
      + split_and!; [done..|by eexists].
      + by eapply move_src_gone. }
  split_and!.
  - destruct Hcases as [[? ?]|[? Hstay]]; [done|]. rewrite Hstay. naive_solver.
  - intros Hnot. destruct Hcases as [[? ?]|[? ?]]; done.
  - intros p e Hp He. destruct Hcases as [[(_ & _ & Hall & _) _]|[_ ?]]; [|done].
    rewrite Forall_forall in Hall. destruct (Hall p Hp) as [text Htext]. congruence.
Qed.

(** C3, where the script breaks it.  When the natural name and the
    timestamp-suffixed name are both taken in the archive, the latter by a
    regular file, [move_to_processed] returns normally and the file that
    was at the timestamp-suffixed name has been replaced by the source. *)
Theorem occupied_timestamped_name_is_overwritten
    file_path processed_dir incoming occupant st :
  let filename := Path.basename file_path in
  let stamped :=
    Path.join processed_dir
      ((Path.splitext filename).1 +:+ "_" +:+ strftime (clock st)
       +:+ (Path.splitext filename).2) in
  let r := move_to_processed strftime file_path processed_dir st in
  fs st !! file_path = Some (File incoming) →
  Fs.exists_ (fs st) (Path.join processed_dir filename) = true →
  fs st !! stamped = Some (File occupant) →
  Fs.parent_ok (fs st) stamped = true →
  file_path ≠ stamped →
  r.1 = inr tt
  ∧ fs r.2 !! stamped = Some (File incoming)
  ∧ fs r.2 !! file_path = None.
Proof.
  intros filename stamped r Hsrc Htaken Hstamped Hparent Hne.
  subst r. rewrite move_to_processed_run.
  2:{ unfold Fs.exists_. apply bool_decide_eq_true_2. eauto. }
  cbv zeta. unfold file_archive_path. fold filename. rewrite Htaken. fold stamped.
  assert (Hmove : Os.move file_path stamped (fs st)
                  = inr (<[stamped := File incoming]> (delete file_path (fs st)))).
  { unfold Os.move.
    assert (Fs.isdir (fs st) stamped = false) as ->.
    { unfold Fs.isdir. apply bool_decide_eq_false_2. by rewrite Hstamped. }
    unfold Os.rename. rewrite Hsrc, Hparent. cbn [negb].
    rewrite bool_decide_eq_false_2 by done. by rewrite Hstamped. }
  rewrite Hmove. cbn [fst snd fs emit set_fs].
  split_and!; [done|apply lookup_insert_eq|].
  rewrite lookup_insert_ne by done. apply lookup_delete_eq.
Qed.

(** An [ImportError] at [import whisper] ends [process_dropbox] with
    [SystemExit(1)], before the drop location is listed. *)
Lemma import_error_exits_1 load_model dropbox_dir output_dir processed_dir model_name st :
  Fs.exists_ (fs st) dropbox_dir = true →
  process_dropbox listing_order strftime duration (Some ImportError) load_model
    dropbox_dir output_dir processed_dir model_name st
  = (inl (SystemExit 1),
     State (fs st) (clock st)
           (trace st ++ [Log ERROR FailedToImportWhisper; Log ERROR InstallWith])
           (processed_files st)).
Proof.
  intros Hdrop. unfold process_dropbox.
  rewrite bind_run. unfold os_path_exists at 1. rewrite Hdrop.
  cbn beta iota. cbn [negb]. cbn beta iota.
  unfold try_except. rewrite bind_run. unfold raise at 1. cbn beta iota.
  cbn [is_ImportError].
  rewrite bind_run, logger_run. cbn beta iota.
  rewrite bind_run, logger_run. cbn beta iota.
  unfold raise. destruct st; unfold emit; cbn. by rewrite <- List.app_assoc.
Qed.

End Verification.

(** ** The script on the sample worlds *)

Lemma sample_listing_order_perm l : Sample.listing_order l ≡ₚ l.
Proof.
  unfold Sample.listing_order. rewrite reverse_Permutation. apply sorted_Permutation.
Qed.

(** The marker is the one of the f-string, line feeds included. *)
Example chapter_header_a_mp3 :
  chapter_header "a.mp3" = "

--- Chapter/Part: a.mp3 ---

".
Proof. reflexivity. Qed.

(** The [str] of a name: [caf\xC3\xA9.mp3] is UTF-8 for a name with the
    code point U+00E9 and encodes; in [cafe_latin1] the byte E9 is escaped
    as U+DCE9 and the name does not encode. *)
Example code_points_of_names :
  Unicode.code_points ("caf" +:+ String "195"%char (String "169"%char ".mp3"))
    = [99; 97; 102; 0xE9; 46; 109; 112; 51]%N
  ∧ Unicode.encodes ("caf" +:+ String "195"%char (String "169"%char ".mp3")) = true
  ∧ Unicode.code_points Scenes.cafe_latin1
    = [99; 97; 102; 0xDCE9; 46; 109; 112; 51]%N
  ∧ Unicode.encodes Scenes.cafe_latin1 = false.
Proof. vm_compute. done. Qed.

(** [sorted] goes by code point, not by byte: the stray byte 80 is U+DC80
    and comes after U+00E9, whose encoding starts with the byte C3. *)
Example sorted_by_code_point :
  sorted [String "128"%char ".mp3"; String "195"%char (String "169"%char ".mp3"); "z.mp3"]
  = ["z.mp3"; String "195"%char (String "169"%char ".mp3"); String "128"%char ".mp3"].
Proof. vm_compute. reflexivity. Qed.

(** C1 as stated does not hold.  The single part of [book_latin1] is
    transcribed without error in the run, and the directory stays: the
    chapter header of the part cannot be encoded, the write raises and the
    [except] clause ends the collection before the move.  The single part of
    [book_archive_taken] is transcribed and written, and the directory
    stays: the closing [shutil.move] raises, both names in the archive being
    taken.  A directory with no audio part, of which every part is
    transcribed for want of any, stays as well. *)
Lemma archival_iff_all_parts_transcribed_fails :
  let dir := "/srv/dropbox/book" in
  let run st :=
    (process_directory Sample.listing_order Sample.strftime Sample.duration
       dir "/srv/output" "/srv/processed" Sample.model st).2 in
  let all_parts_transcribed st :=
    Forall (λ p, ∃ text, transcribe_result (fs st) Sample.model p = inr text)
           (audio_parts (fs st) dir)
    ∧ transcribed (trace (run st)) = audio_parts (fs st) dir in
  ¬ (fs (run Scenes.book_latin1) !! dir = None
     ↔ all_parts_transcribed Scenes.book_latin1)
  ∧ ¬ (fs (run Sample.book_archive_taken) !! dir = None
       ↔ all_parts_transcribed Sample.book_archive_taken)
  ∧ ¬ (fs (run Sample.notes_only) !! dir = None
       ↔ all_parts_transcribed Sample.notes_only).
Proof.
  cbv zeta. split_and!.
  - intros [_ H].
    assert (Hgone := H ltac:(split; [vm_compute; repeat constructor; by eexists
                                    |vm_compute; reflexivity])).
    vm_compute in Hgone. discriminate.
  - intros [_ H].
    assert (Hgone := H ltac:(split; [vm_compute; repeat constructor; by eexists
                                    |vm_compute; reflexivity])).
    vm_compute in Hgone. discriminate.
  - intros [_ H].
    assert (Hgone := H ltac:(split; [by vm_compute|vm_compute; reflexivity])).
    vm_compute in Hgone. discriminate.
Qed.

(** C5 as stated does not hold.  The single part of [book_latin1]
    transcribes in the run, and the aggregate output is not its marker
    followed by its transcript: the marker cannot be encoded, nothing of
    the part is written and the file is left empty.  A directory with no
    audio part has every part transcribed and no aggregate output at all,
    not even one that holds the concatenation over no part. *)
Lemma aggregate_of_transcribed_parts_fails :
  let dir := "/srv/dropbox/book" in
  let out := "/srv/output/book_20260101_000000.txt" in
  let run st :=
    (process_directory Sample.listing_order Sample.strftime Sample.duration
       dir "/srv/output" "/srv/processed" Sample.model st).2 in
  let all_parts_transcribed st :=
    Forall (λ p, ∃ text, transcribe_result (fs st) Sample.model p = inr text)
           (audio_parts (fs st) dir)
    ∧ transcribed (trace (run st)) = audio_parts (fs st) dir in
  ¬ (all_parts_transcribed Scenes.book_latin1 →
     fs (run Scenes.book_latin1) !! out =
     Some (File ("

--- Chapter/Part: " +:+ Scenes.cafe_latin1 +:+ " ---

<alpha>")))
  ∧ fs (run Scenes.book_latin1) !! out = Some (File "")
  ∧ ¬ (all_parts_transcribed Sample.notes_only →
       fs (run Sample.notes_only) !! out = Some (File ""))
  ∧ fs (run Sample.notes_only) !! out = None.
Proof.
  cbv zeta. split_and!.
  - intros H.
    assert (Hout := H ltac:(split; [vm_compute; repeat constructor; by eexists
                                   |vm_compute; reflexivity])).
    vm_compute in Hout. discriminate.
  - vm_compute. reflexivity.
  - intros H.
    assert (Hout := H ltac:(split; [by vm_compute|vm_compute; reflexivity])).
    vm_compute in Hout. discriminate.
  - vm_compute. reflexivity.
Qed.


(** C2, where the script breaks it.  [talk.mp3] is listed before
    [intro.mp3]; its transcript is written, its move to the archive raises
    inside [shutil.move], nothing catches the exception and
    [process_dropbox] ends with it: [intro.mp3] is never looked at. *)
Theorem archival_failure_aborts_the_run :
  let r := process_dropbox Sample.listing_order Sample.strftime Sample.duration
             None Sample.load_model
             "/srv/dropbox" "/srv/output" "/srv/processed" "base" Sample.talk_blocked in
  Sample.listing_order (Fs.children (fs Sample.talk_blocked) "/srv/dropbox")
    = ["talk.mp3"; "intro.mp3"]
  ∧ r.1 = inl (ShutilError "/srv/processed/talk_20260101_000004.mp3/talk.mp3")
  ∧ trace r.2 =
      [Log INFO (LoadingWhisperModel "base");
       Log INFO (ProcessingIndividualFile "talk.mp3");
       Log INFO (ProcessingFile "/srv/dropbox/talk.mp3");
       Transcribe "/srv/dropbox/talk.mp3";
       OpenW "/srv/output/talk.txt";
       Log INFO (TranscriptionSaved "/srv/output/talk.txt");
       Move "/srv/dropbox/talk.mp3" "/srv/processed/talk_20260101_000004.mp3"]
  ∧ fs r.2 !! "/srv/dropbox/intro.mp3" = Some (File "intro")
  ∧ fs r.2 !! "/srv/output/intro.txt" = None.
Proof. vm_compute. done. Qed.

(** C8, where the script breaks it.  On the same input, with Whisper
    imported and the model loaded, the exception of the archival move reaches
    the top level of [main] and the interpreter exits with status 1. *)
Theorem archival_failure_exits_nonzero :
  let r := main Sample.listing_order Sample.strftime Sample.duration
             None Sample.load_model "base" "/srv" Sample.talk_blocked in
  r.1 = inl (ShutilError "/srv/processed/talk_20260101_000004.mp3/talk.mp3")
  ∧ exit_status r.1 = 1
  ∧ Log ERROR FailedToImportWhisper ∉ trace r.2.
Proof.
  vm_compute. split_and!; [done..|]. intros H.
  repeat (apply elem_of_cons in H as [H|H]; [discriminate|]).
  by apply elem_of_nil in H.
Qed.

(** ** The theorems at work on the sample worlds *)

Lemma empty_collection_is_noop_witness :
  process_directory Sample.listing_order Sample.strftime Sample.duration
    "/srv/dropbox/book" "/srv/output" "/srv/processed" Sample.model Sample.notes_only
  = (inr tt, State (fs Sample.notes_only) 0
                   [Log WARNING (NoAudioFilesFound "/srv/dropbox/book")] []).
Proof.
  apply (empty_collection_is_noop Sample.listing_order sample_listing_order_perm
           Sample.strftime Sample.duration
           "/srv/dropbox/book" "/srv/output" "/srv/processed" Sample.model
           Sample.notes_only).
  - vm_compute. reflexivity.
  - intros f Hf. vm_compute in Hf. apply list_elem_of_singleton in Hf as ->.
    vm_compute. reflexivity.
Defined.

Lemma existing_output_skips_transcription_and_archives_witness :
  Fs.exists_ (fs Sample.talk_already_transcribed) "/srv/output/talk.txt" = true
  ∧ process_audio_file Sample.duration "/srv/dropbox/talk.mp3" "/srv/output" Sample.model
      Sample.talk_already_transcribed
    = (inr true, State (fs Sample.talk_already_transcribed) 0
                       [Log INFO (FileAlreadyProcessed "/srv/dropbox/talk.mp3")] []).
Proof.
  split; [vm_compute; reflexivity|].
  destruct (existing_output_skips_transcription_and_archives
              Sample.listing_order Sample.strftime Sample.duration
              "/srv/dropbox" "/srv/output" "/srv/processed" Sample.model "talk.mp3"
              Sample.talk_already_transcribed) as (Hskip & _ & _);
    [vm_compute; reflexivity..|].
  exact Hskip.
Defined.

Lemma failed_transcription_leaves_no_artifact_witness :
  fs (process_item Sample.listing_order Sample.strftime Sample.duration
        "/srv/dropbox" "/srv/output" "/srv/processed" Sample.model "talk.mp3"
        (Sample.talk "noise floor")).2 !! "/srv/output/talk.txt" = None
  ∧ fs (process_item Sample.listing_order Sample.strftime Sample.duration
          "/srv/dropbox" "/srv/output" "/srv/processed" Sample.model "talk.mp3"
          (Sample.talk "noise floor")).2 !! "/srv/dropbox/talk.mp3"
    = Some (File "noise floor").
Proof.
  destruct (failed_transcription_leaves_no_artifact
              Sample.listing_order Sample.strftime Sample.duration
              "/srv/dropbox" "/srv/output" "/srv/processed" Sample.model "talk.mp3"
              "noise floor" (Sample.talk "noise floor"))
    as (_ & _ & Hnone & Hsrc & _); [vm_compute; reflexivity..|].
  split; [exact Hnone|exact Hsrc].
Defined.

Lemma aggregate_output_is_created_before_first_part_witness :
  fs (process_directory Sample.listing_order Sample.strftime Sample.duration
        "/srv/dropbox/book" "/srv/output" "/srv/processed" Sample.model
        (Sample.book "noise" "beta")).2
  = <["/srv/output/book_20260101_000000.txt" := File ""]> (fs (Sample.book "noise" "beta")).
Proof.
  destruct (aggregate_output_is_created_before_first_part
              Sample.listing_order sample_listing_order_perm
              Sample.strftime Sample.duration
              "/srv/dropbox/book" "/srv/output" "/srv/processed" Sample.model
              "/srv/dropbox/book/a.mp3"
              ["/srv/dropbox/book/b.mp3"; "/srv/dropbox/book/c.mp3"]
              (Sample.book "noise" "beta"))
    as (_ & _ & Hempty); [vm_compute; reflexivity..|].
  apply (Hempty (TranscriptionError "/srv/dropbox/book/a.mp3")).
  vm_compute. reflexivity.
Defined.


Lemma aggregate_is_the_sorted_concatenation_witness :
  Sample.listing_order (Fs.children (fs (Sample.book "alpha" "beta")) "/srv/dropbox/book")
    = ["cover.jpg"; "c.mp3"; "b.mp3"; "a.mp3"]
  ∧ fs (process_directory Sample.listing_order Sample.strftime Sample.duration
          "/srv/dropbox/book" "/srv/output" "/srv/processed" Sample.model
          (Sample.book "alpha" "beta")).2
      !! "/srv/output/book_20260101_000000.txt"
    = Some (File "

--- Chapter/Part: a.mp3 ---

<alpha>

--- Chapter/Part: b.mp3 ---

<beta>

--- Chapter/Part: c.mp3 ---

<gamma>").
Proof.
  split; [vm_compute; reflexivity|].
  destruct (aggregate_is_the_sorted_concatenation
              Sample.listing_order sample_listing_order_perm
              Sample.strftime Sample.duration
              "/srv/dropbox/book" "/srv/output" "/srv/processed" Sample.model
              (Sample.book "alpha" "beta"))
    as (names & Hsorted & Hperm & Hout & _);
    [vm_compute; reflexivity
    |vm_compute; reflexivity
    |vm_compute; repeat constructor; by eexists
    |repeat constructor
    |vm_compute; reflexivity
    |vm_compute; reflexivity
    |].
  assert (Hnames : names = sorted ["c.mp3"; "a.mp3"; "b.mp3"]).
  { apply (Sorted_unique Unicode.le); [exact Hsorted|apply sorted_Sorted|].
    rewrite Hperm, sorted_Permutation. vm_compute. reflexivity. }
  rewrite Hnames in Hout. apply Hout. vm_compute. discriminate.
Defined.

Lemma collection_is_archived_iff_all_parts_and_move_succeed_witness :
  fs (process_directory Sample.listing_order Sample.strftime Sample.duration
        "/srv/dropbox/book" "/srv/output" "/srv/processed" Sample.model
        (Sample.book "alpha" "beta")).2 !! "/srv/dropbox/book" = None
  ∧ fs (process_directory Sample.listing_order Sample.strftime Sample.duration
          "/srv/dropbox/book" "/srv/output" "/srv/processed" Sample.model
          (Sample.book "alpha" "noise")).2 !! "/srv/dropbox/book" = Some Dir.
Proof.
  split.
  - destruct (collection_is_archived_iff_all_parts_and_move_succeed
                Sample.listing_order sample_listing_order_perm
                Sample.strftime Sample.duration
                "/srv/dropbox/book" "/srv/output" "/srv/processed" Sample.model
                (Sample.book "alpha" "beta"))
      as ([_ Hgone] & _ & _); [vm_compute; reflexivity..|].
    apply Hgone. split_and!.
    + vm_compute. discriminate.
    + vm_compute. reflexivity.
    + vm_compute. repeat constructor; by eexists.
    + repeat constructor.
    + eexists. vm_compute. reflexivity.
  - destruct (collection_is_archived_iff_all_parts_and_move_succeed
                Sample.listing_order sample_listing_order_perm
                Sample.strftime Sample.duration
                "/srv/dropbox/book" "/srv/output" "/srv/processed" Sample.model
                (Sample.book "alpha" "noise"))
      as (_ & _ & Hstay); [vm_compute; reflexivity..|].
    apply (Hstay "/srv/dropbox/book/b.mp3" (TranscriptionError "/srv/dropbox/book/b.mp3")).
    + vm_compute. repeat constructor.
    + vm_compute. reflexivity.
Defined.

Lemma occupied_timestamped_name_is_overwritten_witness :
  fs Sample.talk_twice_archived !! "/srv/processed/talk_20260101_000000.mp3"
    = Some (File "second take")
  ∧ fs (move_to_processed Sample.strftime "/srv/dropbox/talk.mp3" "/srv/processed"
          Sample.talk_twice_archived).2 !! "/srv/processed/talk_20260101_000000.mp3"
    = Some (File "third take").
Proof.
  split; [vm_compute; reflexivity|].
  destruct (occupied_timestamped_name_is_overwritten Sample.strftime
              "/srv/dropbox/talk.mp3" "/srv/processed" "third take" "second take"
              Sample.talk_twice_archived)
    as (_ & Hover & _);
    [vm_compute; reflexivity
    |vm_compute; reflexivity
    |vm_compute; reflexivity
    |vm_compute; reflexivity
    |vm_compute; discriminate
    |].
  exact Hover.
Defined.

(** * Beyond the claims

    The rest of the script: the functions the claims do not reach, and what
    the ones they reach do on the inputs the claims leave out.  The
    filesystem of the model holds what the filesystem calls of the script
    see; the log file of the [logging] module is not a path of it, the log
    is the trace. *)

(** What [str.lower] maps to the four characters of the extension. *)
Lemma lower_char_mp3 (a : ascii) :
  (Str.lower_char a = "."%char ↔ a = "."%char)
  ∧ (Str.lower_char a = "m"%char ↔ a = "m"%char ∨ a = "M"%char)
  ∧ (Str.lower_char a = "p"%char ↔ a = "p"%char ∨ a = "P"%char)
  ∧ (Str.lower_char a = "3"%char ↔ a = "3"%char).
Proof.
  destruct a as [[] [] [] [] [] [] [] []];
    (split_and!; split; intros H;
     try (vm_compute in H; discriminate H);
     try (destruct H as [H|H]; discriminate H);
     first [reflexivity | by left | by right]).
Qed.

(** X1. [is_audio_file] accepts exactly the names that end in a dot,
    [m] or [M], [p] or [P], and [3]: the four spellings of [.mp3] that
    differ in the case of the letters, and no other suffix. *)
Theorem is_audio_file_iff_mp3_suffix filename :
  is_audio_file filename = true
  ↔ ∃ stem m p,
      filename = stem +:+ String "."%char (String m (String p "3"))
      ∧ (m = "m"%char ∨ m = "M"%char)
      ∧ (p = "p"%char ∨ p = "P"%char).
Proof.
  unfold is_audio_file, audio_extensions. cbn [existsb]. rewrite orb_false_r. split.
  - unfold Str.endswith. intros [_ H%bool_decide_eq_true]%andb_true_iff.
    rewrite len_lower, <- lower_drop in H.
    pose proof (take_drop (Str.len filename - Str.len ".mp3") filename) as Hsplit.
    destruct (Str.drop (Str.len filename - Str.len ".mp3") filename)
      as [|a [|b [|c [|d [|x ext]]]]]; try discriminate H.
    cbn [Str.lower] in H. injection H as Ha Hb Hc Hd.
    apply (lower_char_mp3 a) in Ha as ->. apply (lower_char_mp3 b) in Hb.
    apply (lower_char_mp3 c) in Hc. apply (lower_char_mp3 d) in Hd as ->.
    by exists (Str.take (Str.len filename - Str.len ".mp3") filename), b, c.
  - intros (stem & m & p & -> & Hm & Hp).
    rewrite lower_app. cbn [Str.lower].
    assert (Str.lower_char "." = "."%char) as -> by reflexivity.
    assert (Str.lower_char "3" = "3"%char) as -> by reflexivity.
    apply (lower_char_mp3 m) in Hm as ->. apply (lower_char_mp3 p) in Hp as ->.
    apply (endswith_app (Str.lower stem) ".mp3").
Qed.

(** X2. The transcript of [stem.ext] is [stem.txt] in the output
    directory, whatever directory the audio is in and whatever its
    extension. *)
Theorem get_output_filename_keeps_only_the_stem dir stem ext output_dir :
  Str.contains Path.sep stem = false → Path.has_nondot stem = true →
  Str.contains "."%char ext = false → Str.contains Path.sep ext = false →
  get_output_filename (Path.join dir (stem +:+ "." +:+ ext)) output_dir
  = Path.join output_dir (stem +:+ ".txt").
Proof.
  intros Hstem Hnondot Hext Hsep. unfold get_output_filename.
  rewrite basename_join.
  2:{ rewrite contains_app, Hstem. change ("." +:+ ext) with (String "."%char ext).
      cbn [Str.contains orb]. by rewrite Hsep. }
  by rewrite splitext_stem_ext.
Qed.

(** One round of the loop of [setup_directories]. *)
Lemma setup_directories_round name path st :
  (fs_call (Os.makedirs path true);; logger INFO (DirectoryReady name path)) st
  = match Os.makedirs path true (fs st) with
    | inl e => (inl e, st)
    | inr m => (inr tt, emit (Log INFO (DirectoryReady name path)) (set_fs (λ _, m) st))
    end.
Proof.
  rewrite bind_run. unfold fs_call. by destruct (Os.makedirs path true (fs st)).
Qed.

Lemma setup_directories_run base_dir st :
  let d := Directories (Path.join base_dir "dropbox") (Path.join base_dir "output")
                       (Path.join base_dir "processed") in
  setup_directories base_dir st =
  match Os.makedirs (dropbox d) true (fs st) with
  | inl e => (inl e, st)
  | inr m1 =>
      let st1 := emit (Log INFO (DirectoryReady "dropbox" (dropbox d))) (set_fs (λ _, m1) st) in
      match Os.makedirs (output d) true m1 with
      | inl e => (inl e, st1)
      | inr m2 =>
          let st2 := emit (Log INFO (DirectoryReady "output" (output d)))
                          (set_fs (λ _, m2) st1) in
          match Os.makedirs (processed d) true m2 with
          | inl e => (inl e, st2)
          | inr m3 =>
              (inr d, emit (Log INFO (DirectoryReady "processed" (processed d)))
                        (set_fs (λ _, m3) st2))
          end
      end
  end.
Proof.
  intros d. unfold setup_directories. fold d. cbn [for_each].
  rewrite bind_run, bind_run, setup_directories_round.
  destruct (Os.makedirs (dropbox d) true (fs st)) as [e|m1]; [done|]. cbn beta iota zeta.
  rewrite bind_run, setup_directories_round. cbn [fs emit set_fs].
  destruct (Os.makedirs (output d) true m1) as [e|m2]; [done|]. cbn beta iota zeta.
  rewrite bind_run, setup_directories_round. cbn [fs emit set_fs].
  destruct (Os.makedirs (processed d) true m2) as [e|m3]; [done|]. done.
Qed.

Lemma layout_names_differ base_dir :
  Path.join base_dir "dropbox" ≠ Path.join base_dir "output"
  ∧ Path.join base_dir "dropbox" ≠ Path.join base_dir "processed"
  ∧ Path.join base_dir "output" ≠ Path.join base_dir "processed".
Proof.
  rewrite (join_relative base_dir "dropbox"), (join_relative base_dir "output"),
    (join_relative base_dir "processed") by done.
  split_and!; by intros ?%sapp_inj.
Qed.

(** X3. When [setup_directories] returns, the three locations it names are
    directories, under the names [dropbox], [output] and [processed] of the
    base directory, and everything that was there before still is. *)
Theorem setup_directories_makes_the_three_directories base_dir st d st' :
  setup_directories base_dir st = (inr d, st') →
  d = Directories (Path.join base_dir "dropbox") (Path.join base_dir "output")
                  (Path.join base_dir "processed")
  ∧ Fs.isdir (fs st') (dropbox d) = true
  ∧ Fs.isdir (fs st') (output d) = true
  ∧ Fs.isdir (fs st') (processed d) = true
  ∧ ∀ p v, fs st !! p = Some v → fs st' !! p = Some v.
Proof.
  rewrite setup_directories_run. cbv zeta. cbn [dropbox output processed].
  destruct (Os.makedirs _ true (fs st)) as [e|m1] eqn:H1; [done|].
  destruct (Os.makedirs _ true m1) as [e|m2] eqn:H2; [done|].
  destruct (Os.makedirs _ true m2) as [e|m3] eqn:H3; [done|].
  intros [= <- <-]. cbn [fs emit set_fs dropbox output processed].
  assert (Hbase : ∀ n, Str.contains Path.sep n = false → n ≠ "" → n ≠ "." →
            Path.basename (Path.join base_dir n) ≠ ""
            ∧ Path.basename (Path.join base_dir n) ≠ ".").
  { intros n Hn ? ?. by rewrite basename_join. }
  destruct (Hbase "dropbox") as [? ?]; [done..|].
  destruct (Hbase "output") as [? ?]; [done..|].
  destruct (Hbase "processed") as [? ?]; [done..|].
  apply makedirs_isdir in H1 as D1; [|done..].
  apply makedirs_isdir in H2 as D2; [|done..].
  apply makedirs_isdir in H3 as D3; [|done..].
  assert (Hkeep : ∀ m m' name p, Os.makedirs name true m = inr m' →
            Fs.isdir m p = true → Fs.isdir m' p = true).
  { intros m m' name p Hm. unfold Fs.isdir. rewrite !bool_decide_eq_true.
    by eapply makedirs_mono. }
  split_and!; [done|eauto..|].
  intros p v Hp. eauto using makedirs_mono.
Qed.

(** X4. On a base directory that is there, where none of the three names
    is taken by a regular file, [setup_directories] returns having made
    exactly the directories that were missing; on a base that is set up
    already it changes nothing. *)
Theorem setup_directories_makes_what_is_missing base_dir st :
  let d := Directories (Path.join base_dir "dropbox") (Path.join base_dir "output")
                       (Path.join base_dir "processed") in
  Fs.parent_ok (fs st) (dropbox d) = true →
  (∀ p, p ∈ [dropbox d; output d; processed d] →
        fs st !! p = None ∨ fs st !! p = Some Dir) →
  setup_directories base_dir st
  = (inr d,
     State (<[processed d := Dir]> (<[output d := Dir]> (<[dropbox d := Dir]> (fs st))))
           (clock st)
           (trace st ++ [Log INFO (DirectoryReady "dropbox" (dropbox d));
                         Log INFO (DirectoryReady "output" (output d));
                         Log INFO (DirectoryReady "processed" (processed d))])
           (processed_files st))
  ∧ (Fs.isdir (fs st) (dropbox d) = true → Fs.isdir (fs st) (output d) = true →
     Fs.isdir (fs st) (processed d) = true →
     fs (setup_directories base_dir st).2 = fs st).
Proof.
  intros d Hparent Hfree.
  destruct (layout_names_differ base_dir) as (Hdo & Hdp & Hop).
  assert (Hparents : ∀ n, Str.contains Path.sep n = false →
            Fs.parent_ok (fs st) (Path.join base_dir n) = true).
  { intros n Hn. unfold Fs.parent_ok in *.
    by rewrite (dirname_join_indep base_dir n "dropbox"). }
  assert (Hbase : ∀ n, Str.contains Path.sep n = false → n ≠ "" →
            Path.basename (Path.join base_dir n) ≠ "").
  { intros n Hn ?. by rewrite basename_join. }
  assert (Hrun : setup_directories base_dir st
    = (inr d,
       State (<[processed d := Dir]> (<[output d := Dir]> (<[dropbox d := Dir]> (fs st))))
             (clock st)
             (trace st ++ [Log INFO (DirectoryReady "dropbox" (dropbox d));
                           Log INFO (DirectoryReady "output" (output d));
                           Log INFO (DirectoryReady "processed" (processed d))])
             (processed_files st))).
  { rewrite setup_directories_run. cbv zeta. fold d. cbn [dropbox output processed d].
    rewrite makedirs_ready; [|by apply Hparents|by apply Hbase|].
    2:{ apply Hfree. set_solver. }
    rewrite makedirs_ready;
      [|by apply parent_ok_insert_dir, Hparents|by apply Hbase|].
    2:{ rewrite lookup_insert_ne by done. apply Hfree. set_solver. }
    rewrite makedirs_ready;
      [|by do 2 apply parent_ok_insert_dir; apply Hparents|by apply Hbase|].
    2:{ rewrite !lookup_insert_ne by done. apply Hfree. set_solver. }
    destruct st; unfold emit, set_fs; cbn. by rewrite <- !List.app_assoc. }
  split; [exact Hrun|].
  intros D1 D2 D3. rewrite Hrun. cbn [snd fs].
  unfold Fs.isdir in D1, D2, D3. apply bool_decide_eq_true in D1, D2, D3.
  rewrite (insert_id _ _ _ D1), (insert_id _ _ _ D2). by apply insert_id.
Qed.

Lemma preserves_bind {A B} p v (m : M A) (k : A → M B) :
  preserves p v m → (∀ x, preserves p v (k x)) → preserves p v (m ≫= k).
Proof.
  intros Hm Hk st Hp. rewrite bind_run. specialize (Hm st Hp).
  destruct (m st) as [[e|x] st1]; [done|]. by apply Hk.
Qed.

Lemma preserves_pure {A} p v (m : M A) :
  (∀ st, fs (m st).2 = fs st) → preserves p v m.
Proof. intros H st Hp. by rewrite H. Qed.

Lemma preserves_try_except {A} p v catches (body : M A) handler :
  preserves p v body → (∀ e, preserves p v (handler e)) →
  preserves p v (try_except catches body handler).
Proof.
  intros Hbody Hhandler st Hp. unfold try_except. specialize (Hbody st Hp).
  destruct (body st) as [[e|x] st1]; [|done].
  destruct (catches e); [|done]. by apply Hhandler.
Qed.

Lemma preserves_for_each {A} p v (l : list A) (body : A → M unit) :
  (∀ x, x ∈ l → preserves p v (body x)) → preserves p v (for_each l body).
Proof.
  induction l as [|x l IH]; intros Hbody; [by apply preserves_pure|].
  cbn [for_each]. apply preserves_bind; [apply Hbody; left|intros _].
  apply IH. intros y Hy. apply Hbody. by right.
Qed.


Section Coverage.
Variable listing_order : list string → list string.
Hypothesis listing_order_perm : ∀ l, listing_order l ≡ₚ l.
Variable strftime : nat → string.
Variable duration : string → nat.

(** [process_audio_file], every branch of it. *)
Lemma process_audio_file_run file_path output_dir model st :
  let out := get_output_filename file_path output_dir in
  let t1 := (clock st + transcribe_seconds duration (fs st) file_path)%nat in
  let entered := [Log INFO (ProcessingFile file_path); Transcribe file_path] in
  process_audio_file duration file_path output_dir model st =
  if negb (Fs.exists_ (fs st) file_path) then
    (inr false, emit (Log ERROR (FileNotFound file_path)) st)
  else if Fs.exists_ (fs st) out then
    (inr true, emit (Log INFO (FileAlreadyProcessed file_path)) st)
  else
    match transcribe_result (fs st) model file_path with
    | inl e =>
        (inr false,
         State (fs st) t1
               (trace st ++ entered ++ [Log ERROR (ErrorProcessing file_path e)])
               (processed_files st))
    | inr text =>
        if Fs.parent_ok (fs st) out then
          (inr true,
           State (<[out := File text]> (fs st)) t1
                 (trace st ++ entered ++ [OpenW out; Log INFO (TranscriptionSaved out)])
                 (processed_files st))
        else
          (inr false,
           State (fs st) t1
                 (trace st ++ entered
                    ++ [OpenW out;
                        Log ERROR (ErrorProcessing file_path (FileNotFoundError out))])
                 (processed_files st))
    end.
Proof.
  intros out t1 entered. unfold process_audio_file. fold out.
  rewrite bind_run. unfold os_path_exists at 1. cbn beta iota.
  destruct (Fs.exists_ (fs st) file_path); cbn [negb]; cbn beta iota; [|reflexivity].
  rewrite bind_run. unfold os_path_exists at 1. cbn beta iota.
  destruct (Fs.exists_ (fs st) out) eqn:Hout; [reflexivity|].
  unfold try_except.
  rewrite bind_run, logger_run. cbn beta iota.
  rewrite bind_run, transcribe_run. cbn [fs emit].
  destruct (transcribe_result (fs st) model file_path) as [e|text] eqn:Hres.
  - rewrite (transcribe_result_Exception _ _ _ _ Hres).
    rewrite bind_run, logger_run. cbn beta iota. unfold mret, M_ret.
    destruct st; unfold emit, set_clock; cbn. subst entered.
    by rewrite <- !List.app_assoc.
  - rewrite bind_run.
    assert (Hnotdir : Fs.isdir (fs st) out = false).
    { unfold Fs.exists_, Fs.isdir in *. apply bool_decide_eq_false in Hout.
      apply bool_decide_eq_false_2. intros H. apply Hout. eauto. }
    unfold open_w. rewrite bind_run. cbn [modify]. unfold fs_call.
    cbn [fs emit set_clock]. rewrite Hnotdir.
    destruct (Fs.parent_ok (fs st) out).
    + cbn beta iota. rewrite bind_run.
      erewrite write_run by (cbn; apply lookup_insert_eq). cbn beta iota.
      rewrite bind_run, logger_run. cbn beta iota. unfold mret, M_ret.
      destruct st; unfold emit, set_clock, set_fs; cbn. subst entered.
      rewrite insert_insert_eq. by rewrite <- !List.app_assoc.
    + cbn beta iota. cbn [is_Exception].
      rewrite bind_run, logger_run. cbn beta iota. unfold mret, M_ret.
      destruct st; unfold emit, set_clock; cbn. subst entered.
      by rewrite <- !List.app_assoc.
Qed.

(** X5. A file that is there, has no transcript yet and transcribes: the
    transcript holds the text of the model and nothing else, the source is
    as it was, the clock has advanced by the transcription, and
    [process_audio_file] reports success. *)
Theorem process_audio_file_writes_the_transcript
    file_path output_dir model audio text st :
  let out := get_output_filename file_path output_dir in
  fs st !! file_path = Some (File audio) →
  Fs.exists_ (fs st) out = false →
  Fs.parent_ok (fs st) out = true →
  model audio = Some text →
  process_audio_file duration file_path output_dir model st
  = (inr true,
     State (<[out := File text]> (fs st)) (clock st + duration audio)
           (trace st ++ [Log INFO (ProcessingFile file_path); Transcribe file_path;
                         OpenW out; Log INFO (TranscriptionSaved out)])
           (processed_files st)).
Proof.
  intros out Hfile Hout Hparent Htext. rewrite process_audio_file_run. fold out.
  assert (Fs.exists_ (fs st) file_path = true) as ->.
  { unfold Fs.exists_. apply bool_decide_eq_true_2. eauto. }
  rewrite Hout, Hparent. cbn [negb].
  unfold transcribe_result, transcribe_seconds. by rewrite Hfile, Htext.
Qed.

(** X6. [process_audio_file] never raises, the only path it can change is
    the transcript's, and when it reports failure (the file is missing, the
    transcription raised, or the transcript could not be opened) it has
    changed nothing.  A write to the opened transcript does not fail in
    this world. *)
Theorem process_audio_file_touches_only_the_transcript
    file_path output_dir model st :
  ∃ ok st',
    process_audio_file duration file_path output_dir model st = (inr ok, st')
    ∧ (∀ p, p ≠ get_output_filename file_path output_dir → fs st' !! p = fs st !! p)
    ∧ fs st' !! file_path = fs st !! file_path
    ∧ (ok = false → fs st' = fs st).
Proof.
  rewrite process_audio_file_run.
  destruct (Fs.exists_ (fs st) file_path) eqn:Hfile; cbn [negb];
    [|by eexists _, _].
  destruct (Fs.exists_ (fs st) (get_output_filename file_path output_dir)) eqn:Hout;
    [by eexists _, _|].
  destruct (transcribe_result (fs st) model file_path); [by eexists _, _|].
  destruct (Fs.parent_ok (fs st) _); [|by eexists _, _].
  eexists _, _. split; [reflexivity|]. cbn [fs]. split_and!; [| |done].
  - intros p Hp. by rewrite lookup_insert_ne.
  - rewrite lookup_insert_ne; [done|]. intros Heq. congruence.
Qed.

(** X7. A file whose name is free in the archive is moved there under its
    own name: after [move_to_processed] the archive holds the bytes of the
    file, the file is gone from where it was, and no other path has
    changed. *)
Theorem move_to_processed_keeps_a_free_name file_path processed_dir content st :
  let dest_path := Path.join processed_dir (Path.basename file_path) in
  fs st !! file_path = Some (File content) →
  fs st !! dest_path = None →
  Fs.parent_ok (fs st) dest_path = true →
  move_to_processed strftime file_path processed_dir st
  = (inr tt,
     State (<[dest_path := File content]> (delete file_path (fs st))) (clock st)
           (trace st ++ [Move file_path dest_path;
                         Log INFO (MovedProcessedFile dest_path)])
           (processed_files st)).
Proof.
  intros dest_path Hfile Hfree Hparent.
  rewrite move_to_processed_run by by eapply exists_true_Some.
  cbv zeta. unfold file_archive_path. fold dest_path.
  rewrite (proj2 (exists_false_None _ _) Hfree).
  rewrite (move_file_to_free _ _ _ content) by done.
  destruct st; unfold emit, set_fs; cbn. by rewrite <- List.app_assoc.
Qed.

(** X8. A file whose name is taken in the archive is moved under the name
    with the timestamp between stem and extension, when that one is free:
    the archive then holds both, the earlier occupant untouched. *)
Theorem move_to_processed_stamps_a_duplicate_name
    file_path processed_dir content occupant st :
  let filename := Path.basename file_path in
  let taken := Path.join processed_dir filename in
  let stamped :=
    Path.join processed_dir
      ((Path.splitext filename).1 +:+ "_" +:+ strftime (clock st)
       +:+ (Path.splitext filename).2) in
  let r := move_to_processed strftime file_path processed_dir st in
  fs st !! file_path = Some (File content) →
  fs st !! taken = Some occupant →
  fs st !! stamped = None →
  Fs.parent_ok (fs st) stamped = true →
  taken ≠ file_path →
  r.1 = inr tt
  ∧ fs r.2 = <[stamped := File content]> (delete file_path (fs st))
  ∧ fs r.2 !! taken = Some occupant.
Proof.
  intros filename taken stamped r Hfile Htaken Hfree Hparent Hne. subst r.
  rewrite move_to_processed_run by by eapply exists_true_Some.
  cbv zeta. unfold file_archive_path. fold filename taken.
  rewrite (exists_true_Some _ _ _ Htaken). fold stamped.
  rewrite (move_file_to_free _ _ _ content) by done.
  cbn [fst snd fs trace emit set_fs].
  assert (stamped ≠ taken) by congruence.
  split_and!; [done..|].
  by rewrite lookup_insert_ne, lookup_delete_ne.
Qed.

(** X9. One audio file of the drop location, end to end: with no
    transcript yet, a model that transcribes it and a free name in the
    archive, [process_item] leaves the transcript in the output directory
    and the file in the archive, byte for byte, and nothing of it in the
    drop location. *)
Theorem fresh_audio_file_is_transcribed_then_archived
    dropbox_dir output_dir processed_dir model item audio text st :
  let item_path := Path.join dropbox_dir item in
  let out := get_output_filename item_path output_dir in
  let dest_path := Path.join processed_dir (Path.basename item_path) in
  fs st !! item_path = Some (File audio) →
  is_audio_file item = true →
  model audio = Some text →
  Fs.exists_ (fs st) out = false →
  Fs.parent_ok (fs st) out = true →
  fs st !! dest_path = None →
  Fs.parent_ok (fs st) dest_path = true →
  dest_path ≠ out →
  process_item listing_order strftime duration
    dropbox_dir output_dir processed_dir model item st
  = (inr tt,
     State (<[dest_path := File audio]> (delete item_path (<[out := File text]> (fs st))))
           (clock st + duration audio)
           (trace st ++ [Log INFO (ProcessingIndividualFile item);
                         Log INFO (ProcessingFile item_path); Transcribe item_path;
                         OpenW out; Log INFO (TranscriptionSaved out);
                         Move item_path dest_path;
                         Log INFO (MovedProcessedFile dest_path)])
           (processed_files st)).
Proof.
  intros item_path out dest_path Hfile Haudio Htext Hout Hparent Hfree Hdest Hne.
  assert (Hsrc : item_path ≠ out).
  { intros Heq. apply exists_false_None in Hout. congruence. }
  unfold process_item. fold item_path.
  rewrite bind_run. unfold os_path_isdir at 1.
  assert (Fs.isdir (fs st) item_path = false) as ->.
  { unfold Fs.isdir. apply bool_decide_eq_false_2. by rewrite Hfile. }
  rewrite Haudio. cbn beta iota.
  rewrite bind_run, logger_run. cbn beta iota.
  rewrite bind_run, process_audio_file_run. fold out. cbn [fs emit].
  rewrite (exists_true_Some _ _ _ Hfile), Hout, Hparent. cbn [negb].
  unfold transcribe_result, transcribe_seconds. rewrite Hfile, Htext.
  cbn beta iota.
  assert (Hfile1 : (<[out := File text]> (fs st)) !! item_path = Some (File audio))
    by by rewrite lookup_insert_ne.
  rewrite move_to_processed_run by (cbn [fs]; by eapply exists_true_Some).
  cbv zeta. cbn [fs clock]. unfold file_archive_path. fold dest_path.
  assert (Hfree1 : (<[out := File text]> (fs st)) !! dest_path = None)
    by by rewrite lookup_insert_ne.
  rewrite (proj2 (exists_false_None _ _) Hfree1).
  rewrite (move_file_to_free _ _ _ audio); [|done..|].
  2:{ rewrite parent_ok_insert_file; [done|]. by apply exists_isdir_false. }
  unfold emit, set_fs. cbn. by rewrite <- !List.app_assoc.
Qed.

(** X10. [process_directory] never raises: whatever the state of the
    directory, of the output location and of the archive, and whatever the
    model does, it returns to its caller.  The listing of the directory is
    outside the [try], but it follows the [os.path.isdir] test with nothing
    in between, and a directory that is there can be listed. *)
Theorem process_directory_never_raises dir_path output_dir processed_dir model st :
  ∃ st',
    process_directory listing_order strftime duration
      dir_path output_dir processed_dir model st = (inr tt, st').
Proof.
  destruct (process_directory_returns listing_order strftime duration
              dir_path output_dir processed_dir model st) as ([] & st' & Hrun).
  by exists st'.
Qed.

(** X11. When the aggregate output cannot be opened (its directory is
    missing, or a directory has its name), no part is transcribed, the
    filesystem and the clock are as they were, and the report says 0 parts
    out of the total. *)
Theorem unwritable_aggregate_output_stops_before_the_first_part
    dir_path output_dir processed_dir model st :
  let parts := audio_parts (fs st) dir_path in
  let out := audiobook_output strftime dir_path output_dir st in
  let r := process_directory listing_order strftime duration
             dir_path output_dir processed_dir model st in
  Fs.isdir (fs st) dir_path = true →
  parts ≠ [] →
  can_open_w (fs st) out = false →
  r.1 = inr tt
  ∧ fs r.2 = fs st
  ∧ clock r.2 = clock st
  ∧ ∃ events,
      trace r.2 = (trace st ++ events)%list
      ∧ transcribed events = []
      ∧ moves events = []
      ∧ last events = Some (Log INFO (ProcessedBeforeError 0 (List.length parts))).
Proof.
  intros parts out r Hdir Hparts Hopen. subst r.
  destruct (process_directory_open_fails listing_order listing_order_perm strftime duration
              dir_path output_dir processed_dir model st Hdir Hparts Hopen) as [e ->].
  cbn [fst snd fs clock trace]. split_and!; [done..|].
  eexists. split; [reflexivity|]. done.
Qed.

(** A collection whose parts all transcribe, with file names that encode,
    and whose closing [shutil.move] is the rename of its tree to [real]. *)
Lemma process_directory_moves_the_tree
    dir_path output_dir processed_dir model st real y :
  let parts := audio_parts (fs st) dir_path in
  let out := audiobook_output strftime dir_path output_dir st in
  let m1 := <[out := File (aggregate (fs st) model parts)]> (fs st) in
  let st' := (process_directory listing_order strftime duration
                dir_path output_dir processed_dir model st).2 in
  Fs.isdir (fs st) dir_path = true →
  parts ≠ [] →
  can_open_w (fs st) out = true →
  Forall (λ p, ∃ text, transcribe_result (fs st) model p = inr text) parts →
  Forall (λ p, Unicode.encodes (Path.basename p) = true) parts →
  Str.startswith out dir_path = false →
  Str.startswith out processed_dir = false →
  Str.startswith dir_path processed_dir = false →
  Str.startswith processed_dir dir_path = false →
  real = processed_dir +:+ y →
  Os.move dir_path (archive_path m1 dir_path processed_dir (strftime (clock st))) m1
    = inr (Fs.move_tree dir_path real m1) →
  (∀ rel v, rel = "" ∨ Str.startswith rel "/" = true →
            fs st !! (dir_path +:+ rel) = Some v →
            fs st' !! (real +:+ rel) = Some v ∧ fs st' !! (dir_path +:+ rel) = None)
  ∧ (∀ p, Fs.in_tree dir_path p = false → Fs.in_tree real p = false → p ≠ out →
          fs st' !! p = fs st !! p).
Proof.
  intros parts out m1 st' Hdir Hparts Hopen Hall Hnames Hout Hout_proc Hdir_proc Hproc_dir
    Hreal Hmove.
  subst st'. rewrite process_directory_all_ok; try done.
  2:{ by apply first_failure_None_iff. }
  fold parts out m1. rewrite Hmove. cbn [snd fs]. split.
  - intros rel v Hrel Hv. split.
    + apply move_tree_lookup_moved; [by apply in_tree_app|].
      subst m1. rewrite lookup_insert_ne; [done|]. intros Heq.
      by rewrite Heq, startswith_app in Hout.
    + apply move_tree_tree_gone; [by apply in_tree_app|].
      rewrite Hreal. by apply apart_startswith.
  - intros p Htree Hp Hne. rewrite move_tree_lookup_apart by done.
    subst m1. by rewrite lookup_insert_ne.
Qed.

(** X12. A collection whose parts all transcribe, whose part file names
    are valid UTF-8 (so that every chapter header is written) and whose name
    in the archive (the natural one, or the timestamped one when the natural
    one is taken) is free ends up there entry by entry: every path of the
    directory is found under the archive name with the node it had, none is
    left in the drop location, and every path that is neither the directory
    or below it, nor the archive name or below it, nor the aggregate output,
    is as it was. *)
Theorem collection_is_archived_entry_by_entry
    dir_path output_dir processed_dir model st :
  let parts := audio_parts (fs st) dir_path in
  let out := audiobook_output strftime dir_path output_dir st in
  let natural := Path.join processed_dir (Path.basename dir_path) in
  let dest := if Fs.exists_ (fs st) natural
              then natural +:+ "_" +:+ strftime (clock st) else natural in
  let st' := (process_directory listing_order strftime duration
                dir_path output_dir processed_dir model st).2 in
  Fs.isdir (fs st) dir_path = true →
  parts ≠ [] →
  can_open_w (fs st) out = true →
  Forall (λ p, ∃ text, transcribe_result (fs st) model p = inr text) parts →
  Forall (λ p, Unicode.encodes (Path.basename p) = true) parts →
  fs st !! dest = None →
  Fs.parent_ok (fs st) dest = true →
  Str.startswith out dir_path = false →
  Str.startswith out processed_dir = false →
  Str.startswith dir_path processed_dir = false →
  Str.startswith processed_dir dir_path = false →
  (∀ rel v, rel = "" ∨ Str.startswith rel "/" = true →
            fs st !! (dir_path +:+ rel) = Some v →
            fs st' !! (dest +:+ rel) = Some v ∧ fs st' !! (dir_path +:+ rel) = None)
  ∧ (∀ p, Fs.in_tree dir_path p = false → Fs.in_tree dest p = false → p ≠ out →
          fs st' !! p = fs st !! p).
Proof.
  intros parts out natural dest st' Hdir Hparts Hopen Hall Hnames Hfree Hparent
    Hout Hout_proc Hdir_proc Hproc_dir.
  assert (Hhere : fs st !! dir_path = Some Dir).
  { unfold Fs.isdir in Hdir. by apply bool_decide_eq_true in Hdir. }
  destruct (join_name_extends processed_dir (Path.basename dir_path)
              (basename_no_sep dir_path)) as [x Hnatural].
  fold natural in Hnatural.
  assert (Hdest : ∃ y, dest = processed_dir +:+ y).
  { subst dest. destruct (Fs.exists_ (fs st) natural); rewrite Hnatural; [|by eexists].
    rewrite sapp_assoc. by eexists. }
  destruct Hdest as [y Hdest].
  assert (Hout_natural : out ≠ natural).
  { apply startswith_false_ne. rewrite Hnatural. by apply startswith_false_app. }
  assert (Hnotdir : Fs.isdir (fs st) out = false).
  { unfold can_open_w in Hopen. apply andb_true_iff in Hopen as [Hd _].
    by apply negb_true_iff in Hd. }
  apply (process_directory_moves_the_tree _ _ _ _ _ dest y); try done.
  fold parts out. set (m1 := <[out := File _]> (fs st)).
  assert (archive_path m1 dir_path processed_dir (strftime (clock st)) = dest) as ->.
  { unfold archive_path. fold natural. subst m1. by rewrite exists_insert_ne. }
  assert (Hout_dest : out ≠ dest).
  { apply startswith_false_ne. rewrite Hdest. by apply startswith_false_app. }
  apply move_dir_to_free.
  - subst m1. rewrite lookup_insert_ne; [done|]. by apply startswith_false_ne.
  - subst m1. by rewrite lookup_insert_ne.
  - subst m1. by rewrite parent_ok_insert_file.
  - apply not_true_is_false. intros [q Hq]%in_tree_inv. rewrite Hdest in Hq.
    by eapply (apart_no_common_extension processed_dir dir_path).
Qed.

(** X13. A collection nested in a timestamped directory that is taken.
    Take a collection with at least one part, whose aggregate output can be
    opened, whose parts all transcribe and have file names that are valid
    UTF-8, with the collection and the archive apart (neither path extends
    the other) and the aggregate output extending neither.  When the natural
    name of the collection is taken in the archive and the timestamped name
    is a directory that is there already, with no entry of the collection's
    name in it, [shutil.move] moves the collection inside that directory: it
    ends up one level down, under its own name, entry by entry, and none of
    its entries is left in the drop location. *)
Theorem collection_is_nested_in_a_taken_timestamped_directory
    dir_path output_dir processed_dir model st :
  let parts := audio_parts (fs st) dir_path in
  let out := audiobook_output strftime dir_path output_dir st in
  let natural := Path.join processed_dir (Path.basename dir_path) in
  let stamped := natural +:+ "_" +:+ strftime (clock st) in
  let nested := Path.join stamped (Path.basename (Str.rstrip_slash dir_path)) in
  let st' := (process_directory listing_order strftime duration
                dir_path output_dir processed_dir model st).2 in
  Fs.isdir (fs st) dir_path = true →
  parts ≠ [] →
  can_open_w (fs st) out = true →
  Forall (λ p, ∃ text, transcribe_result (fs st) model p = inr text) parts →
  Forall (λ p, Unicode.encodes (Path.basename p) = true) parts →
  Fs.exists_ (fs st) natural = true →
  Fs.isdir (fs st) stamped = true →
  fs st !! nested = None →
  Fs.parent_ok (fs st) nested = true →
  Str.startswith out dir_path = false →
  Str.startswith out processed_dir = false →
  Str.startswith dir_path processed_dir = false →
  Str.startswith processed_dir dir_path = false →
  ∀ rel v, rel = "" ∨ Str.startswith rel "/" = true →
           fs st !! (dir_path +:+ rel) = Some v →
           fs st' !! (nested +:+ rel) = Some v ∧ fs st' !! (dir_path +:+ rel) = None.
Proof.
  intros parts out natural stamped nested st' Hdir Hparts Hopen Hall Hnames Htaken Hstamped
    Hfree Hparent Hout Hout_proc Hdir_proc Hproc_dir.
  assert (Hhere : fs st !! dir_path = Some Dir).
  { unfold Fs.isdir in Hdir. by apply bool_decide_eq_true in Hdir. }
  destruct (join_name_extends processed_dir (Path.basename dir_path)
              (basename_no_sep dir_path)) as [x Hnatural].
  fold natural in Hnatural.
  destruct (join_name_extends stamped (Path.basename (Str.rstrip_slash dir_path))
              (basename_no_sep _)) as [z Hnested].
  fold nested in Hnested.
  assert (Hstamped_eq : stamped = processed_dir +:+ (x +:+ "_" +:+ strftime (clock st))).
  { subst stamped. by rewrite Hnatural, sapp_assoc. }
  assert (Hnested_eq : nested
            = processed_dir +:+ ((x +:+ "_" +:+ strftime (clock st)) +:+ z)).
  { by rewrite Hnested, Hstamped_eq, sapp_assoc. }
  assert (Hout_natural : out ≠ natural).
  { apply startswith_false_ne. rewrite Hnatural. by apply startswith_false_app. }
  assert (Hout_stamped : out ≠ stamped).
  { apply startswith_false_ne. rewrite Hstamped_eq. by apply startswith_false_app. }
  assert (Hout_nested : out ≠ nested).
  { apply startswith_false_ne. rewrite Hnested_eq. by apply startswith_false_app. }
  assert (Hnotdir : Fs.isdir (fs st) out = false).
  { unfold can_open_w in Hopen. apply andb_true_iff in Hopen as [Hd _].
    by apply negb_true_iff in Hd. }
  eapply (process_directory_moves_the_tree _ _ _ _ _ nested); try done.
  fold parts out. set (m1 := <[out := File _]> (fs st)).
  assert (archive_path m1 dir_path processed_dir (strftime (clock st)) = stamped) as ->.
  { unfold archive_path. fold natural. subst m1. by rewrite exists_insert_ne, Htaken. }
  apply move_dir_into_dir; fold nested.
  - subst m1. rewrite lookup_insert_ne; [done|]. by apply startswith_false_ne.
  - subst m1. by rewrite isdir_insert_file.
  - intros Heq. rewrite Hstamped_eq in Heq.
    rewrite Heq, startswith_app in Hdir_proc. done.
  - subst m1. by rewrite lookup_insert_ne.
  - subst m1. by rewrite parent_ok_insert_file.
  - apply not_true_is_false. intros [q Hq]%in_tree_inv. rewrite Hnested_eq in Hq.
    by eapply (apart_no_common_extension processed_dir dir_path).
Qed.

(** X14. A regular file named [dropbox] in the base directory stops
    [main] at once: [os.makedirs] raises [FileExistsError], nothing catches
    it, nothing has been logged or changed, and the exit status is 1. *)
Theorem main_stops_when_dropbox_is_a_regular_file
    import_whisper load_model model_name base_dir content st :
  let r := main listing_order strftime duration import_whisper load_model
             model_name base_dir st in
  fs st !! Path.join base_dir "dropbox" = Some (File content) →
  Fs.parent_ok (fs st) (Path.join base_dir "dropbox") = true →
  r = (inl (FileExistsError (Path.join base_dir "dropbox")), st)
  ∧ exit_status r.1 = 1.
Proof.
  intros r Hfile Hparent.
  assert (Hr : r = (inl (FileExistsError (Path.join base_dir "dropbox")), st)).
  { subst r. unfold main. rewrite bind_run, setup_directories_run. cbv zeta.
    cbn [dropbox]. rewrite makedirs_under_parent; [|done|by rewrite basename_join].
    by rewrite Hfile. }
  by rewrite Hr.
Qed.

(** X15. When Whisper cannot be imported or the model cannot be loaded,
    whatever the exception, the run ends there with exit status 1: the drop
    location has not been listed and the filesystem is as it was. *)
Theorem failing_import_or_load_exits_1
    import_whisper load_model dropbox_dir output_dir processed_dir model_name e st :
  let r := process_dropbox listing_order strftime duration import_whisper load_model
             dropbox_dir output_dir processed_dir model_name st in
  Fs.exists_ (fs st) dropbox_dir = true →
  import_whisper = Some e ∨ (import_whisper = None ∧ load_model model_name = inl e) →
  is_Exception e = true →
  r.1 = inl (if is_ImportError e then SystemExit 1 else e)
  ∧ exit_status r.1 = 1
  ∧ fs r.2 = fs st
  ∧ clock r.2 = clock st
  ∧ transcribed (trace r.2) = transcribed (trace st)
  ∧ moves (trace r.2) = moves (trace st).
Proof.
  intros r Hdrop Hfail He.
  assert (Hrun : ∃ events,
    r = (inl (if is_ImportError e then SystemExit 1 else e),
         State (fs st) (clock st) (trace st ++ events) (processed_files st))
    ∧ transcribed events = [] ∧ moves events = []).
  { subst r. unfold process_dropbox.
    rewrite bind_run. unfold os_path_exists at 1. rewrite Hdrop.
    cbn beta iota. cbn [negb]. cbn beta iota. unfold try_except.
    destruct Hfail as [->|[-> Hload]].
    - rewrite bind_run. unfold raise at 1. cbn beta iota.
      destruct (is_ImportError e) eqn:Himp.
      + rewrite bind_run, logger_run. cbn beta iota.
        rewrite bind_run, logger_run. cbn beta iota. unfold raise.
        exists [Log ERROR FailedToImportWhisper; Log ERROR InstallWith].
        destruct st; unfold emit; cbn. by rewrite <- List.app_assoc.
      + exists []. destruct st; cbn. by rewrite List.app_nil_r.
    - rewrite bind_run. cbn [mret M_ret]. cbn beta iota.
      rewrite bind_run, logger_run. cbn beta iota.
      rewrite bind_run, Hload. unfold raise at 1. cbn beta iota.
      destruct (is_ImportError e) eqn:Himp.
      + rewrite bind_run, logger_run. cbn beta iota.
        rewrite bind_run, logger_run. cbn beta iota. unfold raise.
        exists [Log INFO (LoadingWhisperModel model_name);
                Log ERROR FailedToImportWhisper; Log ERROR InstallWith].
        destruct st; unfold emit; cbn. by rewrite <- !List.app_assoc.
      + exists [Log INFO (LoadingWhisperModel model_name)]. by destruct st. }
  destruct Hrun as (events & -> & Ht & Hm). cbn [fst snd fs clock trace].
  rewrite transcribed_app, moves_app, Ht, Hm, !List.app_nil_r.
  split_and!; try done. by destruct e.
Qed.

(** The loop of [process_dropbox] over entries that are neither directories
    nor audio files. *)
Lemma for_each_unsupported dropbox_dir output_dir processed_dir model items : ∀ st,
  (∀ item, item ∈ items →
     Fs.isdir (fs st) (Path.join dropbox_dir item) = false ∧ is_audio_file item = false) →
  for_each items (process_item listing_order strftime duration
                    dropbox_dir output_dir processed_dir model) st
  = (inr tt,
     State (fs st) (clock st)
           (trace st ++ ((λ item, Log WARNING (SkippingUnsupported item)) <$> items))
           (processed_files st)).
Proof.
  induction items as [|item items IH]; intros st Hitems.
  - cbn. destruct st; cbn. by rewrite List.app_nil_r.
  - cbn [for_each]. rewrite bind_run.
    destruct (Hitems item) as [Hdir Haudio]; [left|].
    unfold process_item at 1. rewrite bind_run. unfold os_path_isdir at 1.
    rewrite Hdir, Haudio. cbn beta iota. rewrite logger_run.
    rewrite IH.
    + cbn [fs clock trace processed_files emit fmap list_fmap].
      by rewrite <- List.app_assoc.
    + intros i Hi. apply Hitems. by right.
Qed.

(** X16. A drop location that holds nothing the script supports (no
    directory, no name ending in [.mp3]) is left as it is: every entry is
    skipped with a warning, nothing is transcribed, moved or written. *)
Theorem unsupported_items_are_only_reported
    load_model dropbox_dir output_dir processed_dir model_name model st :
  let items := listing_order (Fs.children (fs st) dropbox_dir) in
  Fs.isdir (fs st) dropbox_dir = true →
  load_model model_name = inr model →
  (∀ item, item ∈ Fs.children (fs st) dropbox_dir →
     Fs.isdir (fs st) (Path.join dropbox_dir item) = false ∧ is_audio_file item = false) →
  process_dropbox listing_order strftime duration None load_model
    dropbox_dir output_dir processed_dir model_name st
  = (inr tt,
     State (fs st) (clock st)
           (trace st ++ Log INFO (LoadingWhisperModel model_name)
              :: match items with
                 | [] => [Log INFO NoItemsFound]
                 | _ => (λ item, Log WARNING (SkippingUnsupported item)) <$> items
                 end)
           (processed_files st)).
Proof.
  intros items Hdir Hload Hitems. unfold process_dropbox.
  rewrite bind_run. unfold os_path_exists at 1.
  assert (Fs.exists_ (fs st) dropbox_dir = true) as ->.
  { unfold Fs.isdir in Hdir. apply bool_decide_eq_true in Hdir.
    by eapply exists_true_Some. }
  cbn beta iota. cbn [negb]. cbn beta iota. unfold try_except.
  rewrite bind_run. cbn [mret M_ret]. cbn beta iota.
  rewrite bind_run, logger_run. cbn beta iota.
  rewrite bind_run, Hload. cbn [mret M_ret]. cbn beta iota.
  rewrite bind_run, os_listdir_run by done. cbn beta iota. cbn [fs emit]. fold items.
  destruct items as [|item items'] eqn:E.
  - rewrite bool_decide_eq_true_2 by done. rewrite logger_run.
    destruct st; unfold emit; cbn. by rewrite <- List.app_assoc.
  - rewrite bool_decide_eq_false_2 by done.
    rewrite for_each_unsupported.
    + unfold emit. cbn [fs clock trace processed_files].
      by rewrite <- List.app_assoc.
    + intros i Hi. cbn [fs]. apply Hitems.
      rewrite <- (listing_order_perm (Fs.children (fs st) dropbox_dir)).
      fold items. by rewrite E.
Qed.

(** X17. What an item that ends the run leaves behind.  When [process_item]
    raises, the item is an audio file whose transcript is in the output
    directory and whose source is still in the drop location: the exception
    is one of [shutil.move], raised after the transcript was secured. *)
Theorem aborting_item_keeps_source_and_transcript
    dropbox_dir output_dir processed_dir model item st e st' :
  let item_path := Path.join dropbox_dir item in
  process_item listing_order strftime duration
    dropbox_dir output_dir processed_dir model item st = (inl e, st') →
  is_audio_file item = true
  ∧ is_Exception e = true
  ∧ Fs.exists_ (fs st') item_path = true
  ∧ Fs.exists_ (fs st') (get_output_filename item_path output_dir) = true
  ∧ ∃ dest, last (trace st') = Some (Move item_path dest).
Proof.
  intros item_path Hraise.
  assert (Haudio : is_audio_file item = true).
  { revert Hraise. unfold process_item. rewrite bind_run. unfold os_path_isdir at 1.
    cbn beta iota. destruct (Fs.isdir (fs st) _).
    - rewrite bind_run, logger_run. cbn beta iota.
      destruct (process_directory_returns listing_order strftime duration
                  (Path.join dropbox_dir item) output_dir processed_dir model
                  (emit (Log INFO (ProcessingDirectoryAsAudiobook item)) st))
        as ([] & st1 & ->). done.
    - by destruct (is_audio_file item). }
  apply process_item_raises_only_in_move in Hraise as (st1 & Hfile & Hmove).
  fold item_path in Hfile, Hmove.
  rewrite process_audio_file_run in Hfile. cbn [fs emit] in Hfile.
  destruct (Fs.exists_ (fs st) item_path) eqn:Hsrc; cbn [negb] in Hfile; [|done].
  assert (Hst1 : Fs.exists_ (fs st1) item_path = true
                 ∧ Fs.exists_ (fs st1) (get_output_filename item_path output_dir) = true).
  { destruct (Fs.exists_ (fs st) (get_output_filename item_path output_dir)) eqn:Hout.
    - by simplify_eq.
    - destruct (transcribe_result (fs st) model item_path); [done|].
      destruct (Fs.parent_ok (fs st) _); [|done]. simplify_eq. cbn [fs]. split.
      + rewrite exists_insert_ne; [done|]. congruence.
      + eapply exists_true_Some, lookup_insert_eq. }
  destruct Hst1 as [Hsrc1 Hout1].
  rewrite move_to_processed_run in Hmove by done. cbv zeta in Hmove.
  destruct (Os.move _ _ (fs st1)) as [e'|m'] eqn:Hos; [|done].
  simplify_eq. cbn [fs trace emit]. split_and!; [done|by eapply move_Exception|done..|].
  eexists. by rewrite last_snoc.
Qed.

(** Both names [move_to_processed] can pick lie below the archive. *)
Lemma file_archive_path_under m file_path processed_dir timestamp :
  ∃ y, file_archive_path m file_path processed_dir timestamp
       = Path.join processed_dir "" +:+ y.
Proof.
  unfold file_archive_path. destruct (Fs.exists_ m _); eexists; apply join_relative.
  - apply name_suffix_relative, splitext_fst_no_sep, basename_no_sep.
  - apply (contains_startswith Path.sep), basename_no_sep.
Qed.

Lemma archive_path_under m dir_path processed_dir timestamp :
  ∃ y, archive_path m dir_path processed_dir timestamp
       = Path.join processed_dir "" +:+ y.
Proof.
  unfold archive_path.
  rewrite (join_relative processed_dir (Path.basename dir_path))
    by apply (contains_startswith Path.sep), basename_no_sep.
  destruct (Fs.exists_ m _); [|by eexists]. rewrite sapp_assoc. by eexists.
Qed.

Lemma move_to_processed_keeps file_path processed_dir st p v :
  fs st !! p = Some v →
  Fs.in_tree file_path p = false → Fs.below processed_dir p = false →
  fs (move_to_processed strftime file_path processed_dir st).2 !! p = Some v.
Proof.
  intros Hp Hsrc Hproc.
  destruct (Fs.exists_ (fs st) file_path) eqn:Hfile.
  - rewrite move_to_processed_run by done. cbv zeta.
    destruct (file_archive_path_under (fs st) file_path processed_dir
                (strftime (clock st))) as [y ->].
    destruct (Os.move _ _ (fs st)) as [e|m] eqn:Hmove; [done|].
    cbn [snd fs emit set_fs]. eapply move_frame_tree; eauto.
    by apply startswith_false_app.
  - unfold move_to_processed. rewrite bind_run. unfold os_path_exists at 1.
    by rewrite Hfile.
Qed.

Lemma process_audio_file_keeps file_path output_dir model st p v :
  fs st !! p = Some v → Fs.below output_dir p = false →
  fs (process_audio_file duration file_path output_dir model st).2 !! p = Some v.
Proof.
  intros Hp Hout. rewrite process_audio_file_run.
  destruct (negb _); [done|]. destruct (Fs.exists_ _ _); [done|].
  destruct (transcribe_result _ _ _); [done|].
  destruct (Fs.parent_ok _ _); [|done]. cbn [snd fs].
  rewrite lookup_insert_ne; [done|].
  apply not_eq_sym, startswith_false_ne. unfold get_output_filename.
  apply below_false_join; [done|]. apply (contains_startswith Path.sep).
  rewrite contains_app, splitext_fst_no_sep by apply basename_no_sep. done.
Qed.

Lemma process_directory_keeps dir_path output_dir processed_dir model st p v :
  let out := audiobook_output strftime dir_path output_dir st in
  let st' := (process_directory listing_order strftime duration
                dir_path output_dir processed_dir model st).2 in
  Str.startswith out dir_path = false →
  fs st !! p = Some v →
  p ≠ out →
  Fs.in_tree dir_path p = false →
  Fs.below processed_dir p = false →
  fs st' !! p = Some v.
Proof.
  intros out st' Hout Hp Hne Hdir_p Hproc_p. subst st'.
  destruct (Fs.isdir (fs st) dir_path) eqn:Hdir.
  2:{ unfold process_directory. rewrite bind_run. unfold os_path_isdir at 1.
      by rewrite Hdir. }
  destruct (decide (audio_parts (fs st) dir_path = [])) as [Hnil|Hparts].
  { by rewrite process_directory_empty. }
  destruct (can_open_w (fs st) out) eqn:Hopen.
  2:{ destruct (process_directory_open_fails listing_order listing_order_perm
                  strftime duration dir_path output_dir processed_dir model st)
        as [e ->]; done. }
  destruct (first_failure (fs st) model (audio_parts (fs st) dir_path))
    as [[q e]|] eqn:Hfail.
  { rewrite (process_directory_part_fails _ listing_order_perm _ _ _ _ _ _ _ q e)
      by done.
    cbn [snd fs]. by rewrite lookup_insert_ne. }
  rewrite process_directory_all_ok by done. fold out.
  set (m1 := <[out := File _]> (fs st)).
  assert (Hp1 : m1 !! p = Some v) by (subst m1; by rewrite lookup_insert_ne).
  destruct (archive_path_under m1 dir_path processed_dir (strftime (clock st)))
    as [y ->].
  destruct (Os.move _ _ m1) as [e|m2] eqn:Hmove; cbn [snd fs]; [done|].
  eapply move_frame_tree; eauto. by apply startswith_false_app.
Qed.

(** X18. [process_directory] keeps everything else: whatever becomes of
    the collection, a path that is there, is not the aggregate output, is
    neither the collection directory nor below it, and is not below the
    archive, holds the same node afterwards.  A sibling whose name extends
    that of the collection ([book2] next to [book]) is such a path, and so
    is one whose name extends that of the archive. *)
Theorem process_directory_keeps_everything_else
    dir_path output_dir processed_dir model st p v :
  let out := audiobook_output strftime dir_path output_dir st in
  let st' := (process_directory listing_order strftime duration
                dir_path output_dir processed_dir model st).2 in
  Str.startswith out dir_path = false →
  fs st !! p = Some v →
  p ≠ out →
  Fs.in_tree dir_path p = false →
  Fs.below processed_dir p = false →
  fs st' !! p = Some v.
Proof. apply process_directory_keeps. Qed.

Lemma process_item_keeps base_dir model item st p v :
  let dropbox_dir := Path.join base_dir "dropbox" in
  let output_dir := Path.join base_dir "output" in
  let processed_dir := Path.join base_dir "processed" in
  Str.contains Path.sep item = false →
  fs st !! p = Some v →
  Fs.below dropbox_dir p = false →
  Fs.below output_dir p = false →
  Fs.below processed_dir p = false →
  fs (process_item listing_order strftime duration
        dropbox_dir output_dir processed_dir model item st).2 !! p = Some v.
Proof.
  intros dropbox_dir output_dir processed_dir Hitem Hp Hdrop Hout Hproc.
  assert (Hrel : Str.startswith item "/" = false)
    by apply (contains_startswith Path.sep), Hitem.
  assert (Hitem_p : Fs.in_tree (Path.join dropbox_dir item) p = false)
    by by apply below_false_in_tree.
  unfold process_item. rewrite bind_run. unfold os_path_isdir at 1. cbn beta iota.
  destruct (Fs.isdir (fs st) _).
  - rewrite bind_run, logger_run. cbn beta iota.
    apply process_directory_keeps; try done.
    + by apply (script_layout_separates strftime base_dir item).
    + apply startswith_false_ne. unfold audiobook_output.
      apply below_false_join; [done|].
      apply name_suffix_relative, basename_no_sep.
  - destruct (is_audio_file item); [|by rewrite logger_run].
    rewrite bind_run, logger_run. cbn beta iota. rewrite bind_run.
    pose proof (process_audio_file_keeps (Path.join dropbox_dir item) output_dir model
                  (emit (Log INFO (ProcessingIndividualFile item)) st) p v Hp Hout) as Hkeep.
    destruct (process_audio_file duration _ _ _ _) as [[e|ok] st1]; [done|].
    cbn [snd] in Hkeep. destruct ok; [|done].
    by apply move_to_processed_keeps.
Qed.

Lemma process_dropbox_keeps import_whisper load_model model_name base_dir p v :
  let dropbox_dir := Path.join base_dir "dropbox" in
  let output_dir := Path.join base_dir "output" in
  let processed_dir := Path.join base_dir "processed" in
  Fs.below dropbox_dir p = false →
  Fs.below output_dir p = false →
  Fs.below processed_dir p = false →
  preserves p v (process_dropbox listing_order strftime duration import_whisper load_model
                   dropbox_dir output_dir processed_dir model_name).
Proof.
  intros dropbox_dir output_dir processed_dir Hdrop Hout Hproc.
  unfold process_dropbox.
  apply preserves_bind; [by apply preserves_pure|intros found].
  destruct (negb found); [by apply preserves_pure|].
  apply preserves_try_except.
  2:{ intros _. by apply preserves_pure. }
  apply preserves_bind; [destruct import_whisper; by apply preserves_pure|intros _].
  apply preserves_bind; [by apply preserves_pure|intros _].
  apply preserves_bind;
    [destruct (load_model model_name); by apply preserves_pure|intros model].
  intros st Hp. rewrite bind_run. unfold os_listdir at 1.
  destruct (Fs.isdir (fs st) dropbox_dir); [|done]. cbn beta iota.
  destruct (bool_decide _); [done|].
  apply preserves_for_each; [|done].
  intros item Hitem st1 Hp1. apply process_item_keeps; try done.
  rewrite listing_order_perm in Hitem. by apply elem_of_children in Hitem as (? & _).
Qed.

(** X19. The script stays inside its three directories: whatever is
    in the drop location, whatever the model does and however the run ends,
    a path that is there before [main] and lies below none of [dropbox],
    [output] and [processed] of the base directory holds the same node
    after it.  The three directories themselves are such paths, and so is
    every sibling whose name extends one of theirs ([dropbox_old],
    [output.bak], [processed_2025]) with all that is below it. *)
Theorem main_keeps_everything_outside_its_directories
    import_whisper load_model model_name base_dir st p v :
  let st' := (main listing_order strftime duration import_whisper load_model
                model_name base_dir st).2 in
  fs st !! p = Some v →
  Fs.below (Path.join base_dir "dropbox") p = false →
  Fs.below (Path.join base_dir "output") p = false →
  Fs.below (Path.join base_dir "processed") p = false →
  fs st' !! p = Some v.
Proof.
  intros st' Hp Hdrop Hout Hproc. subst st'.
  unfold main. rewrite bind_run, setup_directories_run. cbv zeta.
  cbn [dropbox output processed].
  destruct (Os.makedirs _ true (fs st)) as [e|m1] eqn:H1; [done|].
  destruct (Os.makedirs _ true m1) as [e|m2] eqn:H2; cbn [snd fs emit set_fs];
    [eauto using makedirs_mono|].
  destruct (Os.makedirs _ true m2) as [e|m3] eqn:H3; cbn [snd fs emit set_fs];
    [eauto using makedirs_mono|].
  cbn [dropbox output processed].
  assert (Hrest : preserves p v
    (logger INFO (Starting model_name);;
     process_dropbox listing_order strftime duration import_whisper load_model
       (Path.join base_dir "dropbox") (Path.join base_dir "output")
       (Path.join base_dir "processed") model_name;;
     logger INFO ProcessingComplete)).
  { apply preserves_bind; [by apply preserves_pure|intros _].
    apply preserves_bind; [|intros _; by apply preserves_pure].
    by apply process_dropbox_keeps. }
  apply Hrest. cbn [fs]. eauto using makedirs_mono.
Qed.

End Coverage.

(** ** The properties at work on the sample worlds *)

Lemma get_output_filename_keeps_only_the_stem_witness :
  get_output_filename "/srv/dropbox/talk.mp3" "/srv/output" = "/srv/output/talk.txt"
  ∧ get_output_filename "/srv/dropbox/talk.MP3" "/srv/output" = "/srv/output/talk.txt".
Proof.
  split.
  - apply (get_output_filename_keeps_only_the_stem "/srv/dropbox" "talk" "mp3" "/srv/output");
      reflexivity.
  - apply (get_output_filename_keeps_only_the_stem "/srv/dropbox" "talk" "MP3" "/srv/output");
      reflexivity.
Defined.

Lemma setup_directories_makes_the_three_directories_witness :
  Fs.isdir (fs Scenes.fresh_base) "/srv/dropbox" = false
  ∧ Fs.isdir (fs (setup_directories "/srv" Scenes.fresh_base).2) "/srv/dropbox" = true
  ∧ Fs.isdir (fs (setup_directories "/srv" Scenes.fresh_base).2) "/srv/output" = true
  ∧ Fs.isdir (fs (setup_directories "/srv" Scenes.fresh_base).2) "/srv/processed" = true.
Proof.
  split; [vm_compute; reflexivity|].
  destruct (setup_directories_makes_the_three_directories "/srv" Scenes.fresh_base
              (Directories "/srv/dropbox" "/srv/output" "/srv/processed")
              (setup_directories "/srv" Scenes.fresh_base).2)
    as (_ & H1 & H2 & H3 & _); [vm_compute; reflexivity|].
  split_and!; [exact H1|exact H2|exact H3].
Defined.

Lemma setup_directories_makes_what_is_missing_witness :
  fs (setup_directories "/srv" Scenes.fresh_base).2
  = <["/srv/processed" := Dir]> (<["/srv/output" := Dir]> (<["/srv/dropbox" := Dir]>
      (fs Scenes.fresh_base)))
  ∧ fs (setup_directories "/srv" (Sample.world [])).2 = fs (Sample.world []).
Proof.
  split.
  - destruct (setup_directories_makes_what_is_missing "/srv" Scenes.fresh_base)
      as [Hrun _].
    + vm_compute. reflexivity.
    + intros p Hp. left.
      repeat (apply elem_of_cons in Hp as [->|Hp]; [vm_compute; reflexivity|]).
      by apply elem_of_nil in Hp.
    + by rewrite Hrun.
  - destruct (setup_directories_makes_what_is_missing "/srv" (Sample.world []))
      as [_ Hsame].
    + vm_compute. reflexivity.
    + intros p Hp. right.
      repeat (apply elem_of_cons in Hp as [->|Hp]; [vm_compute; reflexivity|]).
      by apply elem_of_nil in Hp.
    + apply Hsame; vm_compute; reflexivity.
Defined.

Lemma process_audio_file_writes_the_transcript_witness :
  process_audio_file Sample.duration "/srv/dropbox/talk.mp3" "/srv/output" Sample.model
    (Sample.talk "hello")
  = (inr true,
     State (<["/srv/output/talk.txt" := File "<hello>"]> (fs (Sample.talk "hello"))) 5
           [Log INFO (ProcessingFile "/srv/dropbox/talk.mp3");
            Transcribe "/srv/dropbox/talk.mp3";
            OpenW "/srv/output/talk.txt";
            Log INFO (TranscriptionSaved "/srv/output/talk.txt")]
           []).
Proof.
  apply (process_audio_file_writes_the_transcript Sample.duration
           "/srv/dropbox/talk.mp3" "/srv/output" Sample.model "hello" "<hello>"
           (Sample.talk "hello"));
    vm_compute; reflexivity.
Defined.

Lemma move_to_processed_keeps_a_free_name_witness :
  move_to_processed Sample.strftime "/srv/dropbox/talk.mp3" "/srv/processed"
    (Sample.talk "hello")
  = (inr tt,
     State (<["/srv/processed/talk.mp3" := File "hello"]>
              (delete "/srv/dropbox/talk.mp3" (fs (Sample.talk "hello"))))
           0
           [Move "/srv/dropbox/talk.mp3" "/srv/processed/talk.mp3";
            Log INFO (MovedProcessedFile "/srv/processed/talk.mp3")]
           []).
Proof.
  apply (move_to_processed_keeps_a_free_name Sample.strftime
           "/srv/dropbox/talk.mp3" "/srv/processed" "hello" (Sample.talk "hello"));
    vm_compute; reflexivity.
Defined.

Lemma move_to_processed_stamps_a_duplicate_name_witness :
  fs (move_to_processed Sample.strftime "/srv/dropbox/talk.mp3" "/srv/processed"
        Scenes.talk_archived_once).2
  = <["/srv/processed/talk_20260101_000000.mp3" := File "second take"]>
      (delete "/srv/dropbox/talk.mp3" (fs Scenes.talk_archived_once))
  ∧ fs (move_to_processed Sample.strftime "/srv/dropbox/talk.mp3" "/srv/processed"
          Scenes.talk_archived_once).2 !! "/srv/processed/talk.mp3"
    = Some (File "first take").
Proof.
  destruct (move_to_processed_stamps_a_duplicate_name Sample.strftime
              "/srv/dropbox/talk.mp3" "/srv/processed" "second take" (File "first take")
              Scenes.talk_archived_once)
    as (_ & Hfs & Hkept);
    [vm_compute; reflexivity
    |vm_compute; reflexivity
    |vm_compute; reflexivity
    |vm_compute; reflexivity
    |vm_compute; discriminate
    |].
  split; [exact Hfs|exact Hkept].
Defined.

Lemma fresh_audio_file_is_transcribed_then_archived_witness :
  process_item Sample.listing_order Sample.strftime Sample.duration
    "/srv/dropbox" "/srv/output" "/srv/processed" Sample.model "talk.mp3"
    (Sample.talk "hello")
  = (inr tt,
     State (<["/srv/processed/talk.mp3" := File "hello"]>
              (delete "/srv/dropbox/talk.mp3"
                 (<["/srv/output/talk.txt" := File "<hello>"]> (fs (Sample.talk "hello")))))
           5
           [Log INFO (ProcessingIndividualFile "talk.mp3");
            Log INFO (ProcessingFile "/srv/dropbox/talk.mp3");
            Transcribe "/srv/dropbox/talk.mp3";
            OpenW "/srv/output/talk.txt";
            Log INFO (TranscriptionSaved "/srv/output/talk.txt");
            Move "/srv/dropbox/talk.mp3" "/srv/processed/talk.mp3";
            Log INFO (MovedProcessedFile "/srv/processed/talk.mp3")]
           []).
Proof.
  apply (fresh_audio_file_is_transcribed_then_archived
           Sample.listing_order Sample.strftime Sample.duration
           "/srv/dropbox" "/srv/output" "/srv/processed" Sample.model "talk.mp3"
           "hello" "<hello>" (Sample.talk "hello"));
    [vm_compute; reflexivity
    |vm_compute; reflexivity
    |vm_compute; reflexivity
    |vm_compute; reflexivity
    |vm_compute; reflexivity
    |vm_compute; reflexivity
    |vm_compute; reflexivity
    |vm_compute; discriminate].
Defined.

Lemma unwritable_aggregate_output_stops_before_the_first_part_witness :
  can_open_w (fs (Sample.book "alpha" "beta")) "/srv/nowhere/book_20260101_000000.txt" = false
  ∧ fs (process_directory Sample.listing_order Sample.strftime Sample.duration
          "/srv/dropbox/book" "/srv/nowhere" "/srv/processed" Sample.model
          (Sample.book "alpha" "beta")).2
    = fs (Sample.book "alpha" "beta").
Proof.
  split; [vm_compute; reflexivity|].
  destruct (unwritable_aggregate_output_stops_before_the_first_part
              Sample.listing_order sample_listing_order_perm
              Sample.strftime Sample.duration
              "/srv/dropbox/book" "/srv/nowhere" "/srv/processed" Sample.model
              (Sample.book "alpha" "beta"))
    as (_ & Hfs & _);
    [vm_compute; reflexivity
    |vm_compute; discriminate
    |vm_compute; reflexivity
    |].
  exact Hfs.
Defined.

Lemma collection_is_archived_entry_by_entry_witness :
  let st' := (process_directory Sample.listing_order Sample.strftime Sample.duration
                "/srv/dropbox/book" "/srv/output" "/srv/processed" Sample.model
                (Sample.book "alpha" "beta")).2 in
  fs st' !! "/srv/processed/book/cover.jpg" = Some (File "jpeg")
  ∧ fs st' !! "/srv/dropbox/book/cover.jpg" = None
  ∧ fs st' !! "/srv/processed/book" = Some Dir
  ∧ fs st' !! "/srv/dropbox" = Some Dir.
Proof.
  cbv zeta.
  destruct (collection_is_archived_entry_by_entry
              Sample.listing_order sample_listing_order_perm
              Sample.strftime Sample.duration
              "/srv/dropbox/book" "/srv/output" "/srv/processed" Sample.model
              (Sample.book "alpha" "beta"))
    as [Hmoved Hkept];
    [vm_compute; reflexivity
    |vm_compute; discriminate
    |vm_compute; reflexivity
    |vm_compute; repeat constructor; by eexists
    |repeat constructor
    |vm_compute; reflexivity
    |vm_compute; reflexivity
    |vm_compute; reflexivity
    |vm_compute; reflexivity
    |vm_compute; reflexivity
    |vm_compute; reflexivity
    |].
  destruct (Hmoved "/cover.jpg" (File "jpeg")) as [Hthere Hgone];
    [right; vm_compute; reflexivity|vm_compute; reflexivity|].
  destruct (Hmoved "" Dir) as [Hroot _];
    [by left|vm_compute; reflexivity|].
  split_and!; [exact Hthere|exact Hgone|exact Hroot|].
  rewrite (Hkept "/srv/dropbox");
    [vm_compute; reflexivity|vm_compute; reflexivity|vm_compute; reflexivity
    |vm_compute; discriminate].
Defined.

Lemma collection_is_nested_in_a_taken_timestamped_directory_witness :
  let st' := (process_directory Sample.listing_order Sample.strftime Sample.duration
                "/srv/dropbox/book" "/srv/output" "/srv/processed" Sample.model
                Scenes.book_archived_twice).2 in
  fs st' !! "/srv/processed/book_20260101_000000/book/a.mp3" = Some (File "alpha")
  ∧ fs st' !! "/srv/dropbox/book/a.mp3" = None.
Proof.
  cbv zeta.
  apply (collection_is_nested_in_a_taken_timestamped_directory
           Sample.listing_order sample_listing_order_perm
           Sample.strftime Sample.duration
           "/srv/dropbox/book" "/srv/output" "/srv/processed" Sample.model
           Scenes.book_archived_twice);
    [vm_compute; reflexivity
    |vm_compute; discriminate
    |vm_compute; reflexivity
    |vm_compute; repeat constructor; by eexists
    |repeat constructor
    |vm_compute; reflexivity
    |vm_compute; reflexivity
    |vm_compute; reflexivity
    |vm_compute; reflexivity
    |vm_compute; reflexivity
    |vm_compute; reflexivity
    |vm_compute; reflexivity
    |vm_compute; reflexivity
    |right; vm_compute; reflexivity
    |vm_compute; reflexivity].
Defined.

Lemma main_stops_when_dropbox_is_a_regular_file_witness :
  main Sample.listing_order Sample.strftime Sample.duration None Sample.load_model
    "base" "/srv" Scenes.dropbox_is_a_file
  = (inl (FileExistsError "/srv/dropbox"), Scenes.dropbox_is_a_file).
Proof.
  destruct (main_stops_when_dropbox_is_a_regular_file
              Sample.listing_order Sample.strftime Sample.duration None Sample.load_model
              "base" "/srv" "stray" Scenes.dropbox_is_a_file)
    as [Hrun _]; [vm_compute; reflexivity|vm_compute; reflexivity|].
  exact Hrun.
Defined.

Lemma failing_import_or_load_exits_1_witness :
  (process_dropbox Sample.listing_order Sample.strftime Sample.duration
     (Some ImportError) Sample.load_model
     "/srv/dropbox" "/srv/output" "/srv/processed" "base" (Sample.talk "hello")).1
  = inl (SystemExit 1)
  ∧ (process_dropbox Sample.listing_order Sample.strftime Sample.duration
       None (λ model_name, inl (LoadError model_name))
       "/srv/dropbox" "/srv/output" "/srv/processed" "huge" (Sample.talk "hello")).1
    = inl (LoadError "huge").
Proof.
  split.
  - destruct (failing_import_or_load_exits_1
                Sample.listing_order Sample.strftime Sample.duration
                (Some ImportError) Sample.load_model
                "/srv/dropbox" "/srv/output" "/srv/processed" "base" ImportError
                (Sample.talk "hello"))
      as (Hraised & _); [vm_compute; reflexivity|by left|reflexivity|].
    exact Hraised.
  - destruct (failing_import_or_load_exits_1
                Sample.listing_order Sample.strftime Sample.duration
                None (λ model_name, inl (LoadError model_name))
                "/srv/dropbox" "/srv/output" "/srv/processed" "huge" (LoadError "huge")
                (Sample.talk "hello"))
      as (Hraised & _); [vm_compute; reflexivity|by right|reflexivity|].
    exact Hraised.
Defined.

Lemma unsupported_items_are_only_reported_witness :
  process_dropbox Sample.listing_order Sample.strftime Sample.duration
    None Sample.load_model
    "/srv/dropbox" "/srv/output" "/srv/processed" "base" Scenes.unsupported_only
  = (inr tt,
     State (fs Scenes.unsupported_only) 0
           [Log INFO (LoadingWhisperModel "base");
            Log WARNING (SkippingUnsupported "notes.txt");
            Log WARNING (SkippingUnsupported "cover.jpg")]
           []).
Proof.
  rewrite (unsupported_items_are_only_reported
             Sample.listing_order sample_listing_order_perm
             Sample.strftime Sample.duration Sample.load_model
             "/srv/dropbox" "/srv/output" "/srv/processed" "base" Sample.model
             Scenes.unsupported_only);
    [vm_compute; reflexivity
    |vm_compute; reflexivity
    |reflexivity
    |].
  intros item Hitem. vm_compute in Hitem.
  repeat (apply elem_of_cons in Hitem as [->|Hitem]; [split; vm_compute; reflexivity|]).
  by apply elem_of_nil in Hitem.
Defined.

Lemma aborting_item_keeps_source_and_transcript_witness :
  let r := process_item Sample.listing_order Sample.strftime Sample.duration
             "/srv/dropbox" "/srv/output" "/srv/processed" Sample.model "talk.mp3"
             Sample.talk_blocked in
  r.1 = inl (ShutilError "/srv/processed/talk_20260101_000004.mp3/talk.mp3")
  ∧ Fs.exists_ (fs r.2) "/srv/dropbox/talk.mp3" = true
  ∧ Fs.exists_ (fs r.2) "/srv/output/talk.txt" = true.
Proof.
  cbv zeta. split; [vm_compute; reflexivity|].
  destruct (aborting_item_keeps_source_and_transcript
              Sample.listing_order Sample.strftime Sample.duration
              "/srv/dropbox" "/srv/output" "/srv/processed" Sample.model "talk.mp3"
              Sample.talk_blocked
              (ShutilError "/srv/processed/talk_20260101_000004.mp3/talk.mp3")
              (process_item Sample.listing_order Sample.strftime Sample.duration
                 "/srv/dropbox" "/srv/output" "/srv/processed" Sample.model "talk.mp3"
                 Sample.talk_blocked).2)
    as (_ & _ & Hsrc & Hout & _); [vm_compute; reflexivity|].
  split; [exact Hsrc|exact Hout].
Defined.

Lemma process_directory_keeps_everything_else_witness :
  let st' := (process_directory Sample.listing_order Sample.strftime Sample.duration
                "/srv/dropbox/book" "/srv/output" "/srv/processed" Sample.model
                Scenes.book_and_lookalikes).2 in
  fs st' !! "/srv/dropbox/book" = None
  ∧ fs st' !! "/srv/dropbox/book2/a.mp3" = Some (File "other")
  ∧ fs st' !! "/srv/processed_2025/book" = Some (File "earlier")
  ∧ fs (process_directory Sample.listing_order Sample.strftime Sample.duration
          "/srv/dropbox/book" "/srv/output" "/srv/processed" Sample.model
          (Sample.book "alpha" "noise")).2 !! "/srv/dropbox" = Some Dir.
Proof.
  cbv zeta. split_and!.
  - vm_compute. reflexivity.
  - apply (process_directory_keeps_everything_else
             Sample.listing_order sample_listing_order_perm
             Sample.strftime Sample.duration
             "/srv/dropbox/book" "/srv/output" "/srv/processed" Sample.model
             Scenes.book_and_lookalikes "/srv/dropbox/book2/a.mp3" (File "other"));
      [vm_compute; reflexivity
      |vm_compute; reflexivity
      |vm_compute; discriminate
      |vm_compute; reflexivity
      |vm_compute; reflexivity].
  - apply (process_directory_keeps_everything_else
             Sample.listing_order sample_listing_order_perm
             Sample.strftime Sample.duration
             "/srv/dropbox/book" "/srv/output" "/srv/processed" Sample.model
             Scenes.book_and_lookalikes "/srv/processed_2025/book" (File "earlier"));
      [vm_compute; reflexivity
      |vm_compute; reflexivity
      |vm_compute; discriminate
      |vm_compute; reflexivity
      |vm_compute; reflexivity].
  - apply (process_directory_keeps_everything_else
             Sample.listing_order sample_listing_order_perm
             Sample.strftime Sample.duration
             "/srv/dropbox/book" "/srv/output" "/srv/processed" Sample.model
             (Sample.book "alpha" "noise") "/srv/dropbox" Dir);
      [vm_compute; reflexivity
      |vm_compute; reflexivity
      |vm_compute; discriminate
      |vm_compute; reflexivity
      |vm_compute; reflexivity].
Defined.

Lemma main_keeps_everything_outside_its_directories_witness :
  let r := main Sample.listing_order Sample.strftime Sample.duration
             None Sample.load_model "base" "/srv" Scenes.talk_blocked_and_bystander in
  let r' := main Sample.listing_order Sample.strftime Sample.duration
              None Sample.load_model "base" "/srv" Scenes.talk_and_lookalikes in
  r.1 = inl (ShutilError "/srv/processed/talk_20260101_000004.mp3/talk.mp3")
  ∧ fs r.2 !! "/srv/README.md" = Some (File "read me")
  ∧ fs r'.2 !! "/srv/dropbox/talk.mp3" = None
  ∧ fs r'.2 !! "/srv/dropbox_old/talk.mp3" = Some (File "old talk")
  ∧ fs r'.2 !! "/srv/output.bak" = Some (File "backup")
  ∧ fs r'.2 !! "/srv/processed_2025/talk.mp3" = Some (File "earlier")
  ∧ fs r'.2 !! "/srv/processed" = Some Dir.
Proof.
  cbv zeta. split_and!; [vm_compute; reflexivity| |vm_compute; reflexivity|..].
  - apply (main_keeps_everything_outside_its_directories
             Sample.listing_order sample_listing_order_perm
             Sample.strftime Sample.duration None Sample.load_model "base" "/srv"
             Scenes.talk_blocked_and_bystander "/srv/README.md" (File "read me"));
      vm_compute; reflexivity.
  - apply (main_keeps_everything_outside_its_directories
             Sample.listing_order sample_listing_order_perm
             Sample.strftime Sample.duration None Sample.load_model "base" "/srv"
             Scenes.talk_and_lookalikes "/srv/dropbox_old/talk.mp3" (File "old talk"));
      vm_compute; reflexivity.
  - apply (main_keeps_everything_outside_its_directories
             Sample.listing_order sample_listing_order_perm
             Sample.strftime Sample.duration None Sample.load_model "base" "/srv"
             Scenes.talk_and_lookalikes "/srv/output.bak" (File "backup"));
      vm_compute; reflexivity.
  - apply (main_keeps_everything_outside_its_directories
             Sample.listing_order sample_listing_order_perm
             Sample.strftime Sample.duration None Sample.load_model "base" "/srv"
             Scenes.talk_and_lookalikes "/srv/processed_2025/talk.mp3" (File "earlier"));
      vm_compute; reflexivity.
  - apply (main_keeps_everything_outside_its_directories
             Sample.listing_order sample_listing_order_perm
             Sample.strftime Sample.duration None Sample.load_model "base" "/srv"
             Scenes.talk_and_lookalikes "/srv/processed" Dir);
      vm_compute; reflexivity.
Defined.
